(** * Kalshi dashboard: the event pipeline of [kalshi_client.py]

    A shallow embedding of [KalshiClient.get_top_events_by_category] and
    [KalshiClient.get_price_change_24h]: category classification, grouping of
    an event's active markets into options, probability derivation, the
    optional 24h price-change enrichment, sorting and truncation.

    Conventions.
    - Python [int] is [Z]; Python [float] is an IEEE 754 binary64 value,
      [spec_float] with [prec = 53] and [emax = 1024].
    - Python [str] is [string], read as ASCII text: [lower] changes the
      letters A-Z only.
    - A JSON object received from the API is a record whose fields are
      [option]s: [None] is a missing key.
    - Code that can raise returns a [result]; the network is an oracle that
      answers a request knowing the requests made before it, and the code
      that talks to it threads the list of requests made so far. *)

From Stdlib Require Import ZArith List String Ascii Bool Lia Permutation Sorted.
From Stdlib Require Import Floats.SpecFloat.
From stdpp Require Import gmap strings list.
Import ListNotations.
Open Scope string_scope.
Open Scope list_scope.
Open Scope Z_scope.

(* ===================================================================== *)
(** * Python built-ins used by the pipeline                               *)
(* ===================================================================== *)

Module Py.

(** ** Exceptions and results *)

Inductive exn : Type :=
  | ValueError
  | TypeError
  | OverflowError
  | AttributeError
  | RequestException.

Inductive result (A : Type) : Type :=
  | Ok (a : A)
  | Raise (e : exn).
Arguments Ok {A} a.
Arguments Raise {A} e.

Definition bind {A B : Type} (r : result A) (k : A -> result B) : result B :=
  match r with
  | Ok a => k a
  | Raise e => Raise e
  end.

(** ** Strings: [str.lower], [needle in haystack], truthiness *)

Definition lower_ascii (c : ascii) : ascii :=
  let n := nat_of_ascii c in
  if ((65 <=? n) && (n <=? 90))%nat then ascii_of_nat (n + 32) else c.

Fixpoint lower (s : string) : string :=
  match s with
  | EmptyString => EmptyString
  | String c s' => String (lower_ascii c) (lower s')
  end.

(** [str_in needle hay] is Python's [needle in hay] on strings. *)
Fixpoint str_in (needle hay : string) : bool :=
  String.prefix needle hay
  || match hay with
     | EmptyString => false
     | String _ hay' => str_in needle hay'
     end.

(** [bool(s)] for a string. *)
Definition str_truthy (s : string) : bool :=
  match s with
  | EmptyString => false
  | String _ _ => true
  end.

(** [any(p(x) for x in l)]. *)
Definition any {A : Type} (p : A -> bool) (l : list A) : bool := existsb p l.

(** ** Lists: [list.sort(key=..., reverse=True)] and [l[:n]] *)

(** [list.sort] is stable, and stays stable under [reverse=True]: elements
    with equal keys keep their order. A stable sort has a single possible
    result, so insertion from the right, which moves an element past the
    elements of strictly greater key only, computes it. *)
Fixpoint insert_desc {A : Type} (key : A -> Z) (x : A) (l : list A) : list A :=
  match l with
  | [] => [x]
  | y :: l' => if key x <? key y then y :: insert_desc key x l' else x :: y :: l'
  end.

Fixpoint sort_desc {A : Type} (key : A -> Z) (l : list A) : list A :=
  match l with
  | [] => []
  | x :: l' => insert_desc key x (sort_desc key l')
  end.

(** [l[:n]]: a negative [n] counts from the end. *)
Definition slice_to {A : Type} (n : Z) (l : list A) : list A :=
  if 0 <=? n then firstn (Z.to_nat n) l
  else firstn (length l - Z.to_nat (- n)) l.

(** ** Floats: [float(x)], [x * 100], [int(x)] *)

Definition fmul : spec_float -> spec_float -> spec_float := SFmul 53 1024.
Definition fdiv_round (s : bool) (m1 e1 m2 e2 : Z) : spec_float :=
  let '(mz, ez, lz) := SFdiv_core_binary 53 1024 m1 e1 m2 e2 in
  binary_round_aux 53 1024 s mz ez lz.

(** [float(z)] for an [int] that fits: the nearest binary64. *)
Definition float_of_Z (z : Z) : spec_float := binary_normalize 53 1024 z 0 false.

Definition is_valid (f : spec_float) : bool := valid_binary 53 1024 f.
Definition fleb : spec_float -> spec_float -> bool := SFleb.
Definition fzero : spec_float := S754_zero false.
Definition fone : spec_float := float_of_Z 1.
Definition hundred : spec_float := float_of_Z 100.

(** [int(f)]: truncation toward zero; [nan] and the infinities raise. *)
Definition trunc_mag (m : positive) (e : Z) : Z :=
  if 0 <=? e then Z.pos m * 2 ^ e else Z.pos m / 2 ^ (- e).

Definition py_int (f : spec_float) : result Z :=
  match f with
  | S754_zero _ => Ok 0
  | S754_nan => Raise ValueError
  | S754_infinity _ => Raise OverflowError
  | S754_finite s m e => Ok (if s then - trunc_mag m e else trunc_mag m e)
  end.

(** ** [float(s)] for a string

    Surrounding white space (the characters 9 to 13 and the space) is
    dropped; then an optional sign, then either
    [inf], [infinity] or [nan] in any letter case, or a decimal literal
    [digits [. digits] [e [sign] digits]] with at least one mantissa digit,
    where single underscores may separate digits. The literal's value
    [m * 10^x] is rounded to the nearest binary64, ties to even. *)

Definition is_space (c : ascii) : bool :=
  let n := nat_of_ascii c in
  (((9 <=? n) && (n <=? 13)) || (n =? 32))%nat.

Definition digit_val (c : ascii) : option Z :=
  let n := nat_of_ascii c in
  if ((48 <=? n) && (n <=? 57))%nat then Some (Z.of_nat n - 48) else None.

Definition is_digit (c : ascii) : bool :=
  match digit_val c with Some _ => true | None => false end.

Fixpoint lstrip (l : list ascii) : list ascii :=
  match l with
  | c :: l' => if is_space c then lstrip l' else l
  | [] => []
  end.

Definition strip (l : list ascii) : list ascii := rev (lstrip (rev (lstrip l))).

(** Reads a run of digits: [acc] is the value read so far and [cnt] the
    number of digits read in this run. *)
Fixpoint read_digits (l : list ascii) (acc cnt : Z) : Z * Z * list ascii :=
  match l with
  | c :: l' =>
      match digit_val c with
      | Some d => read_digits l' (10 * acc + d) (cnt + 1)
      | None =>
          if (Ascii.eqb c "_" && (0 <? cnt) && match l' with c2 :: _ => is_digit c2 | [] => false end)%bool
          then read_digits l' acc cnt
          else (acc, cnt, l)
      end
  | [] => (acc, cnt, l)
  end.

(** A decimal literal without sign: its mantissa and decimal exponent. *)
Definition parse_decimal (l : list ascii) : option (Z * Z) :=
  let '(ip, ic, r1) := read_digits l 0 0 in
  let '(m, fc, r2) :=
    match r1 with
    | c :: r => if Ascii.eqb c "." then read_digits r ip 0 else (ip, 0, r1)
    | [] => (ip, 0, r1)
    end in
  if ic + fc =? 0 then None
  else match r2 with
       | [] => Some (m, - fc)
       | c :: r3 =>
           if Ascii.eqb (lower_ascii c) "e" then
             let '(sg, r4) :=
               match r3 with
               | c' :: r => if Ascii.eqb c' "+" then (1, r)
                            else if Ascii.eqb c' "-" then (-1, r) else (1, r3)
               | [] => (1, r3)
               end in
             let '(ev, ec, r5) := read_digits r4 0 0 in
             if ec =? 0 then None
             else match r5 with [] => Some (m, sg * ev - fc) | _ :: _ => None end
           else None
       end.

(** The binary64 nearest to [m * 10^x], with sign [s]. *)
Definition float_of_decimal (s : bool) (m x : Z) : spec_float :=
  match m with
  | Z.pos p =>
      if 0 <=? x then binary_round 53 1024 s (p * Z.to_pos (10 ^ x)) 0
      else fdiv_round s m 0 (10 ^ (- x)) 0
  | _ => S754_zero s
  end.

Definition float_of_str (str : string) : option spec_float :=
  let l := strip (list_ascii_of_string str) in
  let '(s, body) :=
    match l with
    | c :: r => if Ascii.eqb c "-" then (true, r)
                else if Ascii.eqb c "+" then (false, r) else (false, l)
    | [] => (false, l)
    end in
  let word := lower (string_of_list_ascii body) in
  if String.eqb word "inf" || String.eqb word "infinity" then Some (S754_infinity s)
  else if String.eqb word "nan" then Some S754_nan
  else match parse_decimal body with
       | Some (m, x) => Some (float_of_decimal s m x)
       | None => None
       end.

(** ** Values decoded from JSON, and [float(v)] on them *)

Inductive pyval : Type :=
  | PyNone
  | PyBool (b : bool)
  | PyInt (z : Z)
  | PyFloat (f : spec_float)
  | PyStr (s : string)
  | PyList
  | PyDict.

Definition py_float (v : pyval) : result spec_float :=
  match v with
  | PyNone | PyList | PyDict => Raise TypeError
  | PyBool b => Ok (if b then fone else fzero)
  | PyInt z =>
      match float_of_Z z with
      | S754_infinity _ => Raise OverflowError
      | f => Ok f
      end
  | PyFloat f => Ok f
  | PyStr s =>
      match float_of_str s with
      | Some f => Ok f
      | None => Raise ValueError
      end
  end.

End Py.
Export Py.

(* ===================================================================== *)
(** * Data model                                                          *)
(* ===================================================================== *)

(** A market as nested in an event of the [/events] response. The fields
    are the dictionary keys the pipeline reads. *)
Module MarketJson.
Record t : Type := mk {
  status : option string;
  yes_bid_dollars : option pyval;
  volume_24h : option Z;          (* [None]: missing or null *)
  yes_sub_title : option string;
  ticker : option string
}.
End MarketJson.

Module EventJson.
Record t : Type := mk {
  event_ticker : option string;
  title : option string;
  category : option string;
  series_ticker : option string;
  markets : option (list MarketJson.t)
}.
End EventJson.

(** [@dataclass MarketOption] *)
Module MarketOption.
Record t : Type := mk {
  name : string;
  probability : Z;
  volume_24h : Z;
  ticker : string;
  price_change_24h : Z;
  series_ticker : string
}.

(** [option.price_change_24h = change] *)
Definition set_price_change_24h (o : t) (change : Z) : t :=
  mk (name o) (probability o) (volume_24h o) (ticker o) change (series_ticker o).
End MarketOption.

(** [@dataclass EventData] *)
Module EventData.
Record t : Type := mk {
  event_ticker : string;
  title : string;
  category : string;
  options : list MarketOption.t;
  total_volume : Z;
  num_markets : Z;
  max_price_change : Z;
  series_ticker : string
}.

(** The loop over [event_data.options] updates the options in place, then
    [event_data.max_price_change = max_change]. *)
Definition set_enriched (e : t) (opts : list MarketOption.t) (max_change : Z) : t :=
  mk (event_ticker e) (title e) (category e) opts (total_volume e)
     (num_markets e) max_change (series_ticker e).
End EventData.

(** The candlestick response of [/series/../markets/../candlesticks]. *)
Module Candle.
Record prices : Type := mk_prices {
  open : option Z;       (* [None]: missing or null *)
  close : option Z;
  previous : option Z
}.

(** The ["price"] entry of a candlestick: missing, a dictionary, or a value
    that is no dictionary (null, say), on which [price.get] raises. *)
Inductive price_entry : Type :=
  | PriceMissing
  | PriceDict (p : prices)
  | PriceNotDict.

Record t : Type := mk { price : price_entry }.

Record response : Type := mk_response { candlesticks : option (list t) }.
End Candle.

(** ** The network

    A candlestick request names a series and a market. [_make_request]
    answers with the decoded JSON or raises; what it answers may depend on
    the requests made before. *)
Definition request : Type := string * string.
Definition log : Type := list request.
Definition candle_api : Type := log -> request -> result Candle.response.

(* ===================================================================== *)
(** * Fixed tables                                                        *)
(* ===================================================================== *)

Definition CATEGORY_MAPPING : gmap string (list string) :=
  list_to_map [
    ("economics", ["financials"; "economics"]);
    ("crypto", ["financials"]);
    ("politics", ["politics"; "elections"]);
    ("elections", ["elections"]);
    ("financials", ["financials"]);
    ("sports", ["sports"]);
    ("entertainment", ["entertainment"]);
    ("climate", ["climate and weather"]);
    ("weather", ["climate and weather"]);
    ("health", ["health"]);
    ("science", ["science and technology"]);
    ("technology", ["science and technology"]);
    ("world", ["world"]);
    ("companies", ["companies"]);
    ("social", ["social"]);
    ("transportation", ["transportation"])
  ].

Definition CRYPTO_KEYWORDS : list string := [
  "bitcoin"; "btc"; "ethereum"; "eth"; "crypto"; "cryptocurrency";
  "solana"; "sol"; "dogecoin"; "doge"; "xrp"; "ripple"; "cardano";
  "ada"; "polkadot"; "dot"; "avalanche"; "avax"; "chainlink"; "link";
  "polygon"; "matic"; "litecoin"; "ltc"; "uniswap"; "uni"; "shiba";
  "pepe"; "memecoin"; "altcoin"; "defi"; "nft"; "web3"; "binance";
  "coinbase"; "stablecoin"; "usdt"; "usdc"
].

(* ===================================================================== *)
(** * [get_price_change_24h] and [get_market_candlesticks]                *)
(* ===================================================================== *)

(** [try: return self._make_request(..) except Exception: return
    {"candlesticks": []}]; the request is recorded. *)
Definition get_market_candlesticks (api : candle_api) (lg : log)
    (series_ticker market_ticker : string) : Candle.response * log :=
  let rq := (series_ticker, market_ticker) in
  match api lg rq with
  | Ok data => (data, (lg ++ [rq])%list)
  | Raise _ => (Candle.mk_response (Some []), (lg ++ [rq])%list)
  end.

(** [x.get(k, 0) or 0] on an integer field. *)
Definition or0 (v : option Z) : Z := default 0 v.

(** The part of [get_price_change_24h] after the lookup. *)
Definition price_change_of (data : Candle.response) : result Z :=
  match last (default [] (Candle.candlesticks data)) with
  | Some candle =>
      match Candle.price candle with
      | Candle.PriceNotDict => Raise AttributeError
      | pe =>
          let p := match pe with
                   | Candle.PriceDict p => p
                   | _ => Candle.mk_prices None None None
                   end in
          let open_price := or0 (Candle.open p) in
          let close_price := or0 (Candle.close p) in
          let previous_price := or0 (Candle.previous p) in
          if negb (previous_price =? 0) then Ok (close_price - previous_price)
          else if negb (open_price =? 0) then Ok (close_price - open_price)
          else Ok 0
      end
  | None => Ok 0
  end.

Definition get_price_change_24h (api : candle_api) (lg : log)
    (series_ticker market_ticker : string) : result Z * log :=
  let '(data, lg') := get_market_candlesticks api lg series_ticker market_ticker in
  (price_change_of data, lg').

(* ===================================================================== *)
(** * [get_top_events_by_category]                                        *)
(* ===================================================================== *)

(** ** Steps 2 and 3, first half: which events belong to the category *)

Definition target_categories_of (category_lower : string) : list string :=
  default [category_lower] (CATEGORY_MAPPING !! category_lower).

Definition category_matches (target_categories : list string)
    (event_category : string) : bool :=
  any (fun target => str_in (lower target) event_category
                     || str_in event_category (lower target))
      target_categories.

Definition is_crypto (event_title : string) : bool :=
  any (fun keyword => str_in keyword event_title) CRYPTO_KEYWORDS.

Definition matches (category : string) (event : EventJson.t) : bool :=
  let category_lower := lower category in
  let target_categories := target_categories_of category_lower in
  let event_category := lower (default "" (EventJson.category event)) in
  let event_title := lower (default "" (EventJson.title event)) in
  let cm := category_matches target_categories event_category in
  if String.eqb category_lower "crypto" then cm && is_crypto event_title
  else if String.eqb category_lower "economics" then cm && negb (is_crypto event_title)
  else cm.

(** ** Step 3, second half: one [EventData] for an event *)

Definition active_markets_of (event : EventJson.t) : list MarketJson.t :=
  List.filter
    (fun m => match MarketJson.status m with
              | Some st => String.eqb st "active"
              | None => false
              end)
    (default [] (EventJson.markets event)).

(** [try: probability = int(float(yes_price) * 100)
     except (ValueError, TypeError): probability = 0] *)
Definition probability_of (yes_price : pyval) : result Z :=
  match bind (py_float yes_price) (fun f => py_int (fmul f hundred)) with
  | Raise ValueError | Raise TypeError => Ok 0
  | r => r
  end.

Definition yes_price_of (market : MarketJson.t) : pyval :=
  default (PyStr "0") (MarketJson.yes_bid_dollars market).

(** The loop [for market in active_markets], with its two accumulators. *)
Fixpoint options_loop (series_ticker : string) (active_markets : list MarketJson.t)
    (options : list MarketOption.t) (total_volume : Z)
    : result (list MarketOption.t * Z) :=
  match active_markets with
  | [] => Ok (options, total_volume)
  | market :: rest =>
      bind (probability_of (yes_price_of market)) (fun probability =>
        let volume := or0 (MarketJson.volume_24h market) in
        options_loop series_ticker rest
          (options ++ [MarketOption.mk
                         (default "Unknown" (MarketJson.yes_sub_title market))
                         probability
                         volume
                         (default "" (MarketJson.ticker market))
                         0
                         series_ticker])%list
          (total_volume + volume))
  end.

(** The body of the loop over events: [None] is [continue]. *)
Definition build_event (category : string) (event : EventJson.t)
    : result (option EventData.t) :=
  if negb (matches category event) then Ok None
  else
    let active_markets := active_markets_of event in
    match active_markets with
    | [] => Ok None
    | _ :: _ =>
        let series_ticker := default "" (EventJson.series_ticker event) in
        bind (options_loop series_ticker active_markets [] 0) (fun '(options, total_volume) =>
          let options := sort_desc MarketOption.probability options in
          Ok (Some (EventData.mk
                      (default "" (EventJson.event_ticker event))
                      (default "" (EventJson.title event))
                      (default "" (EventJson.category event))
                      options
                      total_volume
                      (Z.of_nat (length options))
                      0
                      series_ticker)))
    end.

(** Step 3: the events of the category, in upstream order. *)
Fixpoint aggregate_loop (category : string) (events : list EventJson.t)
    (all_events : list EventData.t) : result (list EventData.t) :=
  match events with
  | [] => Ok all_events
  | event :: rest =>
      bind (build_event category event) (fun r =>
        match r with
        | None => aggregate_loop category rest all_events
        | Some event_data => aggregate_loop category rest (all_events ++ [event_data])%list
        end)
  end.

Definition aggregate (category : string) (events : list EventJson.t)
    : result (list EventData.t) :=
  aggregate_loop category events [].

(** ** Step 4, branch [price_change]: the lookups *)

(** [if abs(change) > abs(max_change): max_change = change] *)
Definition keep_larger (max_change change : Z) : Z :=
  if Z.abs max_change <? Z.abs change then change else max_change.

(** One turn of [for option in event_data.options]. *)
Definition enrich_option (api : candle_api) (lg : log) (max_change : Z)
    (option : MarketOption.t) : log * Z * MarketOption.t :=
  if str_truthy (MarketOption.series_ticker option)
     && str_truthy (MarketOption.ticker option)
  then
    match get_price_change_24h api lg (MarketOption.series_ticker option)
                                      (MarketOption.ticker option) with
    | (Ok change, lg') =>
        (lg',
         keep_larger max_change change,
         MarketOption.set_price_change_24h option change)
    | (Raise _, lg') => (lg', max_change, option)
    end
  else (lg, max_change, option).

Fixpoint enrich_options (api : candle_api) (lg : log) (max_change : Z)
    (options : list MarketOption.t) : log * Z * list MarketOption.t :=
  match options with
  | [] => (lg, max_change, [])
  | option :: rest =>
      let '(lg1, max_change1, option1) := enrich_option api lg max_change option in
      let '(lg2, max_change2, rest2) := enrich_options api lg1 max_change1 rest in
      (lg2, max_change2, option1 :: rest2)
  end.

Definition enrich_event (api : candle_api) (lg : log) (event_data : EventData.t)
    : log * EventData.t :=
  let '(lg', max_change, options) :=
    enrich_options api lg 0 (EventData.options event_data) in
  (lg', EventData.set_enriched event_data options max_change).

Fixpoint enrich_events (api : candle_api) (lg : log) (all_events : list EventData.t)
    : log * list EventData.t :=
  match all_events with
  | [] => (lg, [])
  | event_data :: rest =>
      let '(lg1, event_data1) := enrich_event api lg event_data in
      let '(lg2, rest2) := enrich_events api lg1 rest in
      (lg2, event_data1 :: rest2)
  end.

(** ** Step 4: sort by the criterion; step 5: keep the first [top_n] *)

Definition abs_max_price_change (e : EventData.t) : Z :=
  Z.abs (EventData.max_price_change e).

Definition sort_events (api : candle_api) (sort_by : string) (lg : log)
    (all_events : list EventData.t) : log * list EventData.t :=
  if String.eqb sort_by "volume" then
    (lg, sort_desc EventData.total_volume all_events)
  else if String.eqb sort_by "num_markets" then
    (lg, sort_desc EventData.num_markets all_events)
  else if String.eqb sort_by "price_change" then
    let '(lg', enriched) := enrich_events api lg all_events in
    (lg', sort_desc abs_max_price_change enriched)
  else (lg, all_events).

(** The ordering of step 4 by itself, the [all_events.sort(..)] of each
    branch (lines 750, 752 and 774): in the branch [price_change] it comes
    after the loop of the lookups. *)
Definition order_events (sort_by : string) (all_events : list EventData.t)
    : list EventData.t :=
  if String.eqb sort_by "volume" then sort_desc EventData.total_volume all_events
  else if String.eqb sort_by "num_markets" then sort_desc EventData.num_markets all_events
  else if String.eqb sort_by "price_change" then sort_desc abs_max_price_change all_events
  else all_events.

(** Steps 4 and 5 on the events step 3 built. *)
Definition rank (api : candle_api) (sort_by : string) (top_n : Z) (lg : log)
    (all_events : list EventData.t) : log * list EventData.t :=
  let '(lg', sorted) := sort_events api sort_by lg all_events in
  (lg', slice_to top_n sorted).

(** The whole method. [events_response] is what [self.get_events(..)] gives:
    the decoded response, whose ["events"] key may be missing, or the
    exception it raises. *)
Definition get_top_events_by_category (api : candle_api)
    (events_response : result (option (list EventJson.t)))
    (category : string) (top_n : Z) (sort_by : string) (lg : log)
    : log * result (list EventData.t) :=
  match events_response with
  | Raise e => (lg, Raise e)
  | Ok response =>
      let events := default [] response in
      match aggregate category events with
      | Raise e => (lg, Raise e)
      | Ok all_events =>
          let '(lg', top) := rank api sort_by top_n lg all_events in
          (lg', Ok top)
      end
  end.

(* ===================================================================== *)
(** * Vocabulary of the statements                                        *)
(* ===================================================================== *)

(** The option is looked up: [option.series_ticker and option.ticker]. *)
Definition has_tickers (o : MarketOption.t) : bool :=
  str_truthy (MarketOption.series_ticker o) && str_truthy (MarketOption.ticker o).

Definition request_of (o : MarketOption.t) : request :=
  (MarketOption.series_ticker o, MarketOption.ticker o).

(** The requests the enrichment of these options makes, in order. *)
Definition requests_of (options : list MarketOption.t) : log :=
  List.map request_of (List.filter has_tickers options).

Definition requests_of_events (events : list EventData.t) : log :=
  List.concat (List.map (fun e => requests_of (EventData.options e)) events).

(** What the lookup of one option gives, made after the requests [lg]. *)
Definition lookup (api : candle_api) (lg : log) (o : MarketOption.t) : result Z :=
  fst (get_price_change_24h api lg (MarketOption.series_ticker o) (MarketOption.ticker o)).

(** An option after its turn in the enrichment loop. *)
Definition enriched_option (api : candle_api) (lg : log) (o : MarketOption.t)
    : MarketOption.t :=
  if has_tickers o then
    match lookup api lg o with
    | Ok change => MarketOption.set_price_change_24h o change
    | Raise _ => o
    end
  else o.

(** [m] is the first of [changes] among those of largest absolute value. *)
Definition first_largest_abs (m : Z) (changes : list Z) : Prop :=
  exists i : nat,
    nth_error changes i = Some m /\
    (forall c, In c changes -> Z.abs c <= Z.abs m) /\
    (forall j c, (j < i)%nat -> nth_error changes j = Some c -> Z.abs c < Z.abs m).

Definition descending {A : Type} (key : A -> Z) (l : list A) : Prop :=
  StronglySorted (fun a b => key b <= key a) l.

(** [x] comes before [y] in [l]. *)
Definition precedes {A : Type} (x y : A) (l : list A) : Prop :=
  exists l1 l2 l3, l = l1 ++ x :: l2 ++ y :: l3.

(** The elements of [l] whose key is [k], in the order of [l]. *)
Definition with_key {A : Type} (key : A -> Z) (k : Z) (l : list A) : list A :=
  List.filter (fun a => key a =? k) l.

(** The option a market gives rise to, but for its probability. *)
Definition option_of_market (series_ticker : string) (market : MarketJson.t)
    (o : MarketOption.t) : Prop :=
  MarketOption.name o = default "Unknown" (MarketJson.yes_sub_title market) /\
  probability_of (yes_price_of market) = Ok (MarketOption.probability o) /\
  MarketOption.volume_24h o = or0 (MarketJson.volume_24h market) /\
  MarketOption.ticker o = default "" (MarketJson.ticker market) /\
  MarketOption.price_change_24h o = 0 /\
  MarketOption.series_ticker o = series_ticker.

(** The price change as the specification words it: a reference price
    exists when the field is present. *)
Definition price_change_as_specified (p : Candle.prices) : Z :=
  match Candle.previous p with
  | Some previous_price => or0 (Candle.close p) - previous_price
  | None =>
      match Candle.open p with
      | Some open_price => or0 (Candle.close p) - open_price
      | None => 0
      end
  end.

Definition clamp (lo hi x : Z) : Z := Z.max lo (Z.min hi x).

(** [sum(..)] of integers. *)
Definition sum_Z (l : list Z) : Z := fold_right Z.add 0 l.

Definition volumes (options : list MarketOption.t) : list Z :=
  List.map MarketOption.volume_24h options.

Definition changes (options : list MarketOption.t) : list Z :=
  List.map MarketOption.price_change_24h options.

(** The fields of an option the enrichment does not assign. *)
Definition option_frame (o o' : MarketOption.t) : Prop :=
  MarketOption.name o' = MarketOption.name o /\
  MarketOption.probability o' = MarketOption.probability o /\
  MarketOption.volume_24h o' = MarketOption.volume_24h o /\
  MarketOption.ticker o' = MarketOption.ticker o /\
  MarketOption.series_ticker o' = MarketOption.series_ticker o.

Definition event_frame (e e' : EventData.t) : Prop :=
  EventData.event_ticker e' = EventData.event_ticker e /\
  EventData.title e' = EventData.title e /\
  EventData.category e' = EventData.category e /\
  EventData.total_volume e' = EventData.total_volume e /\
  EventData.num_markets e' = EventData.num_markets e /\
  EventData.series_ticker e' = EventData.series_ticker e /\
  Forall2 option_frame (EventData.options e) (EventData.options e').

(** The lookup of an option fails: the request raises, or its answer is
    one on which [get_price_change_24h] raises. *)
Definition lookup_fails (api : candle_api) (lg : log) (o : MarketOption.t) : Prop :=
  (exists e, api lg (request_of o) = Raise e) \/ (exists e, lookup api lg o = Raise e).

(** No market of the event has status ["active"]. *)
Definition no_active_market (event : EventJson.t) : Prop :=
  Forall (fun m => MarketJson.status m <> Some "active")
         (default [] (EventJson.markets event)).

(** A shift register after [k] right shifts of [P]: the quotient, and
    round and sticky bits that are set only if the shifts dropped a one. *)
Definition shifted (P k : Z) (mrs : shr_record) : Prop :=
  shr_m mrs = P / 2 ^ k /\
  (shr_r mrs || shr_s mrs = true -> P mod 2 ^ k <> 0).

(** The hundredfold of the exact value of a binary64, rounded down. *)
Definition floor_percent (f : spec_float) : Z :=
  match f with
  | S754_finite s m e =>
      let sm := if s then Z.neg m else Z.pos m in
      if 0 <=? e then 100 * sm * 2 ^ e else 100 * sm / 2 ^ (- e)
  | _ => 0
  end.

(* ===================================================================== *)
(** * More Python built-ins: integers and text                            *)
(* ===================================================================== *)

Module PyText.

(** ** [str(n)] for an integer *)

Definition digit_char (d : Z) : ascii := ascii_of_nat (48 + Z.to_nat d).

(** The decimal digits of [n], most significant first, put before [acc].
    [fuel] bounds the number of digits. *)
Fixpoint digits_of (fuel : nat) (n : Z) (acc : list ascii) : list ascii :=
  match fuel with
  | O => acc
  | S fuel' =>
      let acc' := digit_char (n mod 10) :: acc in
      if n <? 10 then acc' else digits_of fuel' (n / 10) acc'
  end.

Definition decimal (n : Z) : list ascii :=
  digits_of (S (Z.to_nat (Z.log2 n))) n [].

Definition str_of_Z (z : Z) : string :=
  string_of_list_ascii (if z <? 0 then "-"%char :: decimal (- z) else decimal z).

(** ** [int(s)] for a string, in base 10

    Surrounding white space is dropped; then an optional sign and a run of
    digits in which single underscores may separate digits. The limit the
    interpreter can be configured to put on the number of digits of the
    conversions between [int] and [str] is not part of this. *)
Definition int_of_str (s : string) : option Z :=
  let l := strip (list_ascii_of_string s) in
  let '(neg, body) :=
    match l with
    | c :: r => if Ascii.eqb c "-" then (true, r)
                else if Ascii.eqb c "+" then (false, r) else (false, l)
    | [] => (false, l)
    end in
  match read_digits body 0 0 with
  | (v, cnt, []) => if 0 <? cnt then Some (if neg then - v else v) else None
  | (_, _, _ :: _) => None
  end.

(** [int(v)] on a value decoded from JSON. *)
Definition py_int_of (v : pyval) : result Z :=
  match v with
  | PyNone | PyList | PyDict => Raise TypeError
  | PyBool b => Ok (if b then 1 else 0)
  | PyInt z => Ok z
  | PyFloat f => py_int f
  | PyStr s =>
      match int_of_str s with
      | Some z => Ok z
      | None => Raise ValueError
      end
  end.

(** ** [s.replace(c, "\\" + c)], [s.split(c)] for a one-character [c] *)

Definition backslash : ascii := ascii_of_nat 92.

Fixpoint replace_escaped (c : ascii) (s : string) : string :=
  match s with
  | EmptyString => EmptyString
  | String a s' =>
      if Ascii.eqb a c then String backslash (String a (replace_escaped c s'))
      else String a (replace_escaped c s')
  end.

Fixpoint split_on (sep : ascii) (s : string) : list string :=
  match s with
  | EmptyString => [EmptyString]
  | String a s' =>
      if Ascii.eqb a sep then EmptyString :: split_on sep s'
      else match split_on sep s' with
           | h :: t => String a h :: t
           | [] => [String a EmptyString]
           end
  end.

(** ** [sorted(l)] for strings

    Strings compare by code point, which for UTF-8 text is the order of
    their bytes. The sort is stable; insertion from the right moves an
    element past the strictly smaller ones only. *)
Fixpoint insert_str (x : string) (l : list string) : list string :=
  match l with
  | [] => [x]
  | y :: l' => if String.ltb y x then y :: insert_str x l' else x :: y :: l'
  end.

Fixpoint sorted_str (l : list string) : list string :=
  match l with
  | [] => []
  | x :: l' => insert_str x (sorted_str l')
  end.

End PyText.
Export PyText.

(* ===================================================================== *)
(** * More of [kalshi_client.py]                                          *)
(* ===================================================================== *)

(** [EventData.get_top_options]:
    [sorted(self.options, key=lambda x: x.probability, reverse=True)[:n]] *)
Definition get_top_options (e : EventData.t) (n : Z) : list MarketOption.t :=
  slice_to n (sort_desc MarketOption.probability (EventData.options e)).

(** [@dataclass MarketData] and its [probability_pct] and [sentiment]. *)
Module MarketData.
Record t : Type := mk {
  ticker : string;
  event_ticker : string;
  event_title : string;
  title : string;
  yes_sub_title : string;
  no_sub_title : string;
  yes_price : spec_float;
  yes_ask : spec_float;
  last_price : spec_float;
  previous_price : spec_float;
  volume_24h : Z;
  open_interest : Z;
  status : string;
  category : string
}.

(** [int(self.yes_price * 100)] *)
Definition probability_pct (m : t) : result Z := py_int (fmul (yes_price m) hundred).

Definition sentiment (m : t) : result string :=
  bind (probability_pct m) (fun prob =>
    Ok (if 80 <=? prob then "Very Likely"
        else if 60 <=? prob then "Likely"
        else if 40 <=? prob then "Uncertain"
        else if 20 <=? prob then "Unlikely"
        else "Very Unlikely")).
End MarketData.

(** A market of the [/events] response with all the keys [_parse_market]
    reads. For a key, [None] is a missing key; a price or a count is any
    value JSON can hold, [Some PyNone] being a null. *)
Module MarketDict.
Record t : Type := mk {
  ticker : option string;
  event_ticker : option string;
  title : option string;
  yes_sub_title : option string;
  no_sub_title : option string;
  yes_bid_dollars : option pyval;
  yes_ask_dollars : option pyval;
  last_price_dollars : option pyval;
  previous_price_dollars : option pyval;
  volume_24h : option pyval;
  open_interest : option pyval;
  status : option string
}.

(** The market as [MarketJson] holds it, with the keys the events pipeline
    reads. A volume there is an integer, missing or null: a volume of
    another kind has no counterpart and is left out, and the statements that
    compare the volumes of the two pipelines assume there is none. *)
Definition to_json (m : t) : MarketJson.t :=
  MarketJson.mk (status m) (yes_bid_dollars m)
                (match volume_24h m with Some (PyInt z) => Some z | _ => None end)
                (yes_sub_title m) (ticker m).
End MarketDict.

Module EventDict.
Record t : Type := mk {
  event_ticker : option string;
  title : option string;
  category : option string;
  series_ticker : option string;
  markets : option (list MarketDict.t)
}.

Definition to_json (e : t) : EventJson.t :=
  EventJson.mk (event_ticker e) (title e) (category e) (series_ticker e)
               (option_map (List.map MarketDict.to_json) (markets e)).
End EventDict.

(** ** [_parse_market] *)

(** [safe_float(value)], with its default [0.0]. *)
Definition safe_float (value : pyval) : result spec_float :=
  match value with
  | PyNone => Ok fzero
  | _ =>
      match py_float value with
      | Raise ValueError | Raise TypeError => Ok fzero
      | r => r
      end
  end.

(** [safe_int(value)], with its default [0]. *)
Definition safe_int (value : pyval) : result Z :=
  match value with
  | PyNone => Ok 0
  | _ =>
      match py_int_of value with
      | Raise ValueError | Raise TypeError => Ok 0
      | r => r
      end
  end.

(** [market_data.get(key)]: [None] for a missing key. *)
Definition get_or_none (v : option pyval) : pyval := default PyNone v.

Definition _parse_market (market_data : MarketDict.t) (event_title category : string)
    : result MarketData.t :=
  bind (safe_float (get_or_none (MarketDict.yes_bid_dollars market_data))) (fun yes_price =>
  bind (safe_float (get_or_none (MarketDict.yes_ask_dollars market_data))) (fun yes_ask =>
  bind (safe_float (get_or_none (MarketDict.last_price_dollars market_data))) (fun last_price =>
  bind (safe_float (get_or_none (MarketDict.previous_price_dollars market_data))) (fun previous_price =>
  bind (safe_int (get_or_none (MarketDict.volume_24h market_data))) (fun volume_24h =>
  bind (safe_int (get_or_none (MarketDict.open_interest market_data))) (fun open_interest =>
    Ok (MarketData.mk
          (default "" (MarketDict.ticker market_data))
          (default "" (MarketDict.event_ticker market_data))
          event_title
          (default "" (MarketDict.title market_data))
          (default "" (MarketDict.yes_sub_title market_data))
          (default "" (MarketDict.no_sub_title market_data))
          yes_price yes_ask last_price previous_price
          volume_24h open_interest
          (default "" (MarketDict.status market_data))
          category))))))).

(** ** [get_top_markets_by_category] *)

(** A market with the title and the category of its event. *)
Record market_ctx : Type := mk_ctx {
  ctx_market : MarketDict.t;
  ctx_event_title : string;
  ctx_category : string
}.

Definition is_active (m : MarketDict.t) : bool :=
  match MarketDict.status m with
  | Some st => String.eqb st "active"
  | None => false
  end.

(** Step 3: the active markets of the events of the category, in upstream
    order. The category test is the one of [get_top_events_by_category]. *)
Definition collect_markets (category : string) (events : list EventDict.t)
    : list market_ctx :=
  flat_map
    (fun event =>
       if matches category (EventDict.to_json event) then
         List.map (fun m => mk_ctx m (default "" (EventDict.title event))
                                     (default "" (EventDict.category event)))
                  (List.filter is_active (default [] (EventDict.markets event)))
       else [])
    events.

(** [m["market"].get(key, 0)] *)
Definition sort_key (v : option pyval) : pyval := default (PyInt 0) v.

(** What [<] accepts. Numbers compare with numbers, texts with texts and
    lists with lists; [None] and a dictionary compare with nothing, not
    even with themselves. *)
Inductive key_class : Type := NumberKey | TextKey | ListKey | NoOrder.

Definition class_of (v : pyval) : key_class :=
  match v with
  | PyBool _ | PyInt _ | PyFloat _ => NumberKey
  | PyStr _ => TextKey
  | PyList => ListKey
  | PyNone | PyDict => NoOrder
  end.

Definition same_class (c1 c2 : key_class) : bool :=
  match c1, c2 with
  | NumberKey, NumberKey | TextKey, TextKey | ListKey, ListKey => true
  | _, _ => false
  end.

(** The value of a key that is an integer; [True] is 1 and [False] is 0. *)
Definition int_key (v : pyval) : option Z :=
  match v with
  | PyInt z => Some z
  | PyBool b => Some (if b then 1 else 0)
  | _ => None
  end.

(** [l.sort(key=.., reverse=True)] on keys of any kind. A list of one
    element or none is left as it is, without a comparison. With two or
    more, every element is compared with another one, and elements of two
    classes meet in some comparison: a key without order, or keys of two
    classes, raise [TypeError]. Integer keys are sorted. The result is [None]
    where this development does not follow Python: keys that are numbers
    with a float among them, or all texts, or all lists. *)
Definition sort_desc_keys {A : Type} (key : A -> pyval) (l : list A)
    : option (result (list A)) :=
  match l with
  | [] | [_] => Some (Ok l)
  | a :: _ =>
      if existsb (fun x => match class_of (key x) with NoOrder => true | _ => false end) l
      then Some (Raise TypeError)
      else if negb (forallb (fun x => same_class (class_of (key x)) (class_of (key a))) l)
      then Some (Raise TypeError)
      else if forallb (fun x => match int_key (key x) with Some _ => true | None => false end) l
      then Some (Ok (sort_desc (fun x => default 0 (int_key (key x))) l))
      else None
  end.

(** The list comprehension of step 5: the first exception ends it. *)
Fixpoint parse_all (l : list market_ctx) : result (list MarketData.t) :=
  match l with
  | [] => Ok []
  | m :: rest =>
      bind (_parse_market (ctx_market m) (ctx_event_title m) (ctx_category m)) (fun md =>
      bind (parse_all rest) (fun mds => Ok (md :: mds)))
  end.

(** [None] where the sort is not followed (see [sort_desc_keys]). *)
Definition get_top_markets_by_category
    (events_response : result (option (list EventDict.t)))
    (category : string) (top_n : Z) (sort_by : string)
    : option (result (list MarketData.t)) :=
  match events_response with
  | Raise e => Some (Raise e)
  | Ok response =>
      let events := default [] response in
      let all_markets := collect_markets category events in
      let sorted :=
        if String.eqb sort_by "volume" then
          sort_desc_keys (fun m => sort_key (MarketDict.volume_24h (ctx_market m))) all_markets
        else if String.eqb sort_by "open_interest" then
          sort_desc_keys (fun m => sort_key (MarketDict.open_interest (ctx_market m)))
                         all_markets
        else Some (Ok all_markets) in
      option_map (fun r => bind r (fun all_markets => parse_all (slice_to top_n all_markets)))
                 sorted
  end.

(** ** [get_all_categories] *)

(** The loop that fills the set. *)
Definition add_category (categories : gset string) (event : EventJson.t) : gset string :=
  let category := default "" (EventJson.category event) in
  if str_truthy category then {[ category ]} ∪ categories else categories.

(** [sorted(list(categories))] *)
Definition get_all_categories (events : list EventJson.t) : list string :=
  sorted_str (elements (fold_left add_category events ∅)).

(** ** Vocabulary of the statements about markets *)

(** [float(v)] overflows: [v] is an integer beyond the range of a float. *)
Definition overflows (v : option pyval) : bool :=
  match v with
  | Some (PyInt z) =>
      match float_of_Z z with
      | S754_infinity _ => true
      | _ => false
      end
  | _ => false
  end.

Definition price_overflows (m : MarketDict.t) : bool :=
  overflows (MarketDict.yes_bid_dollars m) || overflows (MarketDict.yes_ask_dollars m)
  || overflows (MarketDict.last_price_dollars m)
  || overflows (MarketDict.previous_price_dollars m).

(** [int(v)] overflows: [v] is an infinite float. *)
Definition infinite (v : option pyval) : bool :=
  match v with
  | Some (PyFloat (S754_infinity _)) => true
  | _ => false
  end.

Definition count_overflows (m : MarketDict.t) : bool :=
  infinite (MarketDict.volume_24h m) || infinite (MarketDict.open_interest m).

(** The number a price field stands for, [0.0] when it stands for none. *)
Definition price_or_zero (v : option pyval) : spec_float :=
  match v with
  | Some value => match py_float value with Ok f => f | Raise _ => fzero end
  | None => fzero
  end.

(** The integer a count field stands for, [0] when it stands for none. *)
Definition count_or_zero (v : option pyval) : Z :=
  match v with
  | Some value => match py_int_of value with Ok z => z | Raise _ => 0 end
  | None => 0
  end.

(** The volume is an integer, null or missing, as [MarketJson] has it. *)
Definition integer_volume (m : MarketDict.t) : Prop :=
  match MarketDict.volume_24h m with
  | None | Some PyNone | Some (PyInt _) => True
  | Some _ => False
  end.

(** The [MarketData] of a market on which [_parse_market] does not fail. *)
Definition parsed (c : market_ctx) : MarketData.t :=
  let m := ctx_market c in
  MarketData.mk
    (default "" (MarketDict.ticker m))
    (default "" (MarketDict.event_ticker m))
    (ctx_event_title c)
    (default "" (MarketDict.title m))
    (default "" (MarketDict.yes_sub_title m))
    (default "" (MarketDict.no_sub_title m))
    (price_or_zero (MarketDict.yes_bid_dollars m))
    (price_or_zero (MarketDict.yes_ask_dollars m))
    (price_or_zero (MarketDict.last_price_dollars m))
    (price_or_zero (MarketDict.previous_price_dollars m))
    (count_or_zero (MarketDict.volume_24h m))
    (count_or_zero (MarketDict.open_interest m))
    (default "" (MarketDict.status m))
    (ctx_category c).

(** The market comes from an event of the category. *)
Definition from_category (category : string) (events : list EventDict.t)
    (c : market_ctx) : Prop :=
  exists event,
    In event events /\
    matches category (EventDict.to_json event) = true /\
    In (ctx_market c) (default [] (EventDict.markets event)) /\
    ctx_event_title c = default "" (EventDict.title event) /\
    ctx_category c = default "" (EventDict.category event).

(** The five bands of [sentiment]. *)
Definition in_band (label : string) (p : Z) : Prop :=
  (label = "Very Likely" /\ 80 <= p) \/
  (label = "Likely" /\ 60 <= p < 80) \/
  (label = "Uncertain" /\ 40 <= p < 60) \/
  (label = "Unlikely" /\ 20 <= p < 40) \/
  (label = "Very Unlikely" /\ p < 20).

(* ===================================================================== *)
(** * [telegram_bot.py]: escaping, hours and the subscriptions            *)
(* ===================================================================== *)

Module Bot.

Definition DEFAULT_UPDATE_HOUR : Z := 8.
Definition MAX_OPTIONS_PER_EVENT : Z := 4.

(** ** [escape_markdown] *)

Definition special_chars : list ascii :=
  ["_"; "*"; "["; "]"; "("; ")"; "~"; "`"; ">"; "#"; "+"; "-"; "="; "|";
   "{"; "}"; "."; "!"]%char.

(** [for char in special_chars: text = text.replace(char, f'\\{char}')] *)
Definition escape_markdown (text : string) : string :=
  fold_left (fun t char => replace_escaped char t) special_chars text.

(** ** [format_hour_display] *)

Definition format_hour_display (hour : Z) : string :=
  if hour =? 0 then "12:00 AM"
  else if hour <? 12 then String.append (str_of_Z hour) ":00 AM"
  else if hour =? 12 then "12:00 PM"
  else String.append (str_of_Z (hour - 12)) ":00 PM".

(** ** The subscriptions: a dictionary from [str(chat_id)] to the data of
    the chat, in insertion order *)

(** The data of a chat: [{"hour": h}], or a dictionary without that key. *)
Record chat_data : Type := mk_chat { hour : option Z }.

Definition store : Type := list (string * chat_data).

(** [d.get(k)], [d[k] = v] and [del d[k]] on a dictionary. *)
Fixpoint dict_get (k : string) (d : store) : option chat_data :=
  match d with
  | [] => None
  | (k', v) :: d' => if String.eqb k' k then Some v else dict_get k d'
  end.

Fixpoint dict_set (k : string) (v : chat_data) (d : store) : store :=
  match d with
  | [] => [(k, v)]
  | (k', v') :: d' =>
      if String.eqb k' k then (k', v) :: d' else (k', v') :: dict_set k v d'
  end.

Fixpoint dict_del (k : string) (d : store) : store :=
  match d with
  | [] => []
  | (k', v') :: d' =>
      if String.eqb k' k then d' else (k', v') :: dict_del k d'
  end.

(** [int(chat_id)] on a key. *)
Definition int_of_key (k : string) : result Z :=
  match int_of_str k with
  | Some z => Ok z
  | None => Raise ValueError
  end.

(** [[int(chat_id) for chat_id, data in subscribed_chats.items()
      if data.get("hour") == hour]] *)
Fixpoint get_chats_for_hour (subscribed_chats : store) (h : Z) : result (list Z) :=
  match subscribed_chats with
  | [] => Ok []
  | (chat_id, data) :: rest =>
      if match hour data with Some h' => h' =? h | None => false end then
        bind (int_of_key chat_id) (fun id =>
        bind (get_chats_for_hour rest h) (fun ids => Ok (id :: ids)))
      else get_chats_for_hour rest h
  end.

(** [set(int(chat_id) for chat_id in subscribed_chats.keys())] *)
Fixpoint get_chat_ids (subscribed_chats : store) : result (gset Z) :=
  match subscribed_chats with
  | [] => Ok ∅
  | (chat_id, _) :: rest =>
      bind (int_of_key chat_id) (fun id =>
      bind (get_chat_ids rest) (fun ids => Ok ({[ id ]} ∪ ids)))
  end.

(** ** [load_subscriptions]

    What the file of the subscriptions is when the bot starts. The file
    may be missing; opening or reading it may fail ([IOError]); its bytes
    may not decode as text ([UnicodeDecodeError], a [ValueError] that is no
    [JSONDecodeError]); its text may be no JSON ([JSONDecodeError]).
    Otherwise it holds a JSON value: the old format (a list of chat ids,
    taken to be integers), the dictionary, or another value (a number, a string, [true], [false]
    or [null]), which has no [items]. *)
Inductive subscriptions_file : Type :=
  | NoFile
  | OpenFails
  | NotText
  | NotJson
  | OldFormat (chat_ids : list Z)
  | NewFormat (entries : store)
  | OtherJson.

(** A dictionary comprehension: later entries overwrite earlier ones. *)
Definition dict_of (entries : store) : store :=
  fold_left (fun d kv => dict_set (fst kv) (snd kv) d) entries [].

(** The handler catches [json.JSONDecodeError] and [IOError] only. *)
Definition load_subscriptions (f : subscriptions_file) : result store :=
  match f with
  | NoFile => Ok []
  | OpenFails | NotJson => Ok []
  | NotText => Raise ValueError
  | OldFormat chat_ids =>
      Ok (dict_of (List.map (fun chat_id =>
                               (str_of_Z chat_id, mk_chat (Some DEFAULT_UPDATE_HOUR)))
                            chat_ids))
  | NewFormat entries => Ok (dict_of entries)
  | OtherJson => Raise AttributeError
  end.

(** ** The handlers

    The state is the dictionary in memory and the one last written to the
    file; the write is taken to succeed. A reply is kept by its kind and the
    time it shows. *)
Record state : Type := mk_state {
  subscribed_chats : store;
  saved : store
}.

Definition button : Type := (string * string)%type.   (* label, callback data *)

Inductive reply : Type :=
  | AlreadySubscribed (time_display : string)
  | Subscribed (time_display : string)
  | NotSubscribed
  | Unsubscribed
  | SubscribeFirst
  | ChooseTime (keyboard : list (list button)) (current_time : string)
  | InvalidSelection
  | NoLongerSubscribed
  | TimeChanged (time_display : string).

(** [subscribed_chats[chat_id_str].get("hour", DEFAULT_UPDATE_HOUR)] *)
Definition hour_or_default (data : chat_data) : Z :=
  default DEFAULT_UPDATE_HOUR (hour data).

(** [save_subscriptions(subscribed_chats)] *)
Definition save (d : store) : state := mk_state d d.

Definition subscribe_command (chat_id : Z) (s : state) : state * reply :=
  let chat_id_str := str_of_Z chat_id in
  match dict_get chat_id_str (subscribed_chats s) with
  | Some data =>
      (s, AlreadySubscribed (escape_markdown (format_hour_display (hour_or_default data))))
  | None =>
      (save (dict_set chat_id_str (mk_chat (Some DEFAULT_UPDATE_HOUR)) (subscribed_chats s)),
       Subscribed (escape_markdown (format_hour_display DEFAULT_UPDATE_HOUR)))
  end.

Definition unsubscribe_command (chat_id : Z) (s : state) : state * reply :=
  let chat_id_str := str_of_Z chat_id in
  match dict_get chat_id_str (subscribed_chats s) with
  | None => (s, NotSubscribed)
  | Some _ => (save (dict_del chat_id_str (subscribed_chats s)), Unsubscribed)
  end.

(** The keyboard of [settime_command]: 6 rows of 4 buttons. *)
Definition keyboard : list (list button) :=
  List.map
    (fun row =>
       List.map
         (fun col =>
            let hour := Z.of_nat row * 4 + Z.of_nat col in
            (format_hour_display hour, String.append "settime_" (str_of_Z hour)))
         (seq 0 4))
    (seq 0 6).

Definition settime_command (chat_id : Z) (s : state) : state * reply :=
  let chat_id_str := str_of_Z chat_id in
  match dict_get chat_id_str (subscribed_chats s) with
  | None => (s, SubscribeFirst)
  | Some data =>
      (s, ChooseTime keyboard (escape_markdown (format_hour_display (hour_or_default data))))
  end.

(** [hour = int(query.data.split("_")[1])], then the range test; [None] is
    the [IndexError] or [ValueError] the handler catches. *)
Definition parse_hour (data : string) : option Z :=
  match nth_error (split_on "_" data) 1 with
  | Some field =>
      match int_of_str field with
      | Some hour => if (hour <? 0) || (23 <? hour) then None else Some hour
      | None => None
      end
  | None => None
  end.

Definition settime_callback (data : string) (chat_id : Z) (s : state) : state * reply :=
  let chat_id_str := str_of_Z chat_id in
  match parse_hour data with
  | None => (s, InvalidSelection)
  | Some hour =>
      match dict_get chat_id_str (subscribed_chats s) with
      | None => (s, NoLongerSubscribed)
      | Some _ =>
          (save (dict_set chat_id_str (mk_chat (Some hour)) (subscribed_chats s)),
           TimeChanged (escape_markdown (format_hour_display hour)))
      end
  end.

(** ** Vocabulary of the statements *)

(** One pass over the text that puts a backslash before the characters
    [p] holds of. *)
Fixpoint escape_with (p : ascii -> bool) (s : string) : string :=
  match s with
  | EmptyString => EmptyString
  | String a s' =>
      if p a then String backslash (String a (escape_with p s'))
      else String a (escape_with p s')
  end.

Definition is_special (a : ascii) : bool := existsb (Ascii.eqb a) special_chars.

(** The number of characters of [s] that [p] holds of. *)
Fixpoint count_chars (p : ascii -> bool) (s : string) : nat :=
  match s with
  | EmptyString => 0
  | String a s' => (if p a then 1 else 0) + count_chars p s'
  end.

(** The text reads as escaped text: a backslash escapes the character
    after it, and no character that [p] holds of stands unescaped. *)
Fixpoint well_escaped (p : ascii -> bool) (s : string) : bool :=
  match s with
  | EmptyString => true
  | String a s' =>
      if Ascii.eqb a backslash then
        match s' with
        | String _ s'' => well_escaped p s''
        | EmptyString => false
        end
      else negb (p a) && well_escaped p s'
  end.

Definition has_backslash (s : string) : bool :=
  existsb (fun a => Ascii.eqb a backslash) (list_ascii_of_string s).

(** The 12-hour clock: the hour shown and whether it is before noon. *)
Definition hour12 (h : Z) : Z := if h mod 12 =? 0 then 12 else h mod 12.

(** Every key is the [str] of a chat id, as the handlers write them. *)
Definition numeric_keys (d : store) : Prop :=
  Forall (fun kv => exists id, fst kv = str_of_Z id) d.

Definition keys (d : store) : list string := List.map fst d.

End Bot.

(** ** Sample markets of the [/events] response *)

Module SampleMarkets.

Definition market (ticker : string) (bid : option pyval) (volume : option pyval)
    (status : string) : MarketDict.t :=
  MarketDict.mk (Some ticker) (Some "EV") (Some "Title") (Some "Yes") (Some "No")
                bid (Some (PyStr "0.50")) None (Some PyNone)
                volume (Some (PyInt 7)) (Some status).

Definition event (category : string) (markets : list MarketDict.t) : EventDict.t :=
  EventDict.mk (Some "EV") (Some "Who wins?") (Some category) (Some "SER") (Some markets).

Definition politics : list EventDict.t :=
  [ event "Politics"
      [ market "A" (Some (PyStr "0.85")) (Some (PyInt 10)) "active";
        market "B" (Some (PyStr "n/a")) None "active";
        market "C" (Some (PyFloat fone)) (Some (PyInt 99)) "closed" ];
    event "Sports" [ market "D" None (Some (PyInt 500)) "active" ];
    event "Elections" [ market "E" (Some PyNone) (Some (PyInt 30)) "active" ] ].

Definition null_volume : list EventDict.t :=
  [ event "Politics"
      [ market "A" (Some (PyStr "0.85")) (Some (PyInt 10)) "active";
        market "B" (Some (PyStr "0.10")) (Some PyNone) "active" ] ].

End SampleMarkets.

(* ===================================================================== *)
(** * [telegram_bot.py]: the messages and the hourly job                  *)
(* ===================================================================== *)

Module BotMessages.
Import Bot.

(** A text given by its UTF-8 bytes. *)
Definition utf8 (bytes : list nat) : string :=
  string_of_list_ascii (List.map ascii_of_nat bytes).

Definition nl : string := utf8 [10%nat].

(** The decorations of the messages, as the bytes of the literals of the
    source. *)
Definition emoji_politics : string :=
  utf8 [239; 163; 191; 195; 188; 195; 168; 195; 181; 195; 148; 226; 136; 143; 195; 168]%nat.
Definition emoji_economics : string :=
  utf8 [239; 163; 191; 195; 188; 195; 173; 226; 136; 158]%nat.
Definition bullet : string := utf8 [226; 128; 154; 195; 132; 194; 162]%nat.
Definition chart : string := utf8 [239; 163; 191; 195; 188; 195; 172; 195; 164]%nat.

(** [f"{n:,}"]: the digits in groups of three from the right. [commas_rev]
    works on the digits in reverse; [k] counts the digits of the group. *)
Fixpoint commas_rev (digits : list ascii) (k : nat) : list ascii :=
  match digits with
  | [] => []
  | c :: rest =>
      match k with
      | 3%nat => ","%char :: c :: commas_rev rest 1
      | _ => c :: commas_rev rest (S k)
      end
  end.

Definition format_thousands (n : Z) : string :=
  let grouped := rev (commas_rev (rev (decimal (Z.abs n))) 0) in
  string_of_list_ascii (if n <? 0 then "-"%char :: grouped else grouped).

(** ["\n".join(lines)] *)
Fixpoint join_lines (lines : list string) : string :=
  match lines with
  | [] => ""
  | [line] => line
  | line :: rest => line +:+ nl +:+ join_lines rest
  end.

(** ** [format_event_message] *)

(** The line of one option. *)
Definition option_line (sort_type : string) (option : MarketOption.t) : string :=
  let option_name := escape_markdown (MarketOption.name option) in
  let change := MarketOption.price_change_24h option in
  if String.eqb sort_type "price_change" && negb (change =? 0) then
    let change_sign := if 0 <? change then "\+" else "\-" in
    let change_str := change_sign +:+ str_of_Z (Z.abs change) +:+ "%" in
    "  " +:+ bullet +:+ " " +:+ option_name +:+ ": "
         +:+ str_of_Z (MarketOption.probability option) +:+ "% \(" +:+ change_str +:+ "\)"
  else
    "  " +:+ bullet +:+ " " +:+ option_name +:+ ": "
         +:+ str_of_Z (MarketOption.probability option) +:+ "%".

(** The lines the body of the loop appends for the [i]-th event. *)
Definition event_lines (sort_type : string) (i : Z) (event : EventData.t) : list string :=
  let title := escape_markdown (EventData.title event) in
  let remaining := Z.of_nat (length (EventData.options event)) - MAX_OPTIONS_PER_EVENT in
  ["*" +:+ str_of_Z i +:+ "\. " +:+ title +:+ "*"]
  ++ List.map (option_line sort_type)
              (slice_to MAX_OPTIONS_PER_EVENT (EventData.options event))
  ++ (if 0 <? remaining
      then ["  _\.\.\.and " +:+ str_of_Z remaining +:+ " more options_"]
      else [])
  ++ ["  " +:+ chart +:+ " Vol: " +:+ format_thousands (EventData.total_volume event) +:+ nl].

(** [for i, event in enumerate(events, 1)] *)
Fixpoint events_loop (sort_type : string) (i : Z) (events : list EventData.t)
    (lines : list string) : list string :=
  match events with
  | [] => lines
  | event :: rest =>
      events_loop sort_type (i + 1) rest (lines ++ event_lines sort_type i event)
  end.

(** The list [lines] at the [return]. *)
Definition format_event_lines (events : list EventData.t) (category sort_type : string)
    : list string :=
  let emoji := if String.eqb category "Politics" then emoji_politics else emoji_economics in
  let sort_label := if String.eqb sort_type "volume" then "24h Volume" else "24h Movers" in
  let lines := [emoji +:+ " *Top " +:+ str_of_Z (Z.of_nat (length events)) +:+ " "
                      +:+ category +:+ "* \(by " +:+ sort_label +:+ "\)" +:+ nl] in
  match events with
  | [] => lines ++ ["_No events found\._"]
  | _ :: _ => events_loop sort_type 1 events lines
  end.

Definition format_event_message (events : list EventData.t) (category sort_type : string)
    : string :=
  join_lines (format_event_lines events category sort_type).

(** ** [format_full_update]

    [timestamp] is [datetime.now().strftime("%Y-%m-%d %H:%M")]. *)
Definition format_full_update (timestamp : string)
    (politics economics : list EventData.t) (sort_type : string) : string :=
  let escaped_timestamp := escape_markdown timestamp in
  let sort_label := if String.eqb sort_type "volume" then "24h Volume" else "Biggest Movers" in
  let header := chart +:+ " *Kalshi Markets Update*" +:+ nl +:+ "_" +:+ escaped_timestamp
                      +:+ "_ \| Sorted by " +:+ sort_label +:+ nl +:+ nl in
  let politics_section := format_event_message politics "Politics" sort_type in
  let economics_section := format_event_message economics "Economics" sort_type in
  header +:+ politics_section +:+ nl +:+ economics_section.

(** ** [send_hourly_update] *)

Definition TOP_N : Z := 5.

(** What the job reaches outside the process: the clock, the events API
    (one response for each of the two calls), the candle API, and
    [context.bot.send_message], which answers knowing the chats tried
    before. *)
Record world : Type := mk_world {
  current_hour : Z;
  timestamp : string;
  events_response : string -> result (option (list EventJson.t));
  candle_lookups : candle_api;
  send_message : list Z -> Z -> string -> result unit
}.

(** The loop over [chats_to_update]: the chats tried, and [failed_chats]. *)
Fixpoint send_loop (send : list Z -> Z -> string -> result unit) (full_message : string)
    (chats tried failed_chats : list Z) : list Z * list Z :=
  match chats with
  | [] => (tried, failed_chats)
  | chat_id :: rest =>
      match send tried chat_id full_message with
      | Ok _ => send_loop send full_message rest (tried ++ [chat_id]) failed_chats
      | Raise _ =>
          send_loop send full_message rest (tried ++ [chat_id]) (failed_chats ++ [chat_id])
      end
  end.

(** How a run ends: nothing to send, the update sent to the chats tried
    with the chats that failed, or the error the outer [except] logs. *)
Inductive outcome : Type :=
  | NoChats
  | Completed (full_message : string) (tried failed_chats : list Z)
  | Failed (e : exn).

Definition top_by_volume (w : world) (category : string) : result (list EventData.t) :=
  snd (get_top_events_by_category (candle_lookups w) (events_response w category)
                                  category TOP_N "volume" []).

(** [get_chats_for_hour] is called outside the [try]: what it raises, the
    job raises. *)
Definition send_hourly_update (w : world) (subscribed_chats : store) : result outcome :=
  bind (get_chats_for_hour subscribed_chats (current_hour w)) (fun chats_to_update =>
    match chats_to_update with
    | [] => Ok NoChats
    | _ :: _ =>
        match top_by_volume w "Politics" with
        | Raise e => Ok (Failed e)
        | Ok politics =>
            match top_by_volume w "Economics" with
            | Raise e => Ok (Failed e)
            | Ok economics =>
                let message := format_full_update (timestamp w) politics economics "volume" in
                let header := chart +:+ " *Daily Market Update*" +:+ nl +:+ nl in
                let full_message := header +:+ message in
                let '(tried, failed_chats) :=
                  send_loop (send_message w) full_message chats_to_update [] [] in
                Ok (Completed full_message tried failed_chats)
            end
        end
    end).

(** ** Vocabulary of the statements *)

(** The number of entries the loop appends to [lines] for an event. *)
Definition lines_of_event (event : EventData.t) : nat :=
  let n := length (EventData.options event) in
  (2 + Nat.min 4 n + (if (4 <? n)%nat then 1 else 0))%nat.

(** The number of line ends in a text. *)
Definition newlines (s : string) : nat :=
  count_chars (fun c => Ascii.eqb c (ascii_of_nat 10)) s.

(** The number of lines an event takes in a message: an empty line, its
    title, its options shown, the count of the others if any, and its
    volume. *)
Definition rows_of_event (event : EventData.t) : nat :=
  let n := length (EventData.options event) in
  (3 + Nat.min 4 n + (if (4 <? n)%nat then 1 else 0))%nat.

(** The title and the names of the options hold no line end. *)
Definition one_line_texts (event : EventData.t) : Prop :=
  newlines (EventData.title event) = 0%nat /\
  Forall (fun o => newlines (MarketOption.name o) = 0%nat) (EventData.options event).

Definition without_commas (s : string) : string :=
  string_of_list_ascii
    (List.filter (fun c => negb (Ascii.eqb c ","%char)) (list_ascii_of_string s)).

End BotMessages.

(** ** A run of the hourly job *)

Module SampleJob.
Import Bot BotMessages.

(** Three chats, two of them at 8; the events API has no event; the chat
    123 has blocked the bot. *)
Definition chats : store :=
  [("123", mk_chat (Some 8)); ("-456", mk_chat (Some 8)); ("789", mk_chat (Some 16))].

Definition at_eight : world :=
  mk_world 8 "2025-01-31 08:00"
           (fun _ => Ok (Some []))
           (fun _ _ => Raise RequestException)
           (fun _ chat_id _ => if chat_id =? 123 then Raise RequestException else Ok tt).

End SampleJob.

(* ===================================================================== *)
(** * Sample data                                                         *)
(* ===================================================================== *)

Module Sample.

Definition market (label : string) (bid : pyval) (volume : Z) (tick : string)
    : MarketJson.t :=
  MarketJson.mk (Some "active") (Some bid) (Some volume) (Some label) (Some tick).

Definition closed_market (label : string) : MarketJson.t :=
  MarketJson.mk (Some "closed") (Some (PyStr "0.5000")) (Some 10) (Some label) (Some "KX-C").

Definition event (tick ttl cat : string) (ms : list MarketJson.t) : EventJson.t :=
  EventJson.mk (Some tick) (Some ttl) (Some cat) (Some "KXS") (Some ms).

Definition bitcoin : EventJson.t :=
  event "KXBTC" "Will Bitcoin hit $100k?" "Financials"
        [market "Yes" (PyStr "0.4200") 700 "KXBTC-1"].

Definition fed : EventJson.t :=
  event "KXFED" "Will the Fed cut rates in March?" "Financials"
        [market "Cut" (PyStr "0.955") 500 "KXFED-1";
         market "Hold" (PyStr "1.0") 100 "KXFED-2";
         market "Hike" (PyStr "n/a") 300 "KXFED-3";
         MarketJson.mk (Some "active") None None None None].

Definition all_closed : EventJson.t :=
  event "KXOLD" "Will the Fed hike?" "Financials" [closed_market "Yes"; closed_market "No"].

Definition uncategorised : EventJson.t :=
  EventJson.mk (Some "KXNONE") (Some "Who wins the final?") None (Some "KXS")
               (Some [market "Home" (PyStr "0.5000") 5 "KXNONE-1"]).

(** A market whose bid is above one dollar. *)
Definition overpriced : EventJson.t :=
  event "KXOVER" "Will the Fed hold?" "Financials"
        [market "Yes" (PyStr "1.5") 10 "KXOVER-1"].

(** Two active markets, A and B. *)
Definition a_and_b : EventJson.t :=
  event "KXAB" "Will the Fed hold?" "Financials"
        [market "A" (PyStr "0.60") 10 "KX-A"; market "B" (PyStr "0.40") 20 "KX-B"].

Definition an_option (nm tick : string) (prob vol : Z) : MarketOption.t :=
  MarketOption.mk nm prob vol tick 0 "KXS".

Definition an_event (tick : string) (opts : list MarketOption.t) (vol : Z)
    : EventData.t :=
  EventData.mk tick tick "Financials" opts vol (Z.of_nat (length opts)) 0 "KXS".

Definition opt_a : MarketOption.t := an_option "A" "KX-A" 60 10.
Definition opt_b : MarketOption.t := an_option "B" "KX-B" 40 20.

Definition four_events : list EventData.t :=
  [an_event "E1" [opt_a] 500; an_event "E2" [opt_a] 100;
   an_event "E3" [opt_a] 300; an_event "E4" [opt_a] 900].

Definition candles (o c p : option Z) : Candle.response :=
  Candle.mk_response (Some [Candle.mk (Candle.PriceDict (Candle.mk_prices o c p))]).

(** The lookup fails for [KX-A]; [KX-B] closed at 57 after 50. *)
Definition api_a_fails : candle_api :=
  fun _ rq =>
    if String.eqb (snd rq) "KX-A" then Raise RequestException
    else Ok (candles (Some 52) (Some 57) (Some 50)).

(** A candle whose previous price is present and zero. *)
Definition zero_previous : Candle.response := candles (Some 40) (Some 50) (Some 0).

End Sample.

(* ===================================================================== *)
(** * Lists: the stable descending sort and the prefix                    *)
(* ===================================================================== *)

Lemma In_firstn {A : Type} (n : nat) (l : list A) (x : A) : In x (firstn n l) -> In x l.
Proof.
  revert n. induction l as [|y l IH]; intros [|n]; simpl; try tauto.
  intros [H|H]; [now left | right; eauto].
Qed.

Section SortDesc.
Context {A : Type} (key : A -> Z).

Lemma insert_desc_perm (x : A) (l : list A) :
  Permutation (insert_desc key x l) (x :: l).
Proof.
  induction l as [|y l IH]; simpl; [reflexivity|].
  destruct (key x <? key y); [|reflexivity].
  rewrite IH. apply perm_swap.
Qed.

Lemma sort_desc_perm (l : list A) : Permutation (sort_desc key l) l.
Proof.
  induction l as [|x l IH]; simpl; [reflexivity|].
  rewrite insert_desc_perm. now apply perm_skip.
Qed.

Lemma sort_desc_length (l : list A) : length (sort_desc key l) = length l.
Proof. apply Permutation_length, sort_desc_perm. Qed.

Lemma sort_desc_nil_inv (l : list A) : sort_desc key l = [] -> l = [].
Proof.
  intros H. apply (f_equal (@length A)) in H.
  rewrite sort_desc_length in H. now destruct l.
Qed.

Lemma insert_desc_sorted (x : A) (l : list A) :
  descending key l -> descending key (insert_desc key x l).
Proof.
  unfold descending. induction 1 as [|y l Hl IH Hy]; simpl.
  - repeat constructor.
  - destruct (Z.ltb_spec (key x) (key y)) as [Hlt|Hge].
    + constructor; [exact IH|].
      apply (Permutation_Forall (x := x :: l)).
      * symmetry. apply insert_desc_perm.
      * constructor; [lia | exact Hy].
    + constructor; [now constructor|].
      constructor; [lia|].
      eapply List.Forall_impl; [|exact Hy]. simpl. intros a Ha. lia.
Qed.

Lemma sort_desc_sorted (l : list A) : descending key (sort_desc key l).
Proof.
  induction l as [|x l IH]; simpl; [constructor|].
  now apply insert_desc_sorted.
Qed.

(** Stability: the elements of one key keep their order. *)
Lemma insert_desc_with_key (k : Z) (x : A) (l : list A) :
  with_key key k (insert_desc key x l) = with_key key k (x :: l).
Proof.
  unfold with_key. induction l as [|y l IH]; simpl; [reflexivity|].
  destruct (Z.ltb_spec (key x) (key y)) as [Hlt|Hge]; [|reflexivity].
  simpl. rewrite IH. simpl.
  destruct (Z.eqb_spec (key x) k), (Z.eqb_spec (key y) k); try reflexivity.
  lia.
Qed.

Lemma sort_desc_stable (k : Z) (l : list A) :
  with_key key k (sort_desc key l) = with_key key k l.
Proof.
  induction l as [|x l IH]; simpl; [reflexivity|].
  rewrite insert_desc_with_key. unfold with_key in *. simpl.
  now rewrite IH.
Qed.

Lemma descending_firstn (n : nat) (l : list A) :
  descending key l -> descending key (firstn n l).
Proof.
  unfold descending. intros H. revert n.
  induction H as [|x l Hl IH Hx]; intros [|n]; simpl; try constructor.
  - apply IH.
  - rewrite List.Forall_forall in *. intros a Ha. apply Hx.
    eapply In_firstn; exact Ha.
Qed.

End SortDesc.

Lemma slice_to_pos {A : Type} (n : Z) (l : list A) :
  0 <= n -> slice_to n l = firstn (Z.to_nat n) l.
Proof.
  intros H. unfold slice_to. destruct (Z.leb_spec 0 n); [reflexivity|lia].
Qed.

Lemma slice_to_incl {A : Type} (n : Z) (l : list A) (x : A) :
  In x (slice_to n l) -> In x l.
Proof.
  unfold slice_to. destruct (0 <=? n); intros H; eapply In_firstn; exact H.
Qed.

(* ===================================================================== *)
(** * The aggregator                                                      *)
(* ===================================================================== *)

Lemma bind_Ok_inv {A B : Type} (r : result A) (k : A -> result B) (b : B) :
  bind r k = Ok b -> exists a, r = Ok a /\ k a = Ok b.
Proof. destruct r as [a|e]; simpl; [eauto | discriminate]. Qed.

Lemma sum_Z_app (l1 l2 : list Z) : sum_Z (l1 ++ l2) = sum_Z l1 + sum_Z l2.
Proof. unfold sum_Z. induction l1; simpl; lia. Qed.

Lemma sum_Z_perm (l1 l2 : list Z) : Permutation l1 l2 -> sum_Z l1 = sum_Z l2.
Proof. unfold sum_Z. induction 1; simpl; lia. Qed.

Lemma options_loop_spec (series_ticker : string) (ms : list MarketJson.t) :
  forall acc tv opts total,
    options_loop series_ticker ms acc tv = Ok (opts, total) ->
    exists built,
      opts = (acc ++ built)%list /\
      Forall2 (option_of_market series_ticker) ms built /\
      total = tv + sum_Z (volumes built).
Proof.
  induction ms as [|m ms IH]; simpl; intros acc tv opts total H.
  - inversion H; subst. exists []. rewrite app_nil_r. repeat split; [constructor | simpl; lia].
  - apply bind_Ok_inv in H as (p & Hp & H).
    apply IH in H as (built & -> & HF & ->).
    eexists (_ :: built). rewrite <- app_assoc. simpl. split; [reflexivity|]. split.
    + constructor; [|exact HF]. unfold option_of_market. simpl. tauto.
    + unfold volumes, sum_Z. simpl. lia.
Qed.

Lemma active_markets_of_none (event : EventJson.t) :
  no_active_market event -> active_markets_of event = [].
Proof.
  unfold no_active_market, active_markets_of.
  induction 1 as [|m ms Hm _ IH]; simpl; [reflexivity|].
  destruct (MarketJson.status m) as [st|]; [|exact IH].
  destruct (String.eqb_spec st "active") as [->|_]; [congruence | exact IH].
Qed.

Lemma build_event_inactive (category : string) (event : EventJson.t) :
  active_markets_of event = [] -> build_event category event = Ok None.
Proof.
  intros H. unfold build_event. rewrite H. now destruct (matches category event).
Qed.

(** What [build_event] builds, when it builds. *)
Lemma build_event_spec (category : string) (event : EventJson.t) (ed : EventData.t) :
  build_event category event = Ok (Some ed) ->
  matches category event = true /\
  active_markets_of event <> [] /\
  exists built,
    Forall2 (option_of_market (default "" (EventJson.series_ticker event)))
            (active_markets_of event) built /\
    ed = EventData.mk (default "" (EventJson.event_ticker event))
                      (default "" (EventJson.title event))
                      (default "" (EventJson.category event))
                      (sort_desc MarketOption.probability built)
                      (sum_Z (volumes built))
                      (Z.of_nat (length (sort_desc MarketOption.probability built)))
                      0
                      (default "" (EventJson.series_ticker event)).
Proof.
  unfold build_event. destruct (matches category event); simpl; [|discriminate].
  destruct (active_markets_of event) as [|m ms] eqn:Hact; [discriminate|].
  intros H. apply bind_Ok_inv in H as ([opts total] & Hloop & H).
  apply options_loop_spec in Hloop as (built & -> & HF & ->).
  simpl in H. inversion H; subst. repeat split; [discriminate|].
  exists built. split; [exact HF | reflexivity].
Qed.

Lemma aggregate_loop_app (category : string) (l1 l2 : list EventJson.t) :
  forall acc,
    aggregate_loop category (l1 ++ l2) acc =
    bind (aggregate_loop category l1 acc) (aggregate_loop category l2).
Proof.
  induction l1 as [|ev l1 IH]; simpl; intros acc; [reflexivity|].
  destruct (build_event category ev) as [[ed|]|e]; simpl; auto.
Qed.

(** Every event of the output was built from an upstream event. *)
Lemma aggregate_loop_In (category : string) (events : list EventJson.t) :
  forall acc out,
    aggregate_loop category events acc = Ok out ->
    forall ed, In ed out ->
      In ed acc \/ exists ev, In ev events /\ build_event category ev = Ok (Some ed).
Proof.
  induction events as [|ev events IH]; simpl; intros acc out H ed Hed.
  - inversion H; subst. now left.
  - apply bind_Ok_inv in H as (r & Hr & H).
    destruct r as [ed'|].
    + destruct (IH _ _ H ed Hed) as [Hin|(ev' & Hin & Hb)].
      * apply in_app_or in Hin as [Hin|[<-|[]]]; [now left|].
        right. exists ev. split; [now left | exact Hr].
      * right. exists ev'. split; [now right | exact Hb].
    + destruct (IH _ _ H ed Hed) as [Hin|(ev' & Hin & Hb)]; [now left|].
      right. exists ev'. split; [now right | exact Hb].
Qed.

Lemma aggregate_In (category : string) (events : list EventJson.t)
    (out : list EventData.t) (ed : EventData.t) :
  aggregate category events = Ok out -> In ed out ->
  exists ev, In ev events /\ build_event category ev = Ok (Some ed).
Proof.
  intros H Hed. destruct (aggregate_loop_In _ _ _ _ H ed Hed) as [[]|Hex]. exact Hex.
Qed.

Lemma built_from_markets_nonempty {S : Type} (R : MarketJson.t -> S -> Prop)
    (ms : list MarketJson.t) (built : list S) :
  Forall2 R ms built -> ms <> [] -> built <> [].
Proof. intros HF Hne. destruct HF; [congruence | discriminate]. Qed.

(** The invariants of a built event. *)
Lemma build_event_invariants (category : string) (event : EventJson.t) (ed : EventData.t) :
  build_event category event = Ok (Some ed) ->
  EventData.options ed <> [] /\
  EventData.total_volume ed = sum_Z (volumes (EventData.options ed)) /\
  EventData.num_markets ed = Z.of_nat (length (EventData.options ed)) /\
  EventData.max_price_change ed = 0 /\
  Forall (fun o => MarketOption.price_change_24h o = 0) (EventData.options ed).
Proof.
  intros H. apply build_event_spec in H as (_ & Hne & built & HF & ->). simpl.
  repeat split.
  - intros Hs. apply sort_desc_nil_inv in Hs.
    now apply (built_from_markets_nonempty _ _ _ HF Hne).
  - apply sum_Z_perm. unfold volumes. apply Permutation_map. symmetry. apply sort_desc_perm.
  - apply (Permutation_Forall (x := built)); [symmetry; apply sort_desc_perm|].
    clear Hne. induction HF as [|m o ms os Hmo _ IH]; constructor; [|exact IH].
    now destruct Hmo as (_ & _ & _ & _ & Hc & _).
Qed.

(* ===================================================================== *)
(** * The enrichment loop                                                 *)
(* ===================================================================== *)

Lemma keep_larger_0 (mc : Z) : keep_larger mc 0 = mc.
Proof.
  unfold keep_larger. destruct (Z.ltb_spec (Z.abs mc) (Z.abs 0)) as [H|H]; [|reflexivity].
  simpl in H. lia.
Qed.

Section Enrich.
Variable api : candle_api.

Lemma get_price_change_24h_log (lg : log) (s t : string) :
  snd (get_price_change_24h api lg s t) = (lg ++ [(s, t)])%list.
Proof.
  unfold get_price_change_24h, get_market_candlesticks.
  now destruct (api lg (s, t)).
Qed.

Lemma enrich_option_spec (lg : log) (mc : Z) (o : MarketOption.t) :
  MarketOption.price_change_24h o = 0 ->
  enrich_option api lg mc o =
    ((lg ++ requests_of [o])%list,
     keep_larger mc (MarketOption.price_change_24h (enriched_option api lg o)),
     enriched_option api lg o).
Proof.
  intros Hz. unfold enrich_option, enriched_option, requests_of, lookup, has_tickers. simpl.
  destruct (str_truthy (MarketOption.series_ticker o) && str_truthy (MarketOption.ticker o)); simpl.
  - pose proof (get_price_change_24h_log lg (MarketOption.series_ticker o) (MarketOption.ticker o)) as Hlog.
    destruct (get_price_change_24h api lg _ _) as [[change|e] lg'] eqn:E; simpl in *; subst lg'.
    + reflexivity.
    + now rewrite Hz, keep_larger_0.
  - now rewrite app_nil_r, Hz, keep_larger_0.
Qed.

Lemma requests_of_app (l1 l2 : list MarketOption.t) :
  requests_of (l1 ++ l2) = (requests_of l1 ++ requests_of l2)%list.
Proof. unfold requests_of. now rewrite List.filter_app, List.map_app. Qed.

Lemma enriched_option_frame (lg : log) (o : MarketOption.t) :
  MarketOption.name (enriched_option api lg o) = MarketOption.name o /\
  MarketOption.probability (enriched_option api lg o) = MarketOption.probability o /\
  MarketOption.volume_24h (enriched_option api lg o) = MarketOption.volume_24h o /\
  MarketOption.ticker (enriched_option api lg o) = MarketOption.ticker o /\
  MarketOption.series_ticker (enriched_option api lg o) = MarketOption.series_ticker o.
Proof.
  unfold enriched_option. destruct (has_tickers o); [|tauto].
  destruct (lookup api lg o); simpl; tauto.
Qed.

Lemma enrich_options_app (l1 l2 : list MarketOption.t) :
  forall lg mc,
    enrich_options api lg mc (l1 ++ l2) =
    let '(lg1, mc1, l1') := enrich_options api lg mc l1 in
    let '(lg2, mc2, l2') := enrich_options api lg1 mc1 l2 in
    (lg2, mc2, (l1' ++ l2')%list).
Proof.
  induction l1 as [|o l1 IH]; simpl; intros lg mc.
  - now destruct (enrich_options api lg mc l2) as [[? ?] ?].
  - destruct (enrich_option api lg mc o) as [[lg1 mc1] o1].
    rewrite IH.
    destruct (enrich_options api lg1 mc1 l1) as [[lg2 mc2] l1'].
    now destruct (enrich_options api lg2 mc2 l2) as [[lg3 mc3] l2'].
Qed.

(** The log, the running maximum and the length after the loop. *)
Lemma enrich_options_spec (opts : list MarketOption.t) :
  forall lg mc,
    Forall (fun o => MarketOption.price_change_24h o = 0) opts ->
    exists opts',
      enrich_options api lg mc opts =
        ((lg ++ requests_of opts)%list, fold_left keep_larger (changes opts') mc, opts') /\
      length opts' = length opts /\
      volumes opts' = volumes opts.
Proof.
  induction opts as [|o opts IH]; simpl; intros lg mc Hz.
  - exists []. now rewrite app_nil_r.
  - inversion Hz as [|? ? Ho Hrest]; subst.
    rewrite (enrich_option_spec lg mc o Ho).
    destruct (IH (lg ++ requests_of [o])%list
                 (keep_larger mc (MarketOption.price_change_24h (enriched_option api lg o)))
                 Hrest) as (opts' & -> & Hlen & Hvol).
    exists (enriched_option api lg o :: opts'). simpl.
    change (o :: opts) with ([o] ++ opts)%list.
    rewrite requests_of_app, <- app_assoc. split; [reflexivity|].
    split; [now rewrite Hlen|].
    rewrite Hvol. f_equal. apply enriched_option_frame.
Qed.

(** Every option is enriched by its own lookup, made after the requests
    of the options before it. *)
Lemma enrich_options_at (pre post : list MarketOption.t) (o : MarketOption.t)
    (lg : log) (mc : Z) :
  Forall (fun o => MarketOption.price_change_24h o = 0) (pre ++ o :: post) ->
  exists pre' post',
    snd (enrich_options api lg mc (pre ++ o :: post)) =
      (pre' ++ enriched_option api (lg ++ requests_of pre) o :: post')%list /\
    length pre' = length pre /\ length post' = length post.
Proof.
  intros Hz. apply Forall_app in Hz as [Hpre Hz].
  inversion Hz as [|? ? Ho Hpost]; subst.
  rewrite enrich_options_app.
  destruct (enrich_options_spec pre lg mc Hpre) as (pre' & -> & Hlen & _).
  simpl. rewrite (enrich_option_spec _ _ o Ho).
  destruct (enrich_options_spec post
              ((lg ++ requests_of pre) ++ requests_of [o])%list
              (keep_larger (fold_left keep_larger (changes pre') mc)
                 (MarketOption.price_change_24h
                    (enriched_option api (lg ++ requests_of pre) o)))
              Hpost) as (post' & -> & Hlen' & _).
  simpl. exists pre', post'. auto.
Qed.

End Enrich.

(** ** The running maximum *)

Lemma keep_larger_abs (mc c : Z) :
  Z.abs mc <= Z.abs (keep_larger mc c) /\ Z.abs c <= Z.abs (keep_larger mc c).
Proof. unfold keep_larger. destruct (Z.ltb_spec (Z.abs mc) (Z.abs c)); lia. Qed.

Lemma fold_keep_larger_spec (cs : list Z) :
  forall mc,
    let m := fold_left keep_larger cs mc in
    Z.abs mc <= Z.abs m /\
    (forall c, In c cs -> Z.abs c <= Z.abs m) /\
    (m = mc \/
     exists i : nat,
       nth_error cs i = Some m /\ Z.abs mc < Z.abs m /\
       forall j c, (j < i)%nat -> nth_error cs j = Some c -> Z.abs c < Z.abs m).
Proof.
  induction cs as [|c cs IH]; simpl; intros mc.
  - split; [lia|]. split; [tauto | now left].
  - destruct (IH (keep_larger mc c)) as (Hge & Hall & Hfirst).
    pose proof (keep_larger_abs mc c) as [Hk1 Hk2].
    split; [lia|]. split.
    + intros c' [<-|Hin]; [lia | now apply Hall].
    + destruct Hfirst as [Heq|(i & Hi & Hlt & Hbefore)].
      * unfold keep_larger in Heq |- *.
        destruct (Z.ltb_spec (Z.abs mc) (Z.abs c)) as [Hlt|Hle]; [|now left].
        right. exists 0%nat. simpl. split; [now rewrite Heq|]. split; [lia|].
        intros j c' Hj. lia.
      * right. exists (S i). simpl. split; [exact Hi|]. split; [lia|].
        intros [|j] c' Hj Hnth; simpl in Hnth.
        -- inversion Hnth; subst. lia.
        -- apply (Hbefore j c'); [lia | exact Hnth].
Qed.

Lemma fold_keep_larger_first (cs : list Z) :
  cs <> [] -> first_largest_abs (fold_left keep_larger cs 0) cs.
Proof.
  intros Hne. destruct (fold_keep_larger_spec cs 0) as (_ & Hall & Hfirst).
  destruct Hfirst as [Heq|(i & Hi & _ & Hbefore)].
  - rewrite Heq. destruct cs as [|c cs]; [congruence|].
    exists 0%nat. simpl. repeat split.
    + f_equal. specialize (Hall c (or_introl eq_refl)). rewrite Heq in Hall. lia.
    + intros c' Hc'. specialize (Hall c' Hc'). rewrite Heq in Hall. exact Hall.
    + intros j c' Hj. lia.
  - exists i. repeat split; [exact Hi | exact Hall | exact Hbefore].
Qed.

(** ** The loop over events, and what the lookups leave alone *)

Section EnrichEvents.
Variable api : candle_api.

Lemma enrich_option_log (lg : log) (mc : Z) (o : MarketOption.t) :
  fst (fst (enrich_option api lg mc o)) = lg ++ requests_of [o].
Proof.
  unfold enrich_option, requests_of, has_tickers. simpl.
  destruct (str_truthy (MarketOption.series_ticker o) && str_truthy (MarketOption.ticker o)); simpl.
  - pose proof (get_price_change_24h_log api lg (MarketOption.series_ticker o) (MarketOption.ticker o)) as Hlog.
    destruct (get_price_change_24h api lg _ _) as [[change|e] lg']; simpl in *; now subst.
  - now rewrite app_nil_r.
Qed.

Lemma enrich_option_frame (lg : log) (mc : Z) (o : MarketOption.t) :
  option_frame o (snd (enrich_option api lg mc o)).
Proof.
  unfold enrich_option, option_frame.
  destruct (str_truthy (MarketOption.series_ticker o) && str_truthy (MarketOption.ticker o)); simpl; [|tauto].
  destruct (get_price_change_24h api lg _ _) as [[change|e] lg']; simpl; tauto.
Qed.

Lemma enrich_options_frame (opts : list MarketOption.t) :
  forall lg mc,
    fst (fst (enrich_options api lg mc opts)) = lg ++ requests_of opts /\
    Forall2 option_frame opts (snd (enrich_options api lg mc opts)).
Proof.
  induction opts as [|o opts IH]; simpl; intros lg mc.
  - rewrite app_nil_r. split; [reflexivity | constructor].
  - pose proof (enrich_option_log lg mc o) as Hlog.
    pose proof (enrich_option_frame lg mc o) as Hfr.
    destruct (enrich_option api lg mc o) as [[lg1 mc1] o1]. simpl in Hlog, Hfr.
    destruct (IH lg1 mc1) as [Hlog' Hfr'].
    destruct (enrich_options api lg1 mc1 opts) as [[lg2 mc2] opts']. simpl in *.
    split; [|now constructor].
    subst. change (o :: opts) with ([o] ++ opts).
    now rewrite requests_of_app, app_assoc.
Qed.

Lemma enrich_event_frame (lg : log) (e : EventData.t) :
  fst (enrich_event api lg e) = lg ++ requests_of (EventData.options e) /\
  event_frame e (snd (enrich_event api lg e)).
Proof.
  unfold enrich_event. destruct (enrich_options_frame (EventData.options e) lg 0) as [Hlog Hfr].
  destruct (enrich_options api lg 0 (EventData.options e)) as [[lg' mc] opts]. simpl in *.
  split; [exact Hlog|]. unfold event_frame. simpl. tauto.
Qed.

Lemma enrich_events_app (l1 l2 : list EventData.t) :
  forall lg,
    enrich_events api lg (l1 ++ l2) =
    let '(lg1, l1') := enrich_events api lg l1 in
    let '(lg2, l2') := enrich_events api lg1 l2 in
    (lg2, l1' ++ l2').
Proof.
  induction l1 as [|e l1 IH]; simpl; intros lg.
  - now destruct (enrich_events api lg l2).
  - destruct (enrich_event api lg e) as [lg1 e1]. rewrite IH.
    destruct (enrich_events api lg1 l1) as [lg2 l1'].
    now destruct (enrich_events api lg2 l2).
Qed.

Lemma enrich_events_frame (evs : list EventData.t) :
  forall lg,
    fst (enrich_events api lg evs) = lg ++ requests_of_events evs /\
    Forall2 event_frame evs (snd (enrich_events api lg evs)).
Proof.
  unfold requests_of_events.
  induction evs as [|e evs IH]; simpl; intros lg.
  - rewrite app_nil_r. split; [reflexivity | constructor].
  - destruct (enrich_event_frame lg e) as [Hlog Hfr].
    destruct (enrich_event api lg e) as [lg1 e1]. simpl in *.
    destruct (IH lg1) as [Hlog' Hfr'].
    destruct (enrich_events api lg1 evs) as [lg2 evs']. simpl in *.
    split; [|now constructor].
    subst. now rewrite app_assoc.
Qed.

(** Every event is enriched on its own, after the requests of the events
    before it. *)
Lemma enrich_events_at (pre post : list EventData.t) (e : EventData.t) (lg : log) :
  exists pre' post',
    snd (enrich_events api lg (pre ++ e :: post)) =
      pre' ++ snd (enrich_event api (lg ++ requests_of_events pre) e) :: post' /\
    length pre' = length pre /\ length post' = length post.
Proof.
  rewrite enrich_events_app.
  destruct (enrich_events_frame pre lg) as [Hlog Hfr].
  destruct (enrich_events api lg pre) as [lg1 pre']. simpl in *. subst lg1.
  destruct (enrich_event api (lg ++ requests_of_events pre) e) as [lg2 e'].
  destruct (enrich_events_frame post lg2) as [_ Hfr'].
  destruct (enrich_events api lg2 post) as [lg3 post']. simpl in *.
  exists pre', post'. split; [reflexivity|].
  split; symmetry; eapply Forall2_length; eassumption.
Qed.

End EnrichEvents.

Lemma option_frame_volumes (os os' : list MarketOption.t) :
  Forall2 option_frame os os' -> volumes os' = volumes os.
Proof.
  unfold volumes. induction 1 as [|o o' os os' Ho _ IH]; simpl; [reflexivity|].
  f_equal; [apply Ho | exact IH].
Qed.

Lemma event_frame_invariants (e e' : EventData.t) :
  event_frame e e' ->
  EventData.options e <> [] ->
  EventData.total_volume e = sum_Z (volumes (EventData.options e)) ->
  EventData.num_markets e = Z.of_nat (length (EventData.options e)) ->
  EventData.options e' <> [] /\
  EventData.total_volume e' = sum_Z (volumes (EventData.options e')) /\
  EventData.num_markets e' = Z.of_nat (length (EventData.options e')).
Proof.
  intros (_ & _ & _ & Htv & Hnm & _ & HF) Hne Hsum Hlen.
  assert (Hvol : volumes (EventData.options e') = volumes (EventData.options e))
    by now apply option_frame_volumes.
  assert (Hl : length (EventData.options e') = length (EventData.options e)).
  { symmetry. eapply Forall2_length; exact HF. }
  repeat split.
  - intros Hnil. rewrite Hnil in Hl. destruct (EventData.options e); [congruence | discriminate].
  - now rewrite Htv, Hvol.
  - now rewrite Hnm, Hl.
Qed.

(* ===================================================================== *)
(** * The classifier                                                      *)
(* ===================================================================== *)

Lemma prefix_spec (n h : string) :
  String.prefix n h = true <-> exists post, h = String.append n post.
Proof.
  revert h. induction n as [|c n IH]; intros h.
  - split; [intros _; now exists h | now destruct h].
  - destruct h as [|c' h]; simpl.
    + split; [discriminate | intros [post H]; discriminate].
    + destruct (Ascii.ascii_dec c c') as [->|Hne].
      * rewrite IH. split; intros [post H]; exists post; [now rewrite H | now inversion H].
      * split; [discriminate | intros [post H]; inversion H; congruence].
Qed.

(** [needle in hay] is substring search. *)
Lemma str_in_spec (n h : string) :
  str_in n h = true <->
  exists pre post, h = String.append pre (String.append n post).
Proof.
  induction h as [|c h IH]; cbn [str_in].
  - rewrite orb_false_r, prefix_spec. split.
    + intros [post H]. now exists "", post.
    + intros (pre & post & H). destruct pre as [|? ?]; [now exists post | discriminate].
  - rewrite orb_true_iff, prefix_spec, IH. split.
    + intros [[post H]|(pre & post & H)].
      * now exists "", post.
      * exists (String c pre), post. simpl. now rewrite H.
    + intros (pre & post & H). destruct pre as [|c' pre]; simpl in H.
      * left. now exists post.
      * right. inversion H. now exists pre, post.
Qed.

Lemma str_in_empty (h : string) : str_in "" h = true.
Proof. apply str_in_spec. now exists "", h. Qed.

Lemma any_spec {A : Type} (p : A -> bool) (l : list A) :
  any p l = true <-> exists x, In x l /\ p x = true.
Proof. apply existsb_exists. Qed.

Lemma is_crypto_spec (event_title : string) :
  is_crypto event_title = true <->
  exists keyword pre post,
    In keyword CRYPTO_KEYWORDS /\
    event_title = String.append pre (String.append keyword post).
Proof.
  unfold is_crypto. rewrite any_spec. split.
  - intros (k & Hk & Hin). apply str_in_spec in Hin as (pre & post & H). eauto.
  - intros (k & pre & post & Hk & H). exists k. split; [exact Hk|].
    apply str_in_spec. eauto.
Qed.

(** Every category has at least one target label. *)
Lemma target_categories_of_nonempty (category_lower : string) :
  target_categories_of category_lower <> [].
Proof.
  unfold target_categories_of.
  destruct (CATEGORY_MAPPING !! category_lower) as [l|] eqn:H; simpl; [|discriminate].
  unfold CATEGORY_MAPPING in H. apply elem_of_list_to_map_2 in H.
  repeat (apply elem_of_cons in H as [H|H]; [inversion H; discriminate|]).
  now apply elem_of_nil in H.
Qed.

Lemma category_matches_empty (target_categories : list string) :
  target_categories <> [] -> category_matches target_categories "" = true.
Proof.
  destruct target_categories as [|t ts]; [congruence|]. intros _.
  unfold category_matches. simpl. now rewrite str_in_empty, orb_true_r.
Qed.

Lemma matches_unfold (category : string) (event : EventJson.t) :
  matches category event =
  let cm := category_matches (target_categories_of (lower category))
                             (lower (default "" (EventJson.category event))) in
  let crypto := is_crypto (lower (default "" (EventJson.title event))) in
  if String.eqb (lower category) "crypto" then cm && crypto
  else if String.eqb (lower category) "economics" then cm && negb crypto
  else cm.
Proof. reflexivity. Qed.

(* ===================================================================== *)
(** * Sorting and truncation of the events                                *)
(* ===================================================================== *)

Lemma precedes_filter {A : Type} (p : A -> bool) (x y : A) (l : list A) :
  p x = true -> p y = true -> precedes x y l -> precedes x y (List.filter p l).
Proof.
  intros Hx Hy (l1 & l2 & l3 & ->).
  exists (List.filter p l1), (List.filter p l2), (List.filter p l3).
  rewrite List.filter_app. simpl. rewrite Hx, List.filter_app. simpl. now rewrite Hy.
Qed.

Lemma filter_split {A : Type} (p : A -> bool) (l : list A) :
  forall r1 x r2, List.filter p l = r1 ++ x :: r2 ->
  exists l1 l2, l = l1 ++ x :: l2 /\ List.filter p l1 = r1 /\ List.filter p l2 = r2.
Proof.
  induction l as [|a l IH]; simpl; intros r1 x r2 H.
  - now destruct r1.
  - destruct (p a) eqn:Hp.
    + destruct r1 as [|b r1]; simpl in H; inversion H; subst.
      * exists [], l. simpl. auto.
      * destruct (IH _ _ _ H2) as (l1 & l2 & -> & <- & <-).
        exists (b :: l1), l2. simpl. now rewrite Hp.
    + destruct (IH _ _ _ H) as (l1 & l2 & -> & <- & <-).
      exists (a :: l1), l2. simpl. now rewrite Hp.
Qed.

Lemma filter_precedes {A : Type} (p : A -> bool) (x y : A) (l : list A) :
  precedes x y (List.filter p l) -> precedes x y l.
Proof.
  intros (r1 & r2 & r3 & H).
  apply filter_split in H as (l1 & l' & -> & _ & H).
  apply filter_split in H as (l2 & l3 & -> & _ & _).
  now exists l1, l2, l3.
Qed.

(** Stability, pair by pair: two elements of equal key stay in order. *)
Lemma sort_desc_keeps_order {A : Type} (key : A -> Z) (x y : A) (l : list A) :
  key x = key y -> precedes x y l -> precedes x y (sort_desc key l).
Proof.
  intros Hk Hp.
  apply (filter_precedes (fun a => key a =? key x)).
  fold (with_key key (key x) (sort_desc key l)). rewrite sort_desc_stable.
  apply precedes_filter; [apply Z.eqb_refl | apply Z.eqb_eq; congruence | exact Hp].
Qed.

Lemma sort_desc_reflects_order {A : Type} (key : A -> Z) (x y : A) (l : list A) :
  key x = key y -> precedes x y (sort_desc key l) -> precedes x y l.
Proof.
  intros Hk Hp.
  apply (filter_precedes (fun a => key a =? key x)).
  fold (with_key key (key x) l). rewrite <- (sort_desc_stable key).
  apply precedes_filter; [apply Z.eqb_refl | apply Z.eqb_eq; congruence | exact Hp].
Qed.

Lemma sort_desc_order_iff {A : Type} (key : A -> Z) (x y : A) (l : list A) :
  key x = key y -> (precedes x y (sort_desc key l) <-> precedes x y l).
Proof.
  intros Hk. split; [now apply sort_desc_reflects_order | now apply sort_desc_keeps_order].
Qed.

Section SortEvents.
Variable api : candle_api.

Lemma sort_events_volume (lg : log) (evs : list EventData.t) :
  sort_events api "volume" lg evs = (lg, sort_desc EventData.total_volume evs).
Proof. reflexivity. Qed.

Lemma sort_events_num_markets (lg : log) (evs : list EventData.t) :
  sort_events api "num_markets" lg evs = (lg, sort_desc EventData.num_markets evs).
Proof. reflexivity. Qed.

Lemma sort_events_price_change (lg : log) (evs : list EventData.t) :
  sort_events api "price_change" lg evs =
  (fst (enrich_events api lg evs),
   sort_desc abs_max_price_change (snd (enrich_events api lg evs))).
Proof.
  unfold sort_events. simpl. now destruct (enrich_events api lg evs).
Qed.

(** Whatever the criterion, an event of the result is an event of the
    input, up to the fields the lookups assign. *)
Lemma sort_events_frame (sort_by : string) (lg : log) (evs : list EventData.t)
    (e' : EventData.t) :
  In e' (snd (sort_events api sort_by lg evs)) ->
  exists e, In e evs /\ (e' = e \/ event_frame e e').
Proof.
  unfold sort_events.
  destruct (String.eqb sort_by "volume").
  { simpl. intros H. exists e'. split; [|now left].
    eapply Permutation_in; [apply sort_desc_perm | exact H]. }
  destruct (String.eqb sort_by "num_markets").
  { simpl. intros H. exists e'. split; [|now left].
    eapply Permutation_in; [apply sort_desc_perm | exact H]. }
  destruct (String.eqb sort_by "price_change").
  - destruct (enrich_events_frame api evs lg) as [_ HF].
    destruct (enrich_events api lg evs) as [lg' evs']. simpl in *. intros H.
    apply (Permutation_in _ (sort_desc_perm _ _)) in H.
    clear lg'. induction HF as [|e e1 l l1 He _ IH]; [contradiction|].
    destruct H as [<-|H].
    + exists e. split; [now left | now right].
    + destruct (IH H) as (e0 & Hin & Hrel). exists e0. split; [now right | exact Hrel].
  - simpl. intros H. exists e'. split; [exact H | now left].
Qed.

End SortEvents.

(** The invariants of step 3 reach the caller, whatever the criterion. *)
Lemma get_top_events_invariants (api : candle_api)
    (response : result (option (list EventJson.t)))
    (category : string) (top_n : Z) (sort_by : string) (lg lg' : log)
    (out : list EventData.t) (ed : EventData.t) :
  get_top_events_by_category api response category top_n sort_by lg = (lg', Ok out) ->
  In ed out ->
  EventData.options ed <> [] /\
  EventData.total_volume ed = sum_Z (volumes (EventData.options ed)) /\
  EventData.num_markets ed = Z.of_nat (length (EventData.options ed)).
Proof.
  unfold get_top_events_by_category, rank.
  destruct response as [response|e]; [|discriminate].
  destruct (aggregate category (default [] response)) as [all_events|e] eqn:Hagg; [|discriminate].
  pose proof (sort_events_frame api sort_by lg all_events ed) as Hfr.
  destruct (sort_events api sort_by lg all_events) as [lg1 sorted]. simpl in Hfr.
  intros H Hin. inversion H; subst. apply slice_to_incl in Hin.
  destruct (Hfr Hin) as (e0 & He0 & Hrel).
  destruct (aggregate_In _ _ _ _ Hagg He0) as (ev & _ & Hb).
  apply build_event_invariants in Hb as (Hne & Hsum & Hlen & _).
  destruct Hrel as [->|Hrel]; [tauto|].
  now apply (event_frame_invariants e0 ed).
Qed.

(* ===================================================================== *)
(** * Binary64: a product with 100 that stays below 100                   *)
(* ===================================================================== *)

Lemma digits2_pos_size (p : positive) : digits2_pos p = Pos.size p.
Proof. induction p; simpl; congruence. Qed.

Lemma Zdigits2_lower (p : positive) : 2 ^ Zdigits2 (Z.pos p) <= 2 * Z.pos p.
Proof.
  simpl. rewrite digits2_pos_size.
  pose proof (Pos.size_le p) as H.
  apply Pos2Z.pos_le_pos in H. rewrite Pos2Z.inj_pow in H. exact H.
Qed.

(** ** Shifting right: [shr] *)

Section Shr.
Variable P : Z.
Hypothesis P_nonneg : 0 <= P.

Lemma div_pow2_succ (k : Z) : 0 <= k -> P / 2 ^ (k + 1) = P / 2 ^ k / 2.
Proof.
  intros Hk. rewrite Z.pow_add_r, Z.pow_1_r by lia.
  rewrite Z.div_div by (try apply Z.pow_pos_nonneg; lia). reflexivity.
Qed.

Lemma mod_pow2_succ (k : Z) :
  0 <= k -> P mod 2 ^ (k + 1) = 0 -> P mod 2 ^ k = 0 /\ (P / 2 ^ k) mod 2 = 0.
Proof.
  intros Hk H. assert (Hpos : 0 < 2 ^ k) by (apply Z.pow_pos_nonneg; lia).
  apply Z.mod_divide in H; [|rewrite Z.pow_add_r by lia; lia].
  destruct H as [q Hq]. rewrite Z.pow_add_r, Z.pow_1_r in Hq by lia.
  split.
  - apply Z.mod_divide; [lia|]. exists (q * 2). lia.
  - replace P with ((q * 2) * 2 ^ k) by lia.
    rewrite Z.div_mul by lia. apply Z.mod_mul. lia.
Qed.

Lemma shr_1_shifted (k : Z) (mrs : shr_record) :
  0 <= k -> shifted P k mrs -> shifted P (k + 1) (shr_1 mrs).
Proof.
  intros Hk [Hm Hs]. destruct mrs as [m r s]. simpl in Hm, Hs.
  assert (Hpos : 0 < 2 ^ k) by (apply Z.pow_pos_nonneg; lia).
  assert (Hq : 0 <= P / 2 ^ k) by (apply Z.div_pos; lia).
  unfold shifted. rewrite (div_pow2_succ k Hk), <- Hm.
  assert (Hsticky : r || s = true -> P mod 2 ^ (k + 1) <> 0).
  { intros Hrs H0. apply (mod_pow2_succ k Hk) in H0. now apply Hs. }
  assert (Hodd : m mod 2 = 1 -> P mod 2 ^ (k + 1) <> 0).
  { intros Hm2 H0. apply (mod_pow2_succ k Hk) in H0. rewrite <- Hm in H0. lia. }
  destruct m as [|[p|p|]|p]; simpl; try lia.
  - split; [reflexivity | exact Hsticky].
  - split.
    + rewrite Pos2Z.inj_xI. apply (Z.div_unique _ 2 _ 1); lia.
    + intros _. apply Hodd. rewrite Pos2Z.inj_xI.
      symmetry. apply (Z.mod_unique _ 2 (Z.pos p) 1); lia.
  - split.
    + rewrite Pos2Z.inj_xO. apply (Z.div_unique _ 2 _ 0); lia.
    + exact Hsticky.
  - split; [reflexivity|]. intros _. now apply Hodd.
Qed.

Lemma iter_pos_shifted (n : positive) :
  forall k mrs, 0 <= k -> shifted P k mrs -> shifted P (k + Z.pos n) (SpecFloat.iter_pos shr_1 n mrs).
Proof.
  induction n as [n IH|n IH|]; intros k mrs Hk H; simpl.
  - replace (k + Z.pos n~1) with (k + 1 + Z.pos n + Z.pos n) by lia.
    apply IH; [lia|]. apply IH; [lia|]. now apply shr_1_shifted.
  - replace (k + Z.pos n~0) with (k + Z.pos n + Z.pos n) by lia.
    apply IH; [lia|]. now apply IH.
  - now apply shr_1_shifted.
Qed.

Lemma shr_exact_shifted (e n : Z) :
  let '(mrs, e') := shr (shr_record_of_loc P loc_Exact) e n in
  e' = e + Z.max n 0 /\ shifted P (Z.max n 0) mrs.
Proof.
  assert (H0 : shifted P 0 (Build_shr_record P false false)).
  { unfold shifted. simpl. rewrite Z.div_1_r. split; [reflexivity | discriminate]. }
  destruct n as [|n|n]; simpl.
  - split; [lia | exact H0].
  - split; [reflexivity|]. now apply (iter_pos_shifted n 0).
  - split; [lia | exact H0].
Qed.

End Shr.

Lemma round_nearest_even_range (mx : Z) (lx : location) :
  mx <= round_nearest_even mx lx <= mx + 1 /\
  (lx = loc_Exact -> round_nearest_even mx lx = mx).
Proof.
  destruct lx as [|[| |]]; simpl; try destruct (Z.even mx); split; try lia; try discriminate; reflexivity.
Qed.

Lemma loc_of_shr_record_inexact (mrs : shr_record) :
  loc_of_shr_record mrs <> loc_Exact -> shr_r mrs || shr_s mrs = true.
Proof. destruct mrs as [m [|] [|]]; simpl; congruence. Qed.

(** ** Rounding a value between two integers that are at most 100

    Integers up to 100 are binary64 values, and rounding is monotone: a
    value between the integers [L] and [U] is rounded, then truncated, to
    an integer between [L] and [U]. *)

Lemma Zdigits2_below (m0 e0 : Z) :
  0 <= m0 -> e0 <= 0 -> m0 <= 100 * 2 ^ (- e0) -> Zdigits2 m0 + e0 < 8.
Proof.
  intros Hm He Hle. destruct m0 as [|p|p]; [simpl; lia | | lia].
  pose proof (Zdigits2_lower p) as Hd.
  assert (Hpos : 0 < 2 ^ (- e0)) by (apply Z.pow_pos_nonneg; lia).
  assert (Hlt : 2 ^ Zdigits2 (Z.pos p) < 2 ^ (8 - e0)).
  { replace (8 - e0) with (8 + - e0) by lia. rewrite Z.pow_add_r by lia.
    change (2 ^ 8) with 256. lia. }
  apply Z.pow_lt_mono_r_iff in Hlt; lia.
Qed.

Section Between.
Variables L U : Z.
Hypothesis L_nonneg : 0 <= L.
Hypothesis U_small : U <= 100.

Lemma shr_fexp_between (m0 e0 : Z) :
  e0 <= 0 -> L * 2 ^ (- e0) <= m0 <= U * 2 ^ (- e0) ->
  let '(mrs, e1) := shr_fexp 53 1024 m0 e0 loc_Exact in
  let m1 := round_nearest_even (shr_m mrs) (loc_of_shr_record mrs) in
  e1 <= 0 /\ L * 2 ^ (- e1) <= shr_m mrs /\ shr_m mrs <= m1 /\ m1 <= U * 2 ^ (- e1).
Proof.
  intros He [Hlo Hle]. unfold shr_fexp.
  assert (Hp0 : 0 < 2 ^ (- e0)) by (apply Z.pow_pos_nonneg; lia).
  assert (Hm : 0 <= m0) by nia.
  assert (Hle100 : m0 <= 100 * 2 ^ (- e0)) by nia.
  pose proof (Zdigits2_below m0 e0 Hm He Hle100) as Hd.
  set (n := fexp 53 1024 (Zdigits2 m0 + e0) - e0).
  assert (Hn : e0 + n <= 0) by (subst n; unfold fexp, emin; lia).
  pose proof (shr_exact_shifted m0 Hm e0 n) as Hshr.
  destruct (shr (shr_record_of_loc m0 loc_Exact) e0 n) as [mrs e1].
  destruct Hshr as [-> [Hq Hsticky]]. cbv zeta.
  set (k := Z.max n 0) in *.
  assert (Hk : 0 <= k) by lia.
  assert (Hpk : 0 < 2 ^ k) by (apply Z.pow_pos_nonneg; lia).
  assert (Hsplit : 2 ^ (- e0) = 2 ^ (- (e0 + k)) * 2 ^ k).
  { rewrite <- Z.pow_add_r by lia. f_equal. lia. }
  set (c := 2 ^ (- (e0 + k))) in *.
  assert (Hc : 0 < c) by (apply Z.pow_pos_nonneg; lia).
  rewrite Hsplit in Hlo, Hle.
  assert (Hqlo : L * c <= m0 / 2 ^ k).
  { apply Z.div_le_lower_bound; [lia|]. lia. }
  assert (Hqle : m0 / 2 ^ k <= U * c).
  { apply Z.div_le_upper_bound; [lia|]. lia. }
  destruct (round_nearest_even_range (shr_m mrs) (loc_of_shr_record mrs)) as [[Hlo' Hhi] Hex].
  split; [lia|]. split; [lia|]. split; [lia|].
  destruct (loc_of_shr_record mrs) eqn:Hloc.
  - rewrite Hex by reflexivity. lia.
  - assert (Hne : m0 mod 2 ^ k <> 0).
    { apply Hsticky, loc_of_shr_record_inexact. rewrite Hloc. discriminate. }
    pose proof (Z.div_mod m0 (2 ^ k) ltac:(lia)) as Hdm.
    pose proof (Z.mod_pos_bound m0 (2 ^ k) Hpk) as Hmb.
    assert (m0 / 2 ^ k < U * c) by nia.
    lia.
Qed.

Lemma binary_round_aux_between (P E : Z) :
  E <= 0 -> L * 2 ^ (- E) <= P <= U * 2 ^ (- E) ->
  match binary_round_aux 53 1024 false P E loc_Exact with
  | S754_zero s => s = false /\ L = 0
  | S754_finite s m e =>
      s = false /\ e <= 0 /\ L * 2 ^ (- e) <= Z.pos m <= U * 2 ^ (- e)
  | _ => False
  end.
Proof.
  intros HE Hle. unfold binary_round_aux.
  pose proof (shr_fexp_between P E HE Hle) as H1.
  destruct (shr_fexp 53 1024 P E loc_Exact) as [mrs' e']. cbv zeta in H1.
  destruct H1 as (He' & Hm0 & Hm1 & Hb1).
  set (m1 := round_nearest_even (shr_m mrs') (loc_of_shr_record mrs')) in *.
  pose proof (shr_fexp_between m1 e' He' ltac:(lia)) as H2.
  destruct (shr_fexp 53 1024 m1 e' loc_Exact) as [mrs'' e'']. cbv zeta in H2.
  destruct H2 as (He'' & Hm2 & Hm3 & Hb2).
  assert (Hc : 0 < 2 ^ (- e'')) by (apply Z.pow_pos_nonneg; lia).
  destruct (shr_m mrs'') as [|m|m].
  - split; [reflexivity | nia].
  - destruct (Z.leb_spec e'' (1024 - 53)); [|lia]. repeat split; lia.
  - nia.
Qed.

Lemma trunc_mag_between (m : positive) (e : Z) :
  e <= 0 -> L * 2 ^ (- e) <= Z.pos m <= U * 2 ^ (- e) -> L <= trunc_mag m e <= U.
Proof.
  intros He [Hlo Hle]. unfold trunc_mag.
  assert (Hpos : 0 < 2 ^ (- e)) by (apply Z.pow_pos_nonneg; lia).
  destruct (Z.leb_spec 0 e).
  - replace e with 0 in * by lia. simpl in *. lia.
  - split; [apply Z.div_le_lower_bound; lia | apply Z.div_le_upper_bound; lia].
Qed.

End Between.

(** A valid binary64 that is at most [1.0] has a value [m * 2^e <= 1]. *)
Lemma valid_le_one (m : positive) (e : Z) :
  is_valid (S754_finite false m e) = true ->
  fleb (S754_finite false m e) fone = true ->
  e <= -52 /\ Z.pos m <= 2 ^ (- e).
Proof.
  unfold is_valid, fleb, valid_binary, bounded, canonical_mantissa, fexp, emin.
  intros Hv Hle. apply andb_prop in Hv as [Hc _]. apply Z.eqb_eq in Hc.
  assert (Hd : Zdigits2 (Z.pos m) <= 53) by (simpl; lia).
  pose proof (Pos.size_gt m) as Hgt. rewrite <- digits2_pos_size in Hgt.
  apply Pos2Z.pos_lt_pos in Hgt. rewrite Pos2Z.inj_pow in Hgt.
  assert (Hm53 : Z.pos m < 2 ^ 53).
  { eapply Z.lt_le_trans; [exact Hgt|]. apply Z.pow_le_mono_r; simpl in Hd; lia. }
  change fone with (S754_finite false 4503599627370496 (-52)) in Hle.
  unfold SFleb, SFcompare in Hle.
  destruct (Z.compare_spec e (-52)) as [->|Hlt|Hgt'].
  - split; [lia|]. change (2 ^ (- -52)) with 4503599627370496.
    assert (Hmc : (m <= 4503599627370496)%positive).
    { unfold Pos.le, Pos.compare. intros Hcmp. rewrite Hcmp in Hle. discriminate. }
    apply Pos2Z.pos_le_pos in Hmc. exact Hmc.
  - split; [lia|]. apply Z.lt_le_incl. eapply Z.lt_le_trans; [exact Hm53|].
    apply Z.pow_le_mono_r; lia.
  - discriminate.
Qed.

(** The probability of a bid between 0 and 1: the exact hundredfold of the
    bid, rounded down, or one more. *)
Lemma fmul_hundred_between (f : spec_float) :
  is_valid f = true -> fleb fzero f = true -> fleb f fone = true ->
  exists p,
    py_int (fmul f hundred) = Ok p /\
    0 <= p <= 100 /\ floor_percent f <= p <= floor_percent f + 1.
Proof.
  intros Hv H0 H1.
  change hundred with (S754_finite false 7036874417766400 (-46)).
  destruct f as [s|s| |s m e]; try discriminate.
  - exists 0. split; [reflexivity | simpl; lia].
  - destruct s; [vm_compute in H0 | vm_compute in H1]; discriminate.
  - destruct s; [discriminate|].
    apply (valid_le_one m e Hv) in H1 as [He Hm].
    unfold fmul, SFmul. simpl xorb.
    assert (Hpos : 0 < 2 ^ (- e)) by (apply Z.pow_pos_nonneg; lia).
    assert (Hfl : floor_percent (S754_finite false m e) = 100 * Z.pos m / 2 ^ (- e)).
    { unfold floor_percent. destruct (Z.leb_spec 0 e); [lia | reflexivity]. }
    rewrite Hfl. set (n := 100 * Z.pos m / 2 ^ (- e)).
    assert (Hn0 : 0 <= n) by (apply Z.div_pos; lia).
    assert (Hn1 : n * 2 ^ (- e) <= 100 * Z.pos m)
      by (subst n; rewrite Z.mul_comm; apply Z.mul_div_le; lia).
    assert (Hn2 : 100 * Z.pos m < (n + 1) * 2 ^ (- e)).
    { subst n. rewrite (Z.mul_comm _ (2 ^ (- e))).
      apply Z.mul_succ_div_gt. lia. }
    assert (Hn100 : n <= 100) by nia.
    assert (Hsplit : 2 ^ (- (e + -46)) = 2 ^ (- e) * 70368744177664).
    { replace (- (e + -46)) with (- e + 46) by lia.
      rewrite Z.pow_add_r by lia. reflexivity. }
    assert (HP : Z.pos (m * 7036874417766400) = 100 * Z.pos m * 70368744177664)
      by (rewrite Pos2Z.inj_mul; lia).
    pose proof (binary_round_aux_between n (Z.min (n + 1) 100) ltac:(lia) ltac:(lia)
                  (Z.pos (m * 7036874417766400)) (e + -46) ltac:(lia)) as Hr.
    assert (Hb : n * 2 ^ (- (e + -46)) <= Z.pos (m * 7036874417766400)
                 <= Z.min (n + 1) 100 * 2 ^ (- (e + -46))).
    { rewrite Hsplit, HP. split; [nia|].
      destruct (Z.min_spec (n + 1) 100) as [[_ ->]|[_ ->]]; nia. }
    specialize (Hr Hb).
    destruct (binary_round_aux 53 1024 false _ _ loc_Exact) as [s'|s'| |s' m' e'];
      try contradiction.
    + destruct Hr as [_ Hn]. exists 0. split; [reflexivity | lia].
    + destruct Hr as (-> & He' & Hm'). eexists. split; [reflexivity|].
      pose proof (trunc_mag_between n (Z.min (n + 1) 100) m' e' He' Hm'). lia.
Qed.

(* ===================================================================== *)
(** * The claims                                                          *)
(* ===================================================================== *)

(** C2. An upstream event none of whose markets has status "active"
    contributes nothing to the aggregation output: the output is the one
    obtained without that event. Every event of the aggregation output, and
    every event [get_top_events_by_category] returns, has at least one
    option. *)
Theorem inactive_events_never_materialized :
  (forall category pre event post,
     no_active_market event ->
     aggregate category (pre ++ event :: post) = aggregate category (pre ++ post)) /\
  (forall category events out,
     aggregate category events = Ok out ->
     Forall (fun ed => EventData.options ed <> [] /\ 1 <= EventData.num_markets ed) out) /\
  (forall api response category top_n sort_by lg lg' out,
     get_top_events_by_category api response category top_n sort_by lg = (lg', Ok out) ->
     Forall (fun ed => EventData.options ed <> []) out).
Proof.
  split; [|split].
  - intros category pre event post Hna. unfold aggregate.
    rewrite !aggregate_loop_app. simpl.
    now rewrite (build_event_inactive category event (active_markets_of_none event Hna)).
  - intros category events out H. apply List.Forall_forall. intros ed Hin.
    destruct (aggregate_In _ _ _ _ H Hin) as (ev & _ & Hb).
    apply build_event_invariants in Hb as (Hne & _ & Hlen & _).
    split; [exact Hne|]. rewrite Hlen.
    destruct (EventData.options ed); [congruence | simpl; lia].
  - intros api response category top_n sort_by lg lg' out H.
    apply List.Forall_forall. intros ed Hin.
    now apply (get_top_events_invariants _ _ _ _ _ _ _ _ _ H Hin).
Qed.

Lemma inactive_events_never_materialized_witness :
  aggregate "economics" ([Sample.fed] ++ Sample.all_closed :: [Sample.overpriced]) =
  aggregate "economics" ([Sample.fed] ++ [Sample.overpriced]) /\
  Forall (fun ed => EventData.options ed <> [] /\ 1 <= EventData.num_markets ed)
         [Sample.an_event "E" [Sample.opt_a] 10].
Proof.
  split.
  - apply (proj1 inactive_events_never_materialized).
    unfold no_active_market. simpl. repeat constructor; discriminate.
  - repeat constructor; simpl; [discriminate | lia].
Defined.

(** C3. Both sorts are stable. The options of a built event are the
    options of its active markets, in upstream order, sorted descending by
    probability; two options of equal probability keep their upstream order.
    The events are sorted descending by the criterion; two events of equal
    key keep the order they had before the sort (for [price_change], the
    order after the lookups, which do not reorder). *)
Theorem both_sorts_are_stable :
  (forall category event ed,
     build_event category event = Ok (Some ed) ->
     exists built,
       Forall2 (option_of_market (default "" (EventJson.series_ticker event)))
               (active_markets_of event) built /\
       Permutation (EventData.options ed) built /\
       descending MarketOption.probability (EventData.options ed) /\
       (forall p, with_key MarketOption.probability p (EventData.options ed) =
                  with_key MarketOption.probability p built) /\
       (forall o1 o2,
          MarketOption.probability o1 = MarketOption.probability o2 ->
          (precedes o1 o2 (EventData.options ed) <-> precedes o1 o2 built)) /\
       (forall m1 m2,
          precedes m1 m2 (active_markets_of event) ->
          precedes m1 m2 (default [] (EventJson.markets event)))) /\
  (forall api sort_by key lg evs,
     (sort_by = "volume" /\ key = EventData.total_volume) \/
     (sort_by = "num_markets" /\ key = EventData.num_markets) \/
     (sort_by = "price_change" /\ key = abs_max_price_change) ->
     let before := if String.eqb sort_by "price_change"
                   then snd (enrich_events api lg evs) else evs in
     let after := snd (sort_events api sort_by lg evs) in
     Permutation after before /\
     descending key after /\
     (forall k, with_key key k after = with_key key k before) /\
     (forall e1 e2, key e1 = key e2 -> (precedes e1 e2 after <-> precedes e1 e2 before))).
Proof.
  split.
  - intros category event ed H.
    apply build_event_spec in H as (_ & _ & built & HF & ->). simpl.
    exists built. split; [exact HF|]. split; [apply sort_desc_perm|].
    split; [apply sort_desc_sorted|]. split; [intros p; apply sort_desc_stable|].
    split; [intros o1 o2; apply sort_desc_order_iff|].
    intros m1 m2. apply filter_precedes.
  - intros api sort_by key lg evs [[-> ->]|[[-> ->]|[-> ->]]]; simpl String.eqb; cbv zeta.
    + rewrite sort_events_volume. simpl.
      split; [apply sort_desc_perm|]. split; [apply sort_desc_sorted|].
      split; [intros k; apply sort_desc_stable | intros e1 e2; apply sort_desc_order_iff].
    + rewrite sort_events_num_markets. simpl.
      split; [apply sort_desc_perm|]. split; [apply sort_desc_sorted|].
      split; [intros k; apply sort_desc_stable | intros e1 e2; apply sort_desc_order_iff].
    + rewrite sort_events_price_change. simpl.
      split; [apply sort_desc_perm|]. split; [apply sort_desc_sorted|].
      split; [intros k; apply sort_desc_stable | intros e1 e2; apply sort_desc_order_iff].
Qed.

Lemma both_sorts_are_stable_witness :
  let tie1 := Sample.an_event "T1" [Sample.opt_a] 300 in
  let tie2 := Sample.an_event "T2" [Sample.opt_b] 300 in
  let evs := [Sample.an_event "E1" [Sample.opt_a] 100; tie1;
              Sample.an_event "E2" [Sample.opt_a] 900; tie2] in
  precedes tie1 tie2 (snd (sort_events Sample.api_a_fails "volume" [] evs)).
Proof.
  intros tie1 tie2 evs.
  destruct (proj2 both_sorts_are_stable Sample.api_a_fails "volume"
                  EventData.total_volume [] evs (or_introl (conj eq_refl eq_refl)))
    as (_ & _ & _ & Horder).
  apply (Horder tie1 tie2 eq_refl).
  - exists [Sample.an_event "E1" [Sample.opt_a] 100],
           [Sample.an_event "E2" [Sample.opt_a] 900], []. reflexivity.
Defined.

(** C4. For a positive limit, ranking by "volume" makes no request and
    returns the first [limit] events of the list sorted descending by total
    volume: all of them when there are no more than [limit]. Four events of
    total volumes 500, 100, 300, 900 ranked at limit 3 come out as those of
    volumes 900, 500, 300. *)
Theorem rank_by_volume (api : candle_api) (lg : log) (evs : list EventData.t)
    (top_n : Z) :
  0 < top_n ->
  let out := snd (rank api "volume" top_n lg evs) in
  fst (rank api "volume" top_n lg evs) = lg /\
  out = firstn (Z.to_nat top_n) (sort_desc EventData.total_volume evs) /\
  Permutation (sort_desc EventData.total_volume evs) evs /\
  descending EventData.total_volume out /\
  length out = Nat.min (Z.to_nat top_n) (length evs) /\
  (Z.of_nat (length evs) <= top_n -> Permutation out evs) /\
  (forall e1 e2 e3 e4,
     EventData.total_volume e1 = 500 -> EventData.total_volume e2 = 100 ->
     EventData.total_volume e3 = 300 -> EventData.total_volume e4 = 900 ->
     snd (rank api "volume" 3 lg [e1; e2; e3; e4]) = [e4; e1; e3]).
Proof.
  intros Hpos. unfold rank. rewrite sort_events_volume. simpl.
  rewrite (slice_to_pos top_n) by lia.
  split; [reflexivity|]. split; [reflexivity|]. split; [apply sort_desc_perm|].
  split; [apply descending_firstn, sort_desc_sorted|].
  split; [now rewrite length_firstn, sort_desc_length|].
  split.
  - intros Hall. rewrite firstn_all2; [apply sort_desc_perm|].
    rewrite sort_desc_length. lia.
  - intros [] [] [] [] H1 H2 H3 H4. simpl in H1, H2, H3, H4. subst. reflexivity.
Qed.

Lemma rank_by_volume_witness :
  List.map EventData.total_volume
    (snd (rank Sample.api_a_fails "volume" 3 [] Sample.four_events)) = [900; 500; 300].
Proof.
  destruct (rank_by_volume Sample.api_a_fails [] Sample.four_events 3 ltac:(lia))
    as (_ & -> & _).
  reflexivity.
Defined.

(** C8. For every event the aggregator produces, the total volume is the
    sum of the 24h volumes of its options and the market count is the number
    of its options; the same holds for every event
    [get_top_events_by_category] returns, whatever the sort criterion. *)
Theorem event_totals :
  (forall category events out,
     aggregate category events = Ok out ->
     Forall (fun ed =>
               EventData.total_volume ed = sum_Z (volumes (EventData.options ed)) /\
               EventData.num_markets ed = Z.of_nat (length (EventData.options ed)))
            out) /\
  (forall api response category top_n sort_by lg lg' out,
     get_top_events_by_category api response category top_n sort_by lg = (lg', Ok out) ->
     Forall (fun ed =>
               EventData.total_volume ed = sum_Z (volumes (EventData.options ed)) /\
               EventData.num_markets ed = Z.of_nat (length (EventData.options ed)))
            out).
Proof.
  split.
  - intros category events out H. apply List.Forall_forall. intros ed Hin.
    destruct (aggregate_In _ _ _ _ H Hin) as (ev & _ & Hb).
    apply build_event_invariants in Hb. tauto.
  - intros api response category top_n sort_by lg lg' out H.
    apply List.Forall_forall. intros ed Hin.
    apply (get_top_events_invariants _ _ _ _ _ _ _ _ _ H Hin).
Qed.

Lemma event_totals_witness :
  exists out,
    aggregate "economics" [Sample.bitcoin; Sample.fed; Sample.all_closed] = Ok out /\
    Forall (fun ed =>
              EventData.total_volume ed = sum_Z (volumes (EventData.options ed)) /\
              EventData.num_markets ed = Z.of_nat (length (EventData.options ed)))
           out.
Proof.
  eexists. split; [vm_compute; reflexivity|].
  apply (proj1 event_totals "economics" [Sample.bitcoin; Sample.fed; Sample.all_closed]).
  vm_compute. reflexivity.
Defined.

(** C5. An event whose upstream category is "Financials" in any letter
    case is accepted for "crypto" exactly when its lower-cased title
    contains a cryptocurrency keyword as a substring, and for "economics"
    exactly when it contains none; the requested category is compared in
    lower case too. "Will Bitcoin hit $100k?" is accepted for "crypto" and
    rejected for "economics"; "Will the Fed cut rates in March?" is accepted
    for "economics" and rejected for "crypto". *)
Theorem financials_split_by_crypto_keywords (category : string) (event : EventJson.t) :
  lower (default "" (EventJson.category event)) = "financials" ->
  let event_title := lower (default "" (EventJson.title event)) in
  (lower category = "crypto" -> matches category event = is_crypto event_title) /\
  (lower category = "economics" -> matches category event = negb (is_crypto event_title)) /\
  (is_crypto event_title = true <->
   exists keyword pre post,
     In keyword CRYPTO_KEYWORDS /\
     event_title = String.append pre (String.append keyword post)) /\
  matches "crypto" Sample.bitcoin = true /\
  matches "economics" Sample.bitcoin = false /\
  matches "economics" Sample.fed = true /\
  matches "crypto" Sample.fed = false.
Proof.
  intros Hcat event_title. split; [|split; [|split]].
  - intros Hc. rewrite matches_unfold, Hc, Hcat. reflexivity.
  - intros Hc. rewrite matches_unfold, Hc, Hcat. reflexivity.
  - apply is_crypto_spec.
  - vm_compute. auto.
Qed.

Lemma financials_split_by_crypto_keywords_witness :
  matches "Crypto" Sample.bitcoin = true /\ matches "ECONOMICS" Sample.bitcoin = false.
Proof.
  destruct (financials_split_by_crypto_keywords "Crypto" Sample.bitcoin eq_refl)
    as (Hc & _).
  destruct (financials_split_by_crypto_keywords "ECONOMICS" Sample.bitcoin eq_refl)
    as (_ & He & _).
  split; [rewrite (Hc eq_refl) | rewrite (He eq_refl)]; vm_compute; reflexivity.
Defined.

Lemma aggregate_loop_complete (category : string) (events : list EventJson.t) :
  forall acc out,
    aggregate_loop category events acc = Ok out ->
    (forall ed, In ed acc -> In ed out) /\
    (forall ev, In ev events ->
       exists r, build_event category ev = Ok r /\
                 forall ed, r = Some ed -> In ed out).
Proof.
  induction events as [|ev events IH]; simpl; intros acc out H.
  - inversion H; subst. split; [auto | contradiction].
  - apply bind_Ok_inv in H as (r & Hr & H).
    destruct r as [ed|]; destruct (IH _ _ H) as [Hacc Hevs].
    + split; [intros ed' Hin; apply Hacc, in_or_app; now left|].
      intros ev' [<-|Hin]; [|now apply Hevs].
      exists (Some ed). split; [exact Hr|]. intros ed' [= <-].
      apply Hacc, in_or_app. right. now left.
    + split; [exact Hacc|].
      intros ev' [<-|Hin]; [|now apply Hevs].
      exists None. split; [exact Hr | discriminate].
Qed.

Lemma build_event_not_skipped (category : string) (event : EventJson.t) :
  matches category event = true -> active_markets_of event <> [] ->
  build_event category event <> Ok None.
Proof.
  intros Hm Hact. unfold build_event. rewrite Hm. simpl.
  destruct (active_markets_of event) as [|m ms]; [congruence|].
  destruct (options_loop _ _ _ _) as [[opts total]|e]; simpl; discriminate.
Qed.

(** C10. An upstream event whose category is missing or empty passes the
    base category rule for every requested category, the empty string being
    a substring of every target label. It is therefore accepted for every
    category but for the keyword tests of "crypto" and "economics", and when
    it has an active market it is in the aggregation output of every
    category that accepts it. *)
Theorem empty_category_matches_every_category (category : string) (event : EventJson.t) :
  EventJson.category event = None \/ EventJson.category event = Some "" ->
  let event_title := lower (default "" (EventJson.title event)) in
  (forall target, str_in "" target = true) /\
  category_matches (target_categories_of (lower category))
                   (lower (default "" (EventJson.category event))) = true /\
  matches category event =
    (if String.eqb (lower category) "crypto" then is_crypto event_title
     else if String.eqb (lower category) "economics" then negb (is_crypto event_title)
     else true) /\
  (forall events out,
     aggregate category events = Ok out -> In event events ->
     matches category event = true -> active_markets_of event <> [] ->
     exists ed, build_event category event = Ok (Some ed) /\ In ed out).
Proof.
  intros Hcat event_title.
  assert (Hlow : lower (default "" (EventJson.category event)) = "")
    by (destruct Hcat as [-> | ->]; reflexivity).
  assert (Hcm : category_matches (target_categories_of (lower category))
                  (lower (default "" (EventJson.category event))) = true).
  { rewrite Hlow. apply category_matches_empty, target_categories_of_nonempty. }
  split; [exact str_in_empty|]. split; [exact Hcm|]. split.
  - rewrite matches_unfold. cbv zeta. rewrite Hcm. reflexivity.
  - intros events out Hagg Hin Hm Hact.
    destruct (aggregate_loop_complete _ _ _ _ Hagg) as [_ Hall].
    destruct (Hall event Hin) as (r & Hr & Hout).
    destruct r as [ed|].
    + exists ed. split; [exact Hr | now apply Hout].
    + now destruct (build_event_not_skipped category event Hm Hact).
Qed.

Lemma empty_category_matches_every_category_witness :
  matches "sports" Sample.uncategorised = true /\
  matches "Elections" Sample.uncategorised = true /\
  matches "no such category" Sample.uncategorised = true.
Proof.
  split; [|split].
  - destruct (empty_category_matches_every_category "sports" Sample.uncategorised
                (or_introl eq_refl)) as (_ & _ & -> & _). reflexivity.
  - destruct (empty_category_matches_every_category "Elections" Sample.uncategorised
                (or_introl eq_refl)) as (_ & _ & -> & _). reflexivity.
  - destruct (empty_category_matches_every_category "no such category" Sample.uncategorised
                (or_introl eq_refl)) as (_ & _ & -> & _). reflexivity.
Defined.

Lemma set_price_change_24h_same (o : MarketOption.t) :
  MarketOption.set_price_change_24h o (MarketOption.price_change_24h o) = o.
Proof. now destruct o. Qed.

Lemma lookup_of_answer (api : candle_api) (lg : log) (o : MarketOption.t) :
  lookup api lg o =
  match api lg (request_of o) with
  | Ok data => price_change_of data
  | Raise _ => Ok 0
  end.
Proof.
  unfold lookup, get_price_change_24h, get_market_candlesticks, request_of.
  now destruct (api lg _).
Qed.

(** A failed lookup leaves the change of an option at zero. *)
Lemma enriched_option_failed (api : candle_api) (lg : log) (o : MarketOption.t) :
  MarketOption.price_change_24h o = 0 ->
  has_tickers o = false \/ lookup_fails api lg o ->
  enriched_option api lg o = o.
Proof.
  intros Hz H. unfold enriched_option.
  destruct (has_tickers o); [|reflexivity].
  destruct H as [H|[[e He]|[e He]]]; [discriminate| |].
  - rewrite lookup_of_answer, He, <- Hz. apply set_price_change_24h_same.
  - now rewrite He.
Qed.

Lemma enriched_option_found (api : candle_api) (lg : log) (o : MarketOption.t) (c : Z) :
  has_tickers o = true -> lookup api lg o = Ok c ->
  enriched_option api lg o = MarketOption.set_price_change_24h o c.
Proof. intros Ht Hl. unfold enriched_option. now rewrite Ht, Hl. Qed.

Lemma enrich_event_spec (api : candle_api) (lg : log) (e : EventData.t) :
  Forall (fun o => MarketOption.price_change_24h o = 0) (EventData.options e) ->
  exists opts',
    enrich_event api lg e =
      (lg ++ requests_of (EventData.options e),
       EventData.set_enriched e opts' (fold_left keep_larger (changes opts') 0)) /\
    length opts' = length (EventData.options e).
Proof.
  intros Hz. unfold enrich_event.
  destruct (enrich_options_spec api (EventData.options e) lg 0 Hz) as (opts' & -> & Hlen & _).
  now exists opts'.
Qed.

Lemma enrich_event_two (api : candle_api) (lg : log) (e : EventData.t)
    (a b : MarketOption.t) :
  EventData.options e = [a; b] ->
  MarketOption.price_change_24h a = 0 -> MarketOption.price_change_24h b = 0 ->
  let a' := enriched_option api lg a in
  let b' := enriched_option api (lg ++ requests_of [a]) b in
  snd (enrich_event api lg e) =
    EventData.set_enriched e [a'; b']
      (keep_larger (keep_larger 0 (MarketOption.price_change_24h a'))
                   (MarketOption.price_change_24h b')).
Proof.
  intros Hopts Ha Hb. unfold enrich_event. rewrite Hopts.
  cbn [enrich_options].
  rewrite (enrich_option_spec api lg 0 a Ha).
  rewrite (enrich_option_spec api _ _ b Hb). reflexivity.
Qed.

Lemma requests_of_one (o : MarketOption.t) :
  has_tickers o = true -> requests_of [o] = [request_of o].
Proof. intros H. unfold requests_of. simpl. now rewrite H. Qed.

Lemma keep_larger_from_0 (c : Z) : keep_larger 0 c = c.
Proof.
  unfold keep_larger. destruct (Z.ltb_spec (Z.abs 0) (Z.abs c)) as [H|H]; [reflexivity|].
  simpl in H. lia.
Qed.

(** C6. Enrichment of an event the aggregator built. Each option is
    enriched by its own lookup, made after the requests of the options
    before it, whatever happened to those: an option without tickers, or
    whose lookup fails, keeps the change 0, and an option whose lookup
    succeeds gets the change found. The event's max-change is then the first
    of its options' changes among those of largest absolute value. Every
    event of a list is enriched in the same way, after the requests of the
    events before it. In particular, in an event of two options A and B, in
    either order, where the lookup of A fails and the lookup of B finds a
    change: the change of A is 0, the change of B is the one
    found, and the event's max-change is the change of B. *)
Theorem enrichment_survives_failed_lookups (api : candle_api) (category : string)
    (event : EventJson.t) (ed : EventData.t) (lg : log) :
  build_event category event = Ok (Some ed) ->
  let ed' := snd (enrich_event api lg ed) in
  fst (enrich_event api lg ed) = lg ++ requests_of (EventData.options ed) /\
  event_frame ed ed' /\
  (forall pre o post,
     EventData.options ed = pre ++ o :: post ->
     exists pre' post',
       EventData.options ed' =
         pre' ++ enriched_option api (lg ++ requests_of pre) o :: post' /\
       length pre' = length pre /\ length post' = length post) /\
  (forall lgo o,
     MarketOption.price_change_24h o = 0 ->
     has_tickers o = false \/ lookup_fails api lgo o ->
     MarketOption.price_change_24h (enriched_option api lgo o) = 0) /\
  (forall lgo o c,
     has_tickers o = true -> lookup api lgo o = Ok c ->
     MarketOption.price_change_24h (enriched_option api lgo o) = c) /\
  first_largest_abs (EventData.max_price_change ed') (changes (EventData.options ed')) /\
  (forall pre post,
     exists pre' post',
       snd (enrich_events api lg (pre ++ ed :: post)) =
         pre' ++ snd (enrich_event api (lg ++ requests_of_events pre) ed) :: post' /\
       length pre' = length pre /\ length post' = length post) /\
  (forall e a b change,
     MarketOption.price_change_24h a = 0 -> MarketOption.price_change_24h b = 0 ->
     has_tickers a = true -> has_tickers b = true ->
     (EventData.options e = [a; b] ->
      lookup_fails api lg a -> lookup api (lg ++ [request_of a]) b = Ok change ->
      EventData.options (snd (enrich_event api lg e)) =
        [a; MarketOption.set_price_change_24h b change] /\
      EventData.max_price_change (snd (enrich_event api lg e)) = change) /\
     (EventData.options e = [b; a] ->
      lookup api lg b = Ok change -> lookup_fails api (lg ++ [request_of b]) a ->
      EventData.options (snd (enrich_event api lg e)) =
        [MarketOption.set_price_change_24h b change; a] /\
      EventData.max_price_change (snd (enrich_event api lg e)) = change)).
Proof.
  intros Hb ed'.
  apply build_event_invariants in Hb as (Hne & _ & _ & _ & Hz).
  destruct (enrich_event_frame api lg ed) as [Hlog Hfr].
  split; [exact Hlog|]. split; [exact Hfr|]. split; [|split; [|split; [|split; [|split]]]].
  - intros pre o post Hsplit. subst ed'. unfold enrich_event.
    rewrite Hsplit in Hz |- *.
    destruct (enrich_options_at api pre post o lg 0 Hz) as (pre' & post' & Hs & Hl1 & Hl2).
    destruct (enrich_options api lg 0 (pre ++ o :: post)) as [[lg' mc] opts].
    simpl in *. eauto.
  - intros lgo o Ho Hfail. now rewrite (enriched_option_failed api lgo o Ho Hfail).
  - intros lgo o c Ht Hl. now rewrite (enriched_option_found api lgo o c Ht Hl).
  - subst ed'. destruct (enrich_event_spec api lg ed Hz) as (opts' & -> & Hlen). simpl.
    apply fold_keep_larger_first. unfold changes.
    intros Hnil. apply (f_equal (@length Z)) in Hnil. rewrite length_map, Hlen in Hnil.
    destruct (EventData.options ed); [congruence | discriminate].
  - intros pre post. apply enrich_events_at.
  - intros e a b change Ha Hbz Hta Htb. split.
    + intros Hopts Hfail Hfound.
      rewrite (enrich_event_two api lg e a b Hopts Ha Hbz).
      rewrite (requests_of_one a Hta).
      rewrite (enriched_option_failed api lg a Ha (or_intror Hfail)).
      rewrite (enriched_option_found api _ b change Htb Hfound). simpl.
      now rewrite Ha, keep_larger_from_0.
    + intros Hopts Hfound Hfail.
      rewrite (enrich_event_two api lg e b a Hopts Hbz Ha).
      rewrite (requests_of_one b Htb).
      rewrite (enriched_option_found api lg b change Htb Hfound).
      rewrite (enriched_option_failed api _ a Ha (or_intror Hfail)). simpl.
      now rewrite Ha, keep_larger_0, keep_larger_from_0.
Qed.

Lemma enrichment_survives_failed_lookups_witness :
  exists ed,
    build_event "economics" Sample.a_and_b = Ok (Some ed) /\
    changes (EventData.options (snd (enrich_event Sample.api_a_fails [] ed))) = [0; 7] /\
    EventData.max_price_change (snd (enrich_event Sample.api_a_fails [] ed)) = 7.
Proof.
  eexists. split; [vm_compute; reflexivity|].
  match goal with
  | |- changes (EventData.options (snd (enrich_event _ _ ?ed))) = _ /\ _ =>
      destruct (enrichment_survives_failed_lookups Sample.api_a_fails "economics"
                  Sample.a_and_b ed [] eq_refl) as (_ & _ & _ & _ & _ & _ & _ & Hab);
      destruct (Hab ed (Sample.an_option "A" "KX-A" 60 10) (Sample.an_option "B" "KX-B" 40 20)
                    7 eq_refl eq_refl eq_refl eq_refl) as [Hab1 _];
      destruct (Hab1 eq_refl (or_introl (ex_intro _ RequestException eq_refl)) eq_refl)
        as [Ho Hm]
  end.
  rewrite Ho, Hm. split; reflexivity.
Defined.

(** C7, as the specification words it, fails: in a candle whose previous
    price is present and zero, with open 40 and close 50, the code falls
    back on the open price and returns 10, not 50 - 0. *)
Lemma price_change_zero_previous_counterexample :
  price_change_of Sample.zero_previous = Ok 10 /\
  price_change_as_specified (Candle.mk_prices (Some 40) (Some 50) (Some 0)) = 50 /\
  ~ (forall p : Candle.prices,
       price_change_of (Candle.mk_response (Some [Candle.mk (Candle.PriceDict p)]))
       = Ok (price_change_as_specified p)).
Proof.
  split; [reflexivity|]. split; [reflexivity|].
  intros H. specialize (H (Candle.mk_prices (Some 40) (Some 50) (Some 0))).
  vm_compute in H. discriminate.
Qed.

(** C7, amended. The lookup is recorded and never raises for a failed
    request. The change is 0 when the request fails or the answer has no
    candlestick. Otherwise it is read off the last candlestick, whose
    missing or null prices count as 0: close - previous when the previous
    price is present and not 0; else close - open when the open price is
    present and not 0; else 0. *)
Theorem price_change_24h_uses_nonzero_references (api : candle_api) (lg : log)
    (series_ticker market_ticker : string) :
  let rq := (series_ticker, market_ticker) in
  let change := fst (get_price_change_24h api lg series_ticker market_ticker) in
  snd (get_price_change_24h api lg series_ticker market_ticker) = lg ++ [rq] /\
  ((exists e, api lg rq = Raise e) -> change = Ok 0) /\
  (forall data,
     api lg rq = Ok data -> default [] (Candle.candlesticks data) = [] ->
     change = Ok 0) /\
  (forall data older candle,
     api lg rq = Ok data -> Candle.candlesticks data = Some (older ++ [candle]) ->
     (Candle.price candle = Candle.PriceMissing -> change = Ok 0) /\
     (forall p,
        Candle.price candle = Candle.PriceDict p ->
        let close_price := or0 (Candle.close p) in
        (forall v, Candle.previous p = Some v -> v <> 0 -> change = Ok (close_price - v)) /\
        (Candle.previous p = None \/ Candle.previous p = Some 0 ->
         forall v, Candle.open p = Some v -> v <> 0 -> change = Ok (close_price - v)) /\
        (Candle.previous p = None \/ Candle.previous p = Some 0 ->
         Candle.open p = None \/ Candle.open p = Some 0 -> change = Ok 0))).
Proof.
  intros rq change. split; [apply get_price_change_24h_log|].
  assert (Hch : change = match api lg rq with
                         | Ok data => price_change_of data
                         | Raise _ => Ok 0
                         end).
  { subst change rq. unfold get_price_change_24h, get_market_candlesticks.
    now destruct (api lg _). }
  split; [|split].
  - intros [e He]. now rewrite Hch, He.
  - intros data Hd Hnil. rewrite Hch, Hd. unfold price_change_of. now rewrite Hnil.
  - intros data older candle Hd Hcs. rewrite Hch, Hd. unfold price_change_of.
    rewrite Hcs. simpl. rewrite last_snoc. split.
    + intros ->. reflexivity.
    + intros p ->. cbv zeta. split; [|split].
      * intros v -> Hv. simpl. destruct (Z.eqb_spec v 0); [contradiction | reflexivity].
      * intros Hp v -> Hv. simpl.
        destruct (Z.eqb_spec v 0); [contradiction|].
        now destruct Hp as [-> | ->].
      * intros Hp Ho. now destruct Hp as [-> | ->], Ho as [-> | ->].
Qed.

Lemma price_change_24h_uses_nonzero_references_witness :
  fst (get_price_change_24h Sample.api_a_fails [] "KXS" "KX-B") = Ok 7 /\
  fst (get_price_change_24h Sample.api_a_fails [] "KXS" "KX-A") = Ok 0.
Proof.
  destruct (price_change_24h_uses_nonzero_references Sample.api_a_fails [] "KXS" "KX-B")
    as (_ & _ & _ & Hb).
  destruct (Hb (Sample.candles (Some 52) (Some 57) (Some 50)) []
               (Candle.mk (Candle.PriceDict (Candle.mk_prices (Some 52) (Some 57) (Some 50))))
               eq_refl eq_refl) as (_ & Hp).
  destruct (Hp _ eq_refl) as (Hprev & _).
  destruct (price_change_24h_uses_nonzero_references Sample.api_a_fails [] "KXS" "KX-A")
    as (_ & Ha & _).
  split.
  - apply (Hprev 50 eq_refl). discriminate.
  - apply Ha. exists RequestException. reflexivity.
Defined.

(** C9. The ordering by "price_change" only orders: its result holds the
    events it is given, each as it is, every change of an option and every
    max-change included, in descending order of the absolute value of the
    max-change they come with, events of equal value in the order they had.
    It makes no lookup. In step 4 it runs on the events the lookups have
    populated: the requests of step 4 are those of the enrichment, and its
    events are the enriched events, ordered. *)
Theorem price_change_ranking_only_orders :
  (forall events,
     let ranked := order_events "price_change" events in
     Permutation ranked events /\
     (forall e, In e ranked <-> In e events) /\
     descending abs_max_price_change ranked /\
     (forall k, with_key abs_max_price_change k ranked
                = with_key abs_max_price_change k events) /\
     Permutation (List.map EventData.max_price_change ranked)
                 (List.map EventData.max_price_change events) /\
     Permutation (flat_map (fun e => changes (EventData.options e)) ranked)
                 (flat_map (fun e => changes (EventData.options e)) events)) /\
  (forall api lg all_events,
     sort_events api "price_change" lg all_events =
       (fst (enrich_events api lg all_events),
        order_events "price_change" (snd (enrich_events api lg all_events))) /\
     fst (sort_events api "price_change" lg all_events)
       = lg ++ requests_of_events all_events) /\
  (forall api sort_by lg all_events,
     sort_by = "volume" \/ sort_by = "num_markets" ->
     sort_events api sort_by lg all_events = (lg, order_events sort_by all_events)).
Proof.
  split; [|split].
  - intros events ranked. subst ranked.
    change (order_events "price_change" events)
      with (sort_desc abs_max_price_change events).
    pose proof (sort_desc_perm abs_max_price_change events) as Hperm.
    split; [exact Hperm|]. split; [|split; [|split; [|split]]].
    + intros e. split; apply Permutation_in; [exact Hperm | now symmetry].
    + apply sort_desc_sorted.
    + intros k. apply sort_desc_stable.
    + now apply Permutation_map.
    + now apply Permutation_flat_map.
  - intros api lg all_events.
    rewrite sort_events_price_change.
    destruct (enrich_events_frame api all_events lg) as [Hlog _].
    split; [reflexivity|]. simpl. exact Hlog.
  - intros api sort_by lg all_events [-> | ->]; reflexivity.
Qed.

Lemma price_change_ranking_only_orders_witness :
  sort_events Sample.api_a_fails "volume" [] Sample.four_events
  = ([], order_events "volume" Sample.four_events).
Proof.
  apply (proj2 (proj2 price_change_ranking_only_orders)). now left.
Defined.

Lemma Forall2_In_r {A B : Type} (R : A -> B -> Prop) (l : list A) (l' : list B) (b : B) :
  Forall2 R l l' -> In b l' -> exists a, In a l /\ R a b.
Proof.
  induction 1 as [|x y l l' Hxy _ IH]; simpl; [contradiction|].
  intros [<-|Hin]; [exists x; auto|].
  destruct (IH Hin) as (a & Ha & HR). exists a. auto.
Qed.

(** The product is a binary64 product: a bid of "0.29" is a little below
    29/100, and so is its product with 100. *)
Example probability_of_29_cents : probability_of (PyStr "0.29") = Ok 28.
Proof. vm_compute. reflexivity. Qed.

(** [int] raises [OverflowError] on an infinity, which the handler of
    [ValueError] and [TypeError] lets through. *)
Example probability_of_infinite_bid :
  probability_of (PyStr "inf") = Raise OverflowError /\
  aggregate "economics"
    [Sample.event "KXINF" "Will the Fed hold?" "Financials"
                  [Sample.market "Yes" (PyStr "1e999") 10 "KXINF-1"]]
  = Raise OverflowError.
Proof. split; vm_compute; reflexivity. Qed.

(** C1. The code does not keep the probability in [0,100]: nothing clamps
    it. On the event [Sample.overpriced], whose one active market has the
    bid "1.5", the option gets the probability [int(float("1.5") * 100)],
    150, where the claim, and the comment of the field ("Probability
    percentage (0-100)"), give 100. *)
Theorem probability_150_on_a_bid_of_one_and_a_half :
  probability_of (yes_price_of (Sample.market "Yes" (PyStr "1.5") 10 "KXOVER-1")) = Ok 150 /\
  clamp 0 100 150 = 100 /\
  (exists ed o,
     aggregate "economics" [Sample.overpriced] = Ok [ed] /\
     EventData.options ed = [o] /\ MarketOption.probability o = 150) /\
  ~ (forall market p, probability_of (yes_price_of market) = Ok p -> 0 <= p <= 100).
Proof.
  split; [vm_compute; reflexivity|]. split; [reflexivity|]. split.
  - eexists. eexists. split; [vm_compute; reflexivity|]. split; reflexivity.
  - intros H.
    specialize (H (Sample.market "Yes" (PyStr "1.5") 10 "KXOVER-1") 150).
    assert (Hp : probability_of (yes_price_of (Sample.market "Yes" (PyStr "1.5") 10 "KXOVER-1")) = Ok 150)
      by (vm_compute; reflexivity).
    specialize (H Hp). lia.
Qed.

(** Where the bid is in range. The probability of an option is the one
    derived from the bid of its market. When the bid converts to a binary64
    between 0.0 and 1.0, the probability lies in [0,100]: it is the
    hundredfold of that binary64 rounded down, or one more when the binary64
    product rounds up to the next integer. A bid of 0.955 yields 95 and a
    bid of 1.0 yields 100. A missing bid, and a bid on which the conversion
    raises [ValueError] or [TypeError] (null, a string that is no number),
    yield 0 without raising. *)
Lemma probability_within_range :
  (forall v f,
     py_float v = Ok f ->
     is_valid f = true -> fleb fzero f = true -> fleb f fone = true ->
     exists p,
       probability_of v = Ok p /\
       0 <= p <= 100 /\ floor_percent f <= p <= floor_percent f + 1) /\
  (forall v,
     py_float v = Raise ValueError \/ py_float v = Raise TypeError ->
     probability_of v = Ok 0) /\
  (forall market,
     MarketJson.yes_bid_dollars market = None ->
     probability_of (yes_price_of market) = Ok 0) /\
  (forall category event ed o,
     build_event category event = Ok (Some ed) -> In o (EventData.options ed) ->
     exists market,
       In market (active_markets_of event) /\
       probability_of (yes_price_of market) = Ok (MarketOption.probability o)) /\
  probability_of (PyStr "0.955") = Ok 95 /\
  probability_of (PyStr "1.0") = Ok 100 /\
  probability_of PyNone = Ok 0 /\
  probability_of (PyStr "n/a") = Ok 0.
Proof.
  split; [|split; [|split; [|split]]].
  - intros v f Hf Hv H0 H1.
    destruct (fmul_hundred_between f Hv H0 H1) as (p & Hp & Hr).
    exists p. unfold probability_of. rewrite Hf. simpl. rewrite Hp. auto.
  - intros v [H|H]; unfold probability_of; now rewrite H.
  - intros market H. unfold yes_price_of. rewrite H. vm_compute. reflexivity.
  - intros category event ed o Hb Hin.
    apply build_event_spec in Hb as (_ & _ & built & HF & ->). simpl in Hin.
    apply (Permutation_in _ (sort_desc_perm _ _)) in Hin.
    destruct (Forall2_In_r _ _ _ _ HF Hin) as (market & Hm & Hrel).
    exists market. split; [exact Hm | apply Hrel].
  - vm_compute. auto.
Qed.

Lemma probability_within_range_at_29_cents :
  exists p, probability_of (PyStr "0.29") = Ok p /\ 0 <= p <= 100.
Proof.
  destruct (proj1 probability_within_range (PyStr "0.29")
              (S754_finite false 5224175567749775 (-54))
              eq_refl eq_refl eq_refl eq_refl) as (p & Hp & Hr & _).
  exists p. split; [exact Hp | exact Hr].
Defined.

(* ===================================================================== *)
(** * Integers and text: [str], [int], [split]                            *)
(* ===================================================================== *)

Lemma digit_cases (d : Z) :
  0 <= d <= 9 ->
  d = 0 \/ d = 1 \/ d = 2 \/ d = 3 \/ d = 4 \/ d = 5 \/ d = 6 \/ d = 7 \/ d = 8 \/ d = 9.
Proof. lia. Qed.

(** What holds of a decimal digit. *)
Lemma digit_char_facts (d : Z) :
  0 <= d <= 9 ->
  digit_val (digit_char d) = Some d /\
  is_space (digit_char d) = false /\
  Ascii.eqb (digit_char d) "-" = false /\
  Ascii.eqb (digit_char d) "+" = false /\
  Ascii.eqb (digit_char d) "_" = false.
Proof.
  intros H. destruct (digit_cases d H) as [->|[->|[->|[->|[->|[->|[->|[->|[->| ->]]]]]]]]];
    repeat split; reflexivity.
Qed.

Lemma read_digits_digit (d : Z) (l : list ascii) (a c : Z) :
  0 <= d <= 9 ->
  read_digits (digit_char d :: l) a c = read_digits l (10 * a + d) (c + 1).
Proof.
  intros H. destruct (digit_char_facts d H) as (Hv & _).
  cbn [read_digits]. now rewrite Hv.
Qed.

(** Reading back the digits that [digits_of] wrote. *)
Lemma read_digits_digits_of (fuel : nat) :
  forall n acc,
    0 <= n < 2 ^ Z.of_nat (S fuel) ->
    exists k, 0 < k /\
      forall a c, read_digits (digits_of (S fuel) n acc) a c
                  = read_digits acc (a * 10 ^ k + n) (c + k).
Proof.
  induction fuel as [|fuel IH]; intros n acc Hn.
  - change (2 ^ Z.of_nat 1) with 2 in Hn.
    exists 1. split; [lia|]. intros a c. cbn [digits_of].
    destruct (Z.ltb_spec n 10); [|lia].
    rewrite Z.mod_small by lia. rewrite read_digits_digit by lia.
    f_equal. lia.
  - cbn [digits_of]. fold (digits_of (S fuel)).
    assert (Hmod : 0 <= n mod 10 <= 9) by (pose proof (Z.mod_pos_bound n 10); lia).
    destruct (Z.ltb_spec n 10) as [Hlt|Hge].
    + exists 1. split; [lia|]. intros a c.
      rewrite Z.mod_small by lia. rewrite read_digits_digit by lia. f_equal. lia.
    + assert (Hdiv : 0 <= n / 10 < 2 ^ Z.of_nat (S fuel)).
      { split; [apply Z.div_pos; lia|].
        apply Z.div_lt_upper_bound; [lia|].
        rewrite (Nat2Z.inj_succ (S fuel)), Z.pow_succ_r in Hn by lia. lia. }
      destruct (IH (n / 10) (digit_char (n mod 10) :: acc) Hdiv) as (k & Hk & Hread).
      exists (k + 1). split; [lia|]. intros a c.
      rewrite Hread, read_digits_digit by lia.
      f_equal; [|lia].
      rewrite Z.pow_add_r, Z.pow_1_r by lia.
      pose proof (Z.div_mod n 10 ltac:(lia)). lia.
Qed.

(** The characters [digits_of] writes are digits, and there is one at
    least. *)
Lemma digits_of_chars (P : ascii -> Prop) (fuel : nat) :
  (forall d, 0 <= d <= 9 -> P (digit_char d)) ->
  forall n acc, Forall P acc -> Forall P (digits_of fuel n acc).
Proof.
  intros HP. induction fuel as [|fuel IH]; intros n acc Hacc; cbn [digits_of]; [exact Hacc|].
  assert (Hd : P (digit_char (n mod 10))).
  { apply HP. pose proof (Z.mod_pos_bound n 10). lia. }
  destruct (n <? 10); [now constructor | apply IH; now constructor].
Qed.

Lemma digits_of_nonempty (fuel : nat) :
  forall n acc, digits_of (S fuel) n acc <> [].
Proof.
  induction fuel as [|fuel IH]; intros n acc; cbn [digits_of].
  - destruct (n <? 10); discriminate.
  - destruct (n <? 10); [discriminate | apply IH].
Qed.

Lemma decimal_fuel (n : Z) : 0 <= n -> 0 <= n < 2 ^ Z.of_nat (S (Z.to_nat (Z.log2 n))).
Proof.
  intros Hn. split; [exact Hn|].
  rewrite Nat2Z.inj_succ, Z2Nat.id by apply Z.log2_nonneg.
  destruct (Z.eq_dec n 0) as [->|Hne]; [reflexivity|].
  apply Z.log2_spec. lia.
Qed.

Lemma lstrip_digits (P : ascii -> Prop) (l : list ascii) :
  (forall c, P c -> is_space c = false) ->
  match l with c :: _ => P c | [] => True end -> lstrip l = l.
Proof.
  intros HP. destruct l as [|c l]; [reflexivity|]. intros Hc.
  cbn [lstrip]. now rewrite (HP c Hc).
Qed.

Lemma strip_no_space (l : list ascii) :
  Forall (fun c => is_space c = false) l -> strip l = l.
Proof.
  intros H. unfold strip.
  assert (Hl : lstrip l = l).
  { destruct H as [|c l Hc _]; [reflexivity|]. cbn [lstrip]. now rewrite Hc. }
  rewrite Hl.
  assert (Hr : lstrip (rev l) = rev l).
  { apply List.Forall_rev in H. destruct H as [|c l' Hc _]; [reflexivity|].
    cbn [lstrip]. now rewrite Hc. }
  rewrite Hr. apply rev_involutive.
Qed.

(** The characters of [str(z)]: digits, after a minus sign when [z] is
    negative. *)
Lemma str_of_Z_chars (P : ascii -> Prop) (z : Z) :
  (forall d, 0 <= d <= 9 -> P (digit_char d)) -> P "-"%char ->
  Forall P (list_ascii_of_string (str_of_Z z)).
Proof.
  intros Hd Hm. unfold str_of_Z. rewrite list_ascii_of_string_of_list_ascii.
  destruct (z <? 0); [constructor; [exact Hm|]|]; apply digits_of_chars; auto.
Qed.

Lemma read_decimal (n : Z) :
  0 <= n -> exists k, 0 < k /\ read_digits (decimal n) 0 0 = (n, k, []).
Proof.
  intros Hn. unfold decimal.
  destruct (read_digits_digits_of _ n [] (decimal_fuel n Hn)) as (k & Hk & Hread).
  exists k. split; [exact Hk|]. rewrite Hread. cbn [read_digits].
  now rewrite Z.mul_0_l.
Qed.

(** [int(str(z)) == z]: a chat id is read back from its key. *)
Lemma int_of_str_of_Z (z : Z) : int_of_str (str_of_Z z) = Some z.
Proof.
  unfold int_of_str.
  rewrite strip_no_space.
  2:{ apply str_of_Z_chars; [|reflexivity]. intros d Hd. apply digit_char_facts, Hd. }
  unfold str_of_Z. rewrite list_ascii_of_string_of_list_ascii.
  destruct (Z.ltb_spec z 0) as [Hneg|Hpos].
  - change (Ascii.eqb "-" "-") with true. cbv beta iota.
    destruct (read_decimal (- z) ltac:(lia)) as (k & Hk & ->).
    destruct (Z.ltb_spec 0 k); [|lia]. f_equal. lia.
  - pose proof (digits_of_nonempty (Z.to_nat (Z.log2 z)) z []) as Hne.
    assert (Hall : Forall (fun c => exists d, 0 <= d <= 9 /\ c = digit_char d)
                          (digits_of (S (Z.to_nat (Z.log2 z))) z [])).
    { apply digits_of_chars; [|constructor]. intros d Hd. exists d. auto. }
    destruct (read_decimal z Hpos) as (k & Hk & Hread). unfold decimal in *.
    destruct (digits_of (S (Z.to_nat (Z.log2 z))) z []) as [|c r]; [congruence|].
    inversion Hall as [|? ? (d & Hd & ->) _]; subst.
    destruct (digit_char_facts d Hd) as (_ & _ & -> & -> & _).
    rewrite Hread. destruct (Z.ltb_spec 0 k); [reflexivity | lia].
Qed.

(** ** [split] *)

Lemma split_on_none (sep : ascii) (s : string) :
  Forall (fun c => Ascii.eqb c sep = false) (list_ascii_of_string s) ->
  split_on sep s = [s].
Proof.
  induction s as [|a s IH]; simpl; intros H; [reflexivity|].
  inversion H as [|? ? Ha Hs]; subst. rewrite Ha, (IH Hs). reflexivity.
Qed.

Lemma split_on_app (sep : ascii) (s1 s2 : string) :
  Forall (fun c => Ascii.eqb c sep = false) (list_ascii_of_string s1) ->
  split_on sep (String.append s1 (String sep s2)) = s1 :: split_on sep s2.
Proof.
  induction s1 as [|a s1 IH]; simpl; intros H.
  - now rewrite Ascii.eqb_refl.
  - inversion H as [|? ? Ha Hs]; subst. rewrite Ha, (IH Hs). reflexivity.
Qed.

(* ===================================================================== *)
(** * [escape_markdown]                                                   *)
(* ===================================================================== *)

Lemma replace_escaped_escape_with (c : ascii) (s : string) :
  replace_escaped c s = Bot.escape_with (fun a => Ascii.eqb a c) s.
Proof. induction s as [|a s IH]; simpl; [reflexivity|]. now rewrite IH. Qed.

Lemma escape_with_ext (p q : ascii -> bool) (s : string) :
  (forall a, p a = q a) -> Bot.escape_with p s = Bot.escape_with q s.
Proof.
  intros H. induction s as [|a s IH]; simpl; [reflexivity|]. now rewrite H, IH.
Qed.

(** Two passes that escape different characters, neither the backslash,
    make one pass. *)
Lemma escape_with_compose (p q : ascii -> bool) (s : string) :
  q backslash = false -> (forall a, p a = true -> q a = false) ->
  Bot.escape_with q (Bot.escape_with p s) = Bot.escape_with (fun a => p a || q a) s.
Proof.
  intros Hb Hpq. induction s as [|a s IH]; simpl; [reflexivity|].
  destruct (p a) eqn:Hp; simpl.
  - rewrite Hb, (Hpq a Hp), IH. reflexivity.
  - destruct (q a); now rewrite IH.
Qed.

Lemma fold_replace_escaped (cs : list ascii) :
  NoDup cs -> ~ In backslash cs ->
  forall text,
    fold_left (fun t char => replace_escaped char t) cs text =
    Bot.escape_with (fun a => existsb (Ascii.eqb a) cs) text.
Proof.
  induction 1 as [|c cs Hc Hnd IH]; intros Hb text; simpl.
  - induction text as [|a text IHt]; simpl; [reflexivity|]. now rewrite <- IHt.
  - rewrite IH by (intros Hin; apply Hb; now right).
    rewrite replace_escaped_escape_with, escape_with_compose.
    + reflexivity.
    + apply not_true_is_false. intros Hex. apply existsb_exists in Hex as (x & Hx & Heq).
      apply Ascii.eqb_eq in Heq. subst x. apply Hb. now right.
    + intros a Ha. apply Ascii.eqb_eq in Ha. subst a.
      apply not_true_is_false. intros Hex. apply existsb_exists in Hex as (x & Hx & Heq).
      apply Ascii.eqb_eq in Heq. subst x. apply Hc. now apply list_elem_of_In.
Qed.

Lemma escape_markdown_one_pass (text : string) :
  Bot.escape_markdown text = Bot.escape_with Bot.is_special text.
Proof.
  unfold Bot.escape_markdown. rewrite fold_replace_escaped.
  - reflexivity.
  - apply (bool_decide_unpack _). vm_compute. reflexivity.
  - intros H. apply list_elem_of_In in H. revert H.
    apply (bool_decide_unpack _). vm_compute. reflexivity.
Qed.

Lemma escape_with_length (p : ascii -> bool) (s : string) :
  String.length (Bot.escape_with p s) = (String.length s + Bot.count_chars p s)%nat.
Proof.
  induction s as [|a s IH]; simpl; [reflexivity|].
  destruct (p a); simpl; rewrite IH; lia.
Qed.

Lemma escape_with_injective (p : ascii -> bool) :
  p backslash = false ->
  forall s1 s2, Bot.escape_with p s1 = Bot.escape_with p s2 -> s1 = s2.
Proof.
  intros Hb.
  assert (Hhead : forall a s E, p a = true -> Bot.escape_with p s = String a E -> False).
  { intros a s E Ha H. destruct s as [|c s]; simpl in H; [discriminate|].
    destruct (p c) eqn:Hc; inversion H; subst; congruence. }
  induction s1 as [|a s1 IH]; intros [|b s2] H; simpl in H.
  - reflexivity.
  - destruct (p b); discriminate.
  - destruct (p a); discriminate.
  - destruct (p a) eqn:Ha, (p b) eqn:Hpb; inversion H; subst.
    + f_equal. now apply IH.
    + exfalso. eapply (Hhead a s2); eauto.
    + exfalso. eapply (Hhead b s1); eauto.
    + f_equal. now apply IH.
Qed.

Lemma escape_with_well_escaped (p : ascii -> bool) (s : string) :
  p backslash = false -> Bot.has_backslash s = false ->
  Bot.well_escaped p (Bot.escape_with p s) = true.
Proof.
  intros Hb. unfold Bot.has_backslash.
  induction s as [|a s IH]; simpl; [reflexivity|].
  intros H. apply orb_false_elim in H as [Ha Hs].
  destruct (p a) eqn:Hp; simpl.
  - now apply IH.
  - rewrite Ha, Hp. simpl. now apply IH.
Qed.

(** X1. [escape_markdown], a loop of eighteen replacements, is one
    pass over the text that puts a backslash before each of the eighteen
    characters and leaves the others, the backslash too, as they are. So
    it adds one character for each special character and never gives two
    texts the same escaped text. A text without backslash comes out
    well escaped; a text with a backslash need not, the backslash before a
    dot comes out as an escaped backslash before a bare dot. *)
Theorem escape_markdown_is_one_pass :
  (forall text, Bot.escape_markdown text = Bot.escape_with Bot.is_special text) /\
  (forall text,
     String.length (Bot.escape_markdown text) =
     (String.length text + Bot.count_chars Bot.is_special text)%nat) /\
  (forall t1 t2, Bot.escape_markdown t1 = Bot.escape_markdown t2 -> t1 = t2) /\
  (forall text,
     Bot.has_backslash text = false ->
     Bot.well_escaped Bot.is_special (Bot.escape_markdown text) = true) /\
  Bot.well_escaped Bot.is_special
    (Bot.escape_markdown (String backslash ".")) = false.
Proof.
  split; [exact escape_markdown_one_pass|]. split; [|split; [|split]].
  - intros text. rewrite escape_markdown_one_pass. apply escape_with_length.
  - intros t1 t2. rewrite !escape_markdown_one_pass.
    apply escape_with_injective. reflexivity.
  - intros text H. rewrite escape_markdown_one_pass.
    now apply escape_with_well_escaped.
  - reflexivity.
Qed.

Lemma escape_markdown_is_one_pass_witness :
  Bot.well_escaped Bot.is_special (Bot.escape_markdown "Fed cut (25bp) in Mar. 2026?") = true.
Proof.
  apply (proj1 (proj2 (proj2 (proj2 escape_markdown_is_one_pass)))). reflexivity.
Defined.

(* ===================================================================== *)
(** * The hours: [format_hour_display], the keyboard and its callback     *)
(* ===================================================================== *)

Lemma in_day_hours (h : Z) :
  0 <= h <= 23 -> In h (List.map Z.of_nat (seq 0 24)).
Proof.
  intros H. apply in_map_iff. exists (Z.to_nat h). split; [lia|].
  apply in_seq. lia.
Qed.

Lemma day_hours_check (f : Z -> bool) :
  forallb f (List.map Z.of_nat (seq 0 24)) = true ->
  forall h, 0 <= h <= 23 -> f h = true.
Proof.
  intros Hall h Hh. rewrite forallb_forall in Hall. apply Hall, in_day_hours, Hh.
Qed.

(** X2. [format_hour_display] on the hours of a day is the 12-hour clock, and
    shows different hours differently. Past 23 it does not: 24 is shown as
    12 PM is. *)
Theorem format_hour_display_is_12_hour_clock :
  (forall h, 0 <= h <= 23 ->
     Bot.format_hour_display h =
     String.append (str_of_Z (Bot.hour12 h)) (if h <? 12 then ":00 AM" else ":00 PM")) /\
  (forall h1 h2, 0 <= h1 <= 23 -> 0 <= h2 <= 23 ->
     Bot.format_hour_display h1 = Bot.format_hour_display h2 -> h1 = h2) /\
  Bot.format_hour_display 24 = Bot.format_hour_display 12.
Proof.
  split; [|split].
  - intros h Hh.
    apply String.eqb_eq.
    apply (day_hours_check
             (fun h => String.eqb (Bot.format_hour_display h)
                         (String.append (str_of_Z (Bot.hour12 h))
                                        (if h <? 12 then ":00 AM" else ":00 PM"))));
      [vm_compute; reflexivity | exact Hh].
  - intros h1 h2 H1 H2 Heq.
    assert (Hcheck : implb (String.eqb (Bot.format_hour_display h1) (Bot.format_hour_display h2))
                           (h1 =? h2) = true).
    { apply (day_hours_check
               (fun a => forallb
                  (fun b => implb (String.eqb (Bot.format_hour_display a)
                                              (Bot.format_hour_display b))
                                  (a =? b))
                  (List.map Z.of_nat (seq 0 24)))) in H1; [|vm_compute; reflexivity].
      rewrite forallb_forall in H1. apply H1, in_day_hours, H2. }
    rewrite Heq, String.eqb_refl in Hcheck. simpl in Hcheck. lia.
  - reflexivity.
Qed.

Lemma format_hour_display_is_12_hour_clock_witness :
  Bot.format_hour_display 16 = "4:00 PM".
Proof.
  rewrite (proj1 format_hour_display_is_12_hour_clock 16); [reflexivity | lia].
Defined.

Lemma settime_data (h : Z) :
  split_on "_" (String.append "settime_" (str_of_Z h)) = ["settime"; str_of_Z h].
Proof.
  change (String.append "settime_" (str_of_Z h))
    with (String.append "settime" (String "_" (str_of_Z h))).
  rewrite split_on_app by (vm_compute; repeat constructor).
  rewrite split_on_none; [reflexivity|].
  apply str_of_Z_chars; [|reflexivity]. intros d Hd. apply digit_char_facts, Hd.
Qed.

Lemma parse_hour_settime (h : Z) :
  Bot.parse_hour (String.append "settime_" (str_of_Z h)) =
  if (0 <=? h) && (h <=? 23) then Some h else None.
Proof.
  unfold Bot.parse_hour. rewrite settime_data. cbn [nth_error].
  rewrite int_of_str_of_Z.
  destruct (Z.ltb_spec h 0), (Z.ltb_spec 23 h), (Z.leb_spec 0 h), (Z.leb_spec h 23);
    simpl; try reflexivity; lia.
Qed.

Lemma parse_hour_range (data : string) (h : Z) :
  Bot.parse_hour data = Some h -> 0 <= h <= 23.
Proof.
  unfold Bot.parse_hour.
  destruct (nth_error (split_on "_" data) 1) as [field|]; [|discriminate].
  destruct (int_of_str field) as [x|]; [|discriminate].
  destruct (Z.ltb_spec x 0), (Z.ltb_spec 23 x); simpl; try discriminate.
  intros [= <-]. lia.
Qed.

Lemma keyboard_buttons :
  List.concat Bot.keyboard =
  List.map (fun h => (Bot.format_hour_display h, String.append "settime_" (str_of_Z h)))
           (List.map Z.of_nat (seq 0 24)).
Proof. vm_compute. reflexivity. Qed.

(* ===================================================================== *)
(** * The subscriptions                                                   *)
(* ===================================================================== *)

Section Dict.
Import Bot.

Lemma dict_get_set_eq (k : string) (v : chat_data) (d : store) :
  dict_get k (dict_set k v d) = Some v.
Proof.
  induction d as [|[k' v'] d IH]; simpl.
  - now rewrite String.eqb_refl.
  - destruct (String.eqb_spec k' k) as [->|Hne]; simpl.
    + now rewrite String.eqb_refl.
    + destruct (String.eqb_spec k' k); [contradiction | exact IH].
Qed.

Lemma dict_get_set_ne (k k0 : string) (v : chat_data) (d : store) :
  k0 <> k -> dict_get k0 (dict_set k v d) = dict_get k0 d.
Proof.
  intros Hne. induction d as [|[k' v'] d IH]; simpl.
  - destruct (String.eqb_spec k k0); [congruence | reflexivity].
  - destruct (String.eqb_spec k' k) as [->|Hk]; simpl.
    + destruct (String.eqb_spec k k0); [congruence | reflexivity].
    + now rewrite IH.
Qed.

Lemma dict_get_In (k : string) (v : chat_data) (d : store) :
  dict_get k d = Some v -> In (k, v) d.
Proof.
  induction d as [|[k' v'] d IH]; simpl; [discriminate|].
  destruct (String.eqb_spec k' k) as [->|Hne].
  - intros [= ->]. now left.
  - intros H. right. now apply IH.
Qed.

Lemma dict_get_None (k : string) (d : store) :
  dict_get k d = None <-> ~ In k (keys d).
Proof.
  unfold keys. induction d as [|[k' v'] d IH]; simpl; [tauto|].
  destruct (String.eqb_spec k' k) as [->|Hne].
  - split; [discriminate | intros H; exfalso; apply H; now left].
  - rewrite IH. tauto.
Qed.

Lemma In_dict_get (k : string) (v : chat_data) (d : store) :
  NoDup (keys d) -> In (k, v) d -> dict_get k d = Some v.
Proof.
  unfold keys. induction d as [|[k' v'] d IH]; simpl; [contradiction|].
  intros Hnd Hin. apply NoDup_cons in Hnd as [Hk Hnd]. rewrite list_elem_of_In in Hk.
  destruct Hin as [[= -> ->]|Hin].
  - now rewrite String.eqb_refl.
  - destruct (String.eqb_spec k' k) as [->|Hne]; [|now apply IH].
    exfalso. apply Hk. apply in_map_iff. now exists (k, v).
Qed.

Lemma keys_dict_set (k : string) (v : chat_data) (d : store) :
  keys (dict_set k v d) =
  match dict_get k d with Some _ => keys d | None => keys d ++ [k] end.
Proof.
  unfold keys. induction d as [|[k' v'] d IH]; simpl; [reflexivity|].
  destruct (String.eqb_spec k' k) as [->|Hne]; simpl; [reflexivity|].
  rewrite IH. now destruct (dict_get k d).
Qed.

Lemma NoDup_dict_set (k : string) (v : chat_data) (d : store) :
  NoDup (keys d) -> NoDup (keys (dict_set k v d)).
Proof.
  intros Hnd. rewrite keys_dict_set.
  destruct (dict_get k d) eqn:Hget; [exact Hnd|].
  apply dict_get_None in Hget.
  apply NoDup_app. repeat split; [exact Hnd | | apply NoDup_singleton].
  intros x Hx Hx'. apply list_elem_of_In in Hx. apply list_elem_of_singleton in Hx'.
  now subst.
Qed.

Lemma keys_dict_del (k : string) (d : store) (x : string) :
  In x (keys (dict_del k d)) -> In x (keys d).
Proof.
  unfold keys. induction d as [|[k' v'] d IH]; simpl; [tauto|].
  destruct (String.eqb_spec k' k) as [->|Hne]; simpl; [tauto|].
  intros [H|H]; [now left | right; now apply IH].
Qed.

Lemma NoDup_dict_del (k : string) (d : store) :
  NoDup (keys d) -> NoDup (keys (dict_del k d)).
Proof.
  unfold keys. induction d as [|[k' v'] d IH]; simpl; intros Hnd; [exact Hnd|].
  apply NoDup_cons in Hnd as [Hk Hnd]. rewrite list_elem_of_In in Hk.
  destruct (String.eqb_spec k' k) as [->|Hne]; simpl; [exact Hnd|].
  apply NoDup_cons. split; [|now apply IH].
  rewrite list_elem_of_In. intros Hin. apply Hk. now apply (keys_dict_del k d).
Qed.

Lemma dict_get_del_eq (k : string) (d : store) :
  NoDup (keys d) -> dict_get k (dict_del k d) = None.
Proof.
  unfold keys. induction d as [|[k' v'] d IH]; simpl; intros Hnd; [reflexivity|].
  apply NoDup_cons in Hnd as [Hk Hnd]. rewrite list_elem_of_In in Hk.
  destruct (String.eqb_spec k' k) as [->|Hne]; simpl.
  - now apply dict_get_None.
  - destruct (String.eqb_spec k' k); [contradiction | now apply IH].
Qed.

Lemma dict_get_del_ne (k k0 : string) (d : store) :
  k0 <> k -> dict_get k0 (dict_del k d) = dict_get k0 d.
Proof.
  intros Hne. induction d as [|[k' v'] d IH]; simpl; [reflexivity|].
  destruct (String.eqb_spec k' k) as [->|Hk]; simpl.
  - destruct (String.eqb_spec k k0); [congruence | reflexivity].
  - now rewrite IH.
Qed.

End Dict.

Lemma str_of_Z_injective (a b : Z) : str_of_Z a = str_of_Z b -> a = b.
Proof.
  intros H. apply (f_equal int_of_str) in H.
  rewrite !int_of_str_of_Z in H. congruence.
Qed.

Section Subscriptions.
Import Bot.

Lemma hour_matches (data : chat_data) (h : Z) :
  match hour data with Some h' => h' =? h | None => false end = true <-> hour data = Some h.
Proof.
  destruct (hour data) as [h'|]; [|split; discriminate].
  rewrite Z.eqb_eq. split; congruence.
Qed.

Lemma get_chats_for_hour_spec (d : store) (h : Z) :
  numeric_keys d ->
  exists ids,
    get_chats_for_hour d h = Ok ids /\
    (forall id, In id ids <->
                exists data, In (str_of_Z id, data) d /\ hour data = Some h) /\
    (NoDup (keys d) -> NoDup ids).
Proof.
  unfold numeric_keys, keys.
  induction 1 as [|[k data] d [id0 Hk] _ IH]; simpl in *.
  - exists []. split; [reflexivity|]. split; [|constructor].
    intros id. split; [contradiction | intros (? & [] & _)].
  - destruct IH as (ids & Hids & Hmem & Hnd). subst k. rewrite Hids.
    destruct (match hour data with Some h' => h' =? h | None => false end) eqn:Hm.
    + apply hour_matches in Hm. unfold int_of_key. rewrite int_of_str_of_Z. simpl.
      exists (id0 :: ids). split; [reflexivity|]. split.
      * intros id. simpl. rewrite Hmem. split.
        -- intros [->|(dt & Hin & Hh)]; [exists data; auto | exists dt; auto].
        -- intros (dt & [[= Heq ->]|Hin] & Hh).
           ++ left. now apply str_of_Z_injective.
           ++ right. exists dt. auto.
      * intros Hn. apply NoDup_cons in Hn as [Hk Hn]. apply NoDup_cons.
        split; [|now apply Hnd].
        rewrite list_elem_of_In, Hmem. intros (dt & Hin & _). apply Hk.
        apply list_elem_of_In, in_map_iff. now exists (str_of_Z id0, dt).
    + exists ids. split; [reflexivity|]. split.
      * intros id. rewrite Hmem. split.
        -- intros (dt & Hin & Hh). exists dt. auto.
        -- intros (dt & [[= Heq ->]|Hin] & Hh); [|exists dt; auto].
           apply hour_matches in Hh. congruence.
      * intros Hn. apply NoDup_cons in Hn as [_ Hn]. now apply Hnd.
Qed.

Lemma get_chats_for_hour_bad_key (d : store) (h : Z) :
  (exists k data, In (k, data) d /\ hour data = Some h /\ int_of_str k = None) ->
  get_chats_for_hour d h = Raise ValueError.
Proof.
  intros (k & data & Hin & Hh & Hbad).
  induction d as [|[k' data'] d IH]; simpl; [contradiction|].
  destruct Hin as [[= -> ->]|Hin].
  - apply hour_matches in Hh. rewrite Hh. unfold int_of_key. now rewrite Hbad.
  - rewrite (IH Hin).
    destruct (match hour data' with Some h' => h' =? h | None => false end); [|reflexivity].
    unfold int_of_key. now destruct (int_of_str k').
Qed.

Lemma get_chats_for_hour_dict (d : store) (h : Z) :
  NoDup (keys d) -> numeric_keys d ->
  exists ids,
    get_chats_for_hour d h = Ok ids /\
    NoDup ids /\
    (forall id, In id ids <->
                exists data, dict_get (str_of_Z id) d = Some data /\ hour data = Some h).
Proof.
  intros Hnd Hnum.
  destruct (get_chats_for_hour_spec d h Hnum) as (ids & Hids & Hmem & Hnd').
  exists ids. split; [exact Hids|]. split; [now apply Hnd'|].
  intros id. rewrite Hmem. split; intros (dt & Hin & Hh); exists dt; split; try exact Hh.
  - now apply In_dict_get.
  - now apply dict_get_In.
Qed.

(** X3. The chats that are sent the update of an hour. When every key is the
    [str] of a chat id, as the handlers write them, [get_chats_for_hour]
    gives, without repetition, the ids of the chats whose stored hour is
    that hour: a chat is in the list of one hour at most, and a chat whose
    data has no hour is in none, though its time is shown as the default
    8. A key that is no number, on a chat of that hour, makes it raise
    [ValueError]. *)
Theorem chats_for_hour_are_those_of_that_hour (d : store) (h : Z) :
  NoDup (keys d) -> numeric_keys d ->
  exists ids,
    get_chats_for_hour d h = Ok ids /\
    NoDup ids /\
    (forall id, In id ids <->
                exists data, dict_get (str_of_Z id) d = Some data /\ hour data = Some h) /\
    (forall id h' ids',
       In id ids -> h' <> h -> get_chats_for_hour d h' = Ok ids' -> ~ In id ids') /\
    (forall id data,
       dict_get (str_of_Z id) d = Some data -> hour data = None ->
       ~ In id ids /\ hour_or_default data = 8) /\
    (forall k data,
       int_of_str k = None -> hour data = Some h ->
       get_chats_for_hour (d ++ [(k, data)]) h = Raise ValueError).
Proof.
  intros Hnd Hnum.
  destruct (get_chats_for_hour_dict d h Hnd Hnum) as (ids & Hids & Hnd' & Hmem').
  exists ids. split; [exact Hids|]. split; [exact Hnd'|]. split; [exact Hmem'|].
  split; [|split].
  - intros id h' ids' Hin Hne Hids' Hin'.
    destruct (get_chats_for_hour_spec d h' Hnum) as (ids2 & Hids2 & Hmem2 & _).
    rewrite Hids' in Hids2. injection Hids2 as <-.
    apply Hmem' in Hin as (dt & Hget & Hh).
    apply Hmem2 in Hin' as (dt' & Hin' & Hh').
    apply (In_dict_get _ _ _ Hnd) in Hin'. congruence.
  - intros id data Hget Hnone. split; [|unfold hour_or_default; now rewrite Hnone].
    intros Hin. apply Hmem' in Hin as (dt & Hget' & Hh). congruence.
  - intros k data Hbad Hh. apply get_chats_for_hour_bad_key.
    exists k, data. split; [apply in_or_app; right; now left | auto].
Qed.

Lemma chats_for_hour_are_those_of_that_hour_witness :
  exists ids,
    get_chats_for_hour [("123", mk_chat (Some 8)); ("-456", mk_chat (Some 16));
                        ("789", mk_chat None)] 8 = Ok ids /\
    NoDup ids.
Proof.
  destruct (chats_for_hour_are_those_of_that_hour
              [("123", mk_chat (Some 8)); ("-456", mk_chat (Some 16)); ("789", mk_chat None)] 8)
    as (ids & Hids & Hnd & _).
  - apply (bool_decide_unpack _). vm_compute. reflexivity.
  - repeat constructor; [exists 123 | exists (-456) | exists 789]; reflexivity.
  - exists ids. split; [exact Hids | exact Hnd].
Defined.

(** X4. The life of a subscription. With the keys of the dictionary
    distinct, [/subscribe] gives a new chat the default hour 8 and leaves a
    chat that is subscribed as it is, its chosen hour too, so that
    subscribing twice is subscribing once; [/unsubscribe] removes the chat.
    Neither touches another chat, and the keys stay distinct. A command
    that has nothing to do, [/subscribe] on a subscribed chat or
    [/unsubscribe] on one that is not, changes neither the dictionary nor
    the file. *)
Theorem subscribe_keeps_the_chosen_hour (chat_id : Z) (s : state) :
  NoDup (keys (subscribed_chats s)) ->
  let k := str_of_Z chat_id in
  let s1 := fst (subscribe_command chat_id s) in
  let s2 := fst (unsubscribe_command chat_id s) in
  dict_get k (subscribed_chats s1) =
    Some (default (mk_chat (Some DEFAULT_UPDATE_HOUR)) (dict_get k (subscribed_chats s))) /\
  fst (subscribe_command chat_id s1) = s1 /\
  dict_get k (subscribed_chats s2) = None /\
  (forall other,
     other <> chat_id ->
     dict_get (str_of_Z other) (subscribed_chats s1)
       = dict_get (str_of_Z other) (subscribed_chats s) /\
     dict_get (str_of_Z other) (subscribed_chats s2)
       = dict_get (str_of_Z other) (subscribed_chats s)) /\
  NoDup (keys (subscribed_chats s1)) /\ NoDup (keys (subscribed_chats s2)) /\
  (dict_get k (subscribed_chats s) <> None -> s1 = s) /\
  (dict_get k (subscribed_chats s) = None -> s2 = s).
Proof.
  intros Hnd k s1 s2. subst s1 s2. unfold subscribe_command, unsubscribe_command.
  fold k. destruct (dict_get k (subscribed_chats s)) as [data|] eqn:Hget; simpl.
  - rewrite Hget. simpl. rewrite (dict_get_del_eq k _ Hnd).
    split; [reflexivity|]. split; [reflexivity|]. split; [reflexivity|].
    split; [|split; [exact Hnd|split; [now apply NoDup_dict_del|]]].
    + intros other Hne. split; [reflexivity|].
      apply dict_get_del_ne. intros Heq. apply Hne. now apply str_of_Z_injective.
    + split; [reflexivity | discriminate].
  - rewrite dict_get_set_eq. simpl.
    split; [reflexivity|]. split; [reflexivity|]. split; [exact Hget|].
    split; [|split; [now apply NoDup_dict_set | split; [exact Hnd|]]].
    + intros other Hne. split; [|reflexivity].
      apply dict_get_set_ne. intros Heq. apply Hne. now apply str_of_Z_injective.
    + split; [congruence | reflexivity].
Qed.

Lemma subscribe_keeps_the_chosen_hour_witness :
  let s := mk_state [("123", mk_chat (Some 16))] [] in
  dict_get "123" (subscribed_chats (fst (subscribe_command 123 s))) = Some (mk_chat (Some 16)).
Proof.
  intros s.
  destruct (subscribe_keeps_the_chosen_hour 123 s) as (H & _).
  - apply (bool_decide_unpack _). vm_compute. reflexivity.
  - exact H.
Defined.

(** X5. The keyboard of [/settime] and its callback. The keyboard has one
    button for each hour of the day, labelled with that hour. Pressing a
    button on a subscribed chat sets the hour of that chat to the hour of
    the label, writes the file and leaves the other chats alone. The
    callback accepts the data [settime_<h>] exactly when [h] is between 0
    and 23, never sets an hour outside that range, and changes nothing when
    the data is refused or the chat is not subscribed. *)
Theorem every_button_sets_the_hour_it_shows :
  List.map fst (List.concat keyboard) =
    List.map format_hour_display (List.map Z.of_nat (seq 0 24)) /\
  NoDup (List.map fst (List.concat keyboard)) /\
  (forall b chat_id s data,
     In b (List.concat keyboard) ->
     dict_get (str_of_Z chat_id) (subscribed_chats s) = Some data ->
     exists h,
       0 <= h <= 23 /\ fst b = format_hour_display h /\
       snd (settime_callback (snd b) chat_id s) = TimeChanged (escape_markdown (fst b)) /\
       let s' := fst (settime_callback (snd b) chat_id s) in
       dict_get (str_of_Z chat_id) (subscribed_chats s') = Some (mk_chat (Some h)) /\
       saved s' = subscribed_chats s' /\
       forall other, other <> chat_id ->
         dict_get (str_of_Z other) (subscribed_chats s')
         = dict_get (str_of_Z other) (subscribed_chats s)) /\
  (forall h, parse_hour (String.append "settime_" (str_of_Z h)) =
             if (0 <=? h) && (h <=? 23) then Some h else None) /\
  (forall data chat_id s,
     fst (settime_callback data chat_id s) <> s ->
     exists h, parse_hour data = Some h /\ 0 <= h <= 23 /\
               dict_get (str_of_Z chat_id) (subscribed_chats s) <> None).
Proof.
  split; [|split; [|split; [|split]]].
  - rewrite keyboard_buttons, List.map_map. reflexivity.
  - apply (bool_decide_unpack _). vm_compute. reflexivity.
  - intros b chat_id s data Hb Hget.
    rewrite keyboard_buttons in Hb. apply in_map_iff in Hb as (h & <- & Hh).
    apply in_map_iff in Hh as (n & <- & Hn). apply in_seq in Hn.
    exists (Z.of_nat n). split; [lia|]. split; [reflexivity|].
    cbn [fst snd]. unfold settime_callback. rewrite parse_hour_settime.
    destruct (Z.leb_spec 0 (Z.of_nat n)), (Z.leb_spec (Z.of_nat n) 23); try lia.
    simpl. rewrite Hget. simpl. split; [reflexivity|].
    split; [apply dict_get_set_eq|]. split; [reflexivity|].
    intros other Hne. apply dict_get_set_ne.
    intros Heq. apply Hne. now apply str_of_Z_injective.
  - exact parse_hour_settime.
  - intros data chat_id s Hchg. unfold settime_callback in Hchg.
    destruct (parse_hour data) as [h|] eqn:Hp; [|now destruct Hchg].
    exists h. split; [reflexivity|]. split; [now apply (parse_hour_range data)|].
    destruct (dict_get (str_of_Z chat_id) (subscribed_chats s)); [discriminate|].
    now destruct Hchg.
Qed.

Lemma every_button_sets_the_hour_it_shows_witness :
  let s := save [("123", mk_chat (Some 8))] in
  exists h,
    0 <= h <= 23 /\ "4:00 PM" = format_hour_display h /\
    snd (settime_callback "settime_16" 123 s) = TimeChanged (escape_markdown "4:00 PM").
Proof.
  intros s.
  destruct (proj1 (proj2 (proj2 every_button_sets_the_hour_it_shows))
              ("4:00 PM", "settime_16") 123 s (mk_chat (Some 8)))
    as (h & Hh & Hl & Hr & _).
  - vm_compute. do 16 right. left. reflexivity.
  - reflexivity.
  - exists h. auto.
Defined.

End Subscriptions.

Section Load.
Import Bot.

Lemma dict_set_new (k : string) (v : chat_data) (d : store) :
  ~ In k (keys d) -> dict_set k v d = d ++ [(k, v)].
Proof.
  unfold keys. induction d as [|[k' v'] d IH]; simpl; intros Hk; [reflexivity|].
  destruct (String.eqb_spec k' k) as [->|Hne]; [exfalso; apply Hk; now left|].
  rewrite IH; [reflexivity|]. intros Hin. apply Hk. now right.
Qed.

Lemma fold_dict_set_fresh (entries : store) :
  forall d0,
    NoDup (keys d0 ++ keys entries) ->
    fold_left (fun d kv => dict_set (fst kv) (snd kv) d) entries d0 = d0 ++ entries.
Proof.
  unfold keys. induction entries as [|[k v] entries IH]; simpl; intros d0 Hnd.
  - now rewrite app_nil_r.
  - assert (Hk : ~ In k (List.map fst d0)).
    { apply NoDup_app in Hnd as (_ & Hdis & _). intros Hin.
      apply (Hdis k); [now apply list_elem_of_In | left]. }
    rewrite (dict_set_new k v d0 Hk), IH.
    + now rewrite <- app_assoc.
    + rewrite List.map_app. simpl. rewrite <- app_assoc. exact Hnd.
Qed.

Lemma NoDup_fold_dict_set (entries : store) :
  forall d0,
    NoDup (keys d0) ->
    NoDup (keys (fold_left (fun d kv => dict_set (fst kv) (snd kv) d) entries d0)).
Proof.
  induction entries as [|[k v] entries IH]; simpl; intros d0 Hnd; [exact Hnd|].
  apply IH. now apply NoDup_dict_set.
Qed.

Lemma Forall_dict_set (P : string * chat_data -> Prop) (k : string) (v : chat_data)
    (d : store) :
  P (k, v) -> (forall k' v', k' = k -> P (k', v') -> P (k', v)) ->
  Forall P d -> Forall P (dict_set k v d).
Proof.
  intros Hnew Hupd. induction 1 as [|[k' v'] d Hx Hd IH]; simpl.
  - repeat constructor. exact Hnew.
  - destruct (String.eqb_spec k' k) as [->|Hne]; constructor; auto.
Qed.

Lemma old_format_entries (chat_ids : list Z) :
  forall d0,
    let d := fold_left (fun d kv => dict_set (fst kv) (snd kv) d)
               (List.map (fun chat_id => (str_of_Z chat_id, mk_chat (Some DEFAULT_UPDATE_HOUR)))
                         chat_ids) d0 in
    (forall P : string * chat_data -> Prop,
       (forall id, P (str_of_Z id, mk_chat (Some DEFAULT_UPDATE_HOUR))) ->
       Forall P d0 -> Forall P d) /\
    (forall id,
       dict_get (str_of_Z id) d =
       if existsb (Z.eqb id) chat_ids then Some (mk_chat (Some DEFAULT_UPDATE_HOUR))
       else dict_get (str_of_Z id) d0).
Proof.
  induction chat_ids as [|c chat_ids IH]; simpl; intros d0.
  - split; [auto | reflexivity].
  - destruct (IH (dict_set (str_of_Z c) (mk_chat (Some DEFAULT_UPDATE_HOUR)) d0)) as [HP Hget].
    split.
    + intros P Hnew Hd0. apply HP; [exact Hnew|].
      apply Forall_dict_set; [apply Hnew | | exact Hd0].
      intros k' v' -> _. apply Hnew.
    + intros id. rewrite Hget.
      destruct (existsb (Z.eqb id) chat_ids); [now rewrite orb_true_r|].
      rewrite orb_false_r. destruct (Z.eqb_spec id c) as [->|Hne].
      * apply dict_get_set_eq.
      * apply dict_get_set_ne. intros Heq. apply Hne. now apply str_of_Z_injective.
Qed.

Lemma get_chats_for_other_hour (d : store) (h0 h : Z) :
  Forall (fun kv => hour (snd kv) = Some h0) d -> h <> h0 ->
  get_chats_for_hour d h = Ok [].
Proof.
  intros Hall Hne. induction Hall as [|[k data] d Hd _ IH]; simpl; [reflexivity|].
  simpl in Hd. rewrite Hd. destruct (Z.eqb_spec h0 h); [congruence | exact IH].
Qed.

(** X6. Loading the subscriptions. A missing file, a file that cannot be
    opened and a text that is no JSON give no subscription and no error.
    Loading raises in two cases, which the handler does not catch: a file
    that does not decode as text, and JSON that is neither a list nor a
    dictionary. A dictionary comes back as it is. The old format, a list
    of chat ids, gives every chat of the list, once, the default hour 8, so
    that each of them is sent the update of 8 and none the update of
    another hour. *)
Theorem old_subscriptions_get_the_default_hour :
  (forall f e,
     load_subscriptions f = Raise e <->
     (f = NotText /\ e = ValueError) \/ (f = OtherJson /\ e = AttributeError)) /\
  (forall f, f = NoFile \/ f = OpenFails \/ f = NotJson -> load_subscriptions f = Ok []) /\
  (forall entries,
     NoDup (keys entries) -> load_subscriptions (NewFormat entries) = Ok entries) /\
  (forall chat_ids,
     exists d,
       load_subscriptions (OldFormat chat_ids) = Ok d /\
       NoDup (keys d) /\
       (forall id, dict_get (str_of_Z id) d =
                   if existsb (Z.eqb id) chat_ids
                   then Some (mk_chat (Some DEFAULT_UPDATE_HOUR)) else None) /\
       (exists ids,
          get_chats_for_hour d DEFAULT_UPDATE_HOUR = Ok ids /\
          NoDup ids /\ forall id, In id ids <-> In id chat_ids) /\
       (forall h, h <> DEFAULT_UPDATE_HOUR -> get_chats_for_hour d h = Ok [])).
Proof.
  split; [|split; [|split]].
  - intros f e. split.
    + destruct f; simpl; intros H; inversion H; auto.
    + intros [[-> ->]|[-> ->]]; reflexivity.
  - intros f [->|[->| ->]]; reflexivity.
  - intros entries Hnd. unfold load_subscriptions, dict_of.
    now rewrite fold_dict_set_fresh.
  - intros chat_ids. eexists. split; [reflexivity|]. unfold dict_of.
    destruct (old_format_entries chat_ids []) as [HP Hget]. cbv zeta in HP, Hget.
    match type of HP with
    | context [Forall _ (fold_left ?f ?l [])] => set (d := fold_left f l []) in *
    end.
    assert (Hnd : NoDup (keys d)) by (apply NoDup_fold_dict_set; constructor).
    assert (Hnum : numeric_keys d).
    { apply HP; [|constructor]. intros id. now exists id. }
    split; [exact Hnd|]. split; [exact Hget|]. split.
    + destruct (get_chats_for_hour_dict d DEFAULT_UPDATE_HOUR Hnd Hnum)
        as (ids & Hids & Hnd' & Hmem).
      exists ids. split; [exact Hids|]. split; [exact Hnd'|].
      intros id. rewrite Hmem, Hget. split.
      * intros (data & Hd & _).
        destruct (existsb (Z.eqb id) chat_ids) eqn:Hex; [|discriminate].
        apply existsb_exists in Hex as (x & Hx & Heq). apply Z.eqb_eq in Heq. now subst.
      * intros Hin. exists (mk_chat (Some DEFAULT_UPDATE_HOUR)). split; [|reflexivity].
        replace (existsb (Z.eqb id) chat_ids) with true; [reflexivity|].
        symmetry. apply existsb_exists. exists id. split; [exact Hin | apply Z.eqb_refl].
    + intros h Hne. apply (get_chats_for_other_hour d DEFAULT_UPDATE_HOUR); [|exact Hne].
      apply HP; [reflexivity | constructor].
Qed.

Lemma old_subscriptions_get_the_default_hour_witness :
  load_subscriptions (NewFormat [("123", mk_chat (Some 16)); ("456", mk_chat None)])
  = Ok [("123", mk_chat (Some 16)); ("456", mk_chat None)].
Proof.
  apply (proj1 (proj2 (proj2 old_subscriptions_get_the_default_hour))).
  apply (bool_decide_unpack _). vm_compute. reflexivity.
Defined.

End Load.

Section ChatIds.
Import Bot.

Lemma get_chat_ids_spec (d : store) :
  numeric_keys d ->
  exists ids,
    get_chat_ids d = Ok ids /\
    forall id, id ∈ ids <-> In (str_of_Z id) (keys d).
Proof.
  unfold numeric_keys, keys.
  induction 1 as [|[k data] d [id0 Hk] _ IH]; simpl in *.
  - exists ∅. split; [reflexivity|]. intros id. rewrite elem_of_empty. tauto.
  - destruct IH as (ids & Hids & Hmem). subst k.
    unfold int_of_key. rewrite int_of_str_of_Z, Hids. simpl.
    exists ({[ id0 ]} ∪ ids). split; [reflexivity|].
    intros id. rewrite elem_of_union, elem_of_singleton, Hmem. split.
    + intros [->|H]; auto.
    + intros [H|H]; auto. left. symmetry. now apply str_of_Z_injective.
Qed.

Lemma get_chat_ids_bad_key (d : store) (k : string) (data : chat_data) :
  In (k, data) d -> int_of_str k = None -> get_chat_ids d = Raise ValueError.
Proof.
  intros Hin Hbad. induction d as [|[k' data'] d IH]; simpl; [contradiction|].
  destruct Hin as [[= -> ->]|Hin].
  - unfold int_of_key. now rewrite Hbad.
  - rewrite (IH Hin). unfold int_of_key. now destruct (int_of_str k').
Qed.

(** X7. [get_chat_ids] gives the ids of the subscribed chats, whatever their
    hour: when every key is the [str] of a chat id, a chat is in the set
    exactly when it has an entry, and the chats of every hour are among
    them. One key that is no number makes it raise [ValueError], also
    where [get_chats_for_hour] still answers because the chat of that key
    has another hour. *)
Theorem chat_ids_are_the_subscribed_chats (d : store) :
  numeric_keys d ->
  exists ids,
    get_chat_ids d = Ok ids /\
    (forall id, id ∈ ids <-> dict_get (str_of_Z id) d <> None) /\
    (forall h hs id, get_chats_for_hour d h = Ok hs -> In id hs -> id ∈ ids) /\
    (forall k data h hs,
       int_of_str k = None -> hour data <> Some h ->
       get_chats_for_hour d h = Ok hs ->
       get_chat_ids (d ++ [(k, data)]) = Raise ValueError /\
       get_chats_for_hour (d ++ [(k, data)]) h = Ok hs).
Proof.
  intros Hnum. destruct (get_chat_ids_spec d Hnum) as (ids & Hids & Hmem).
  exists ids. split; [exact Hids|]. split; [|split].
  - intros id. rewrite Hmem. pose proof (dict_get_None (str_of_Z id) d) as Hn.
    destruct (dict_get (str_of_Z id) d) as [v|] eqn:Hg.
    + split; [discriminate|]. intros _.
      apply dict_get_In in Hg. unfold keys. apply in_map_iff.
      now exists (str_of_Z id, v).
    + split; [|congruence]. intros Hin. now apply (proj1 Hn) in Hin.
  - intros h hs id Hhs Hin.
    destruct (get_chats_for_hour_spec d h Hnum) as (hs' & Hhs' & Hspec & _).
    rewrite Hhs in Hhs'. inversion Hhs'; subst hs'.
    apply Hspec in Hin as (data & Hin & _). apply Hmem.
    unfold keys. apply in_map_iff. now exists (str_of_Z id, data).
  - intros k data h hs Hbad Hh Hhs. split.
    + apply (get_chat_ids_bad_key _ k data); [|exact Hbad].
      apply in_or_app. right. now left.
    + clear Hids Hmem Hnum. revert hs Hhs.
      induction d as [|[k' data'] d IH]; simpl; intros hs Hhs.
      * destruct (match hour data with Some h' => h' =? h | None => false end) eqn:Hm;
          [|exact Hhs].
        apply hour_matches in Hm. contradiction.
      * destruct (match hour data' with Some h' => h' =? h | None => false end).
        -- destruct (int_of_key k') as [id|e]; simpl in *; [|discriminate].
           destruct (get_chats_for_hour d h) as [ids'|e]; simpl in *; [|discriminate].
           now rewrite (IH ids' eq_refl).
        -- now apply IH.
Qed.

Lemma chat_ids_are_the_subscribed_chats_witness :
  exists ids,
    get_chat_ids [(str_of_Z 5, mk_chat (Some 8)); (str_of_Z (-7), mk_chat None)] = Ok ids /\
    5 ∈ ids /\ (-7) ∈ ids.
Proof.
  destruct (chat_ids_are_the_subscribed_chats
              [(str_of_Z 5, mk_chat (Some 8)); (str_of_Z (-7), mk_chat None)])
    as (ids & Hids & Hmem & _).
  - repeat constructor; simpl; eauto.
  - exists ids. split; [exact Hids|]. split; apply Hmem; vm_compute; discriminate.
Defined.

End ChatIds.

(* ===================================================================== *)
(** * More of the client                                                  *)
(* ===================================================================== *)

(** ** [EventData.get_top_options] *)

Lemma sort_desc_of_descending {A : Type} (key : A -> Z) (l : list A) :
  descending key l -> sort_desc key l = l.
Proof.
  unfold descending. induction 1 as [|x l Hl IH Hx]; simpl; [reflexivity|].
  rewrite IH. destruct Hx as [|y l' Hy _]; simpl; [reflexivity|].
  destruct (Z.ltb_spec (key x) (key y)); [lia | reflexivity].
Qed.

Lemma descending_map {A : Type} (key : A -> Z) (l : list A) :
  descending key l <-> descending (fun z => z) (List.map key l).
Proof.
  unfold descending. induction l as [|x l IH]; simpl.
  - split; constructor.
  - split; intros H; inversion H as [|? ? Hl Hx]; subst; constructor.
    + now apply IH.
    + rewrite List.Forall_forall in *. intros z Hz.
      apply in_map_iff in Hz as (y & <- & Hy). now apply Hx.
    + now apply IH.
    + rewrite List.Forall_forall in *. intros y Hy. apply Hx. now apply in_map.
Qed.

Lemma option_frame_probabilities (os os' : list MarketOption.t) :
  Forall2 option_frame os os' ->
  List.map MarketOption.probability os' = List.map MarketOption.probability os.
Proof.
  induction 1 as [|o o' os os' Ho _ IH]; simpl; [reflexivity|].
  f_equal; [apply Ho | exact IH].
Qed.

(** The options of a returned event are in descending order. *)
Lemma get_top_events_descending (api : candle_api)
    (response : result (option (list EventJson.t)))
    (category : string) (top_n : Z) (sort_by : string) (lg lg' : log)
    (out : list EventData.t) (ed : EventData.t) :
  get_top_events_by_category api response category top_n sort_by lg = (lg', Ok out) ->
  In ed out ->
  descending MarketOption.probability (EventData.options ed).
Proof.
  unfold get_top_events_by_category, rank.
  destruct response as [response|e]; [|discriminate].
  destruct (aggregate category (default [] response)) as [all_events|e] eqn:Hagg; [|discriminate].
  pose proof (sort_events_frame api sort_by lg all_events ed) as Hfr.
  destruct (sort_events api sort_by lg all_events) as [lg1 sorted]. simpl in Hfr.
  intros H Hin. inversion H; subst. apply slice_to_incl in Hin.
  destruct (Hfr Hin) as (e0 & He0 & Hrel).
  destruct (aggregate_In _ _ _ _ Hagg He0) as (ev & _ & Hb).
  apply build_event_spec in Hb as (_ & _ & built & _ & ->).
  assert (Hd : descending MarketOption.probability
                 (sort_desc MarketOption.probability built)) by apply sort_desc_sorted.
  destruct Hrel as [->|Hrel]; [exact Hd|].
  destruct Hrel as (_ & _ & _ & _ & _ & _ & HF). simpl in HF.
  apply (proj2 (descending_map _ _)). rewrite (option_frame_probabilities _ _ HF).
  exact (proj1 (descending_map _ _) Hd).
Qed.

(** X8. [get_top_options(n)] gives the [n] options of highest probability, in
    descending order, ties in the order of the event; with fewer than [n]
    options, all of them. On an event that [get_top_events_by_category]
    returned, whose options are sorted already, they are the first [n]
    options of the event as they stand. *)
Theorem get_top_options_is_a_prefix :
  (forall e n,
     0 <= n ->
     let top := get_top_options e n in
     top = firstn (Z.to_nat n) (sort_desc MarketOption.probability (EventData.options e)) /\
     length top = Nat.min (Z.to_nat n) (length (EventData.options e)) /\
     descending MarketOption.probability top /\
     (forall o, In o top -> In o (EventData.options e)) /\
     (forall o o', In o top -> In o' (EventData.options e) -> ~ In o' top ->
                   MarketOption.probability o' <= MarketOption.probability o)) /\
  (forall api response category top_n sort_by lg lg' out ed n,
     get_top_events_by_category api response category top_n sort_by lg = (lg', Ok out) ->
     In ed out ->
     get_top_options ed n = slice_to n (EventData.options ed)).
Proof.
  split.
  - intros e n Hn top. subst top. unfold get_top_options.
    rewrite slice_to_pos by exact Hn.
    set (sorted := sort_desc MarketOption.probability (EventData.options e)).
    assert (Hperm : Permutation sorted (EventData.options e)) by apply sort_desc_perm.
    assert (Hdesc : descending MarketOption.probability sorted) by apply sort_desc_sorted.
    split; [reflexivity|].
    split; [now rewrite length_firstn, (Permutation_length Hperm)|].
    split; [now apply descending_firstn|].
    split.
    + intros o Ho. apply (Permutation_in _ Hperm). eapply In_firstn; exact Ho.
    + intros o o' Ho Ho' Hnot.
      apply (Permutation_in _ (Permutation_sym Hperm)) in Ho'.
      rewrite <- (firstn_skipn (Z.to_nat n) sorted) in Ho', Hdesc.
      apply in_app_or in Ho' as [Ho'|Ho']; [contradiction|].
      clear Hperm Hnot. unfold descending in Hdesc.
      induction (firstn (Z.to_nat n) sorted) as [|x l IH]; [contradiction|].
      simpl in Hdesc. inversion Hdesc as [|? ? Hl Hx]; subst.
      destruct Ho as [->|Ho]; [|now apply IH].
      rewrite List.Forall_forall in Hx. apply Hx, in_or_app. now right.
  - intros api response category top_n sort_by lg lg' out ed n H Hin.
    unfold get_top_options. f_equal. apply sort_desc_of_descending.
    exact (get_top_events_descending _ _ _ _ _ _ _ _ _ H Hin).
Qed.

Lemma get_top_options_is_a_prefix_witness :
  List.map MarketOption.name
    (get_top_options (Sample.an_event "E" [Sample.opt_b; Sample.opt_a; Sample.opt_b] 50) 2)
  = ["A"; "B"].
Proof.
  destruct (proj1 get_top_options_is_a_prefix
              (Sample.an_event "E" [Sample.opt_b; Sample.opt_a; Sample.opt_b] 50) 2 ltac:(lia))
    as (-> & _).
  reflexivity.
Defined.

(** ** [get_all_categories] *)

Lemma ascii_compare_refl (a : ascii) : Ascii.compare a a = Eq.
Proof. unfold Ascii.compare. apply N.compare_refl. Qed.

Lemma ascii_compare_lt_trans (a b c : ascii) :
  Ascii.compare a b = Lt -> Ascii.compare b c = Lt -> Ascii.compare a c = Lt.
Proof.
  unfold Ascii.compare. rewrite !N.compare_lt_iff. apply N.lt_trans.
Qed.

Lemma string_lt_trans (s1 : string) :
  forall s2 s3,
    String.ltb s1 s2 = true -> String.ltb s2 s3 = true -> String.ltb s1 s3 = true.
Proof.
  unfold String.ltb.
  induction s1 as [|c1 s1 IH]; intros [|c2 s2] [|c3 s3]; simpl; try discriminate; auto.
  destruct (Ascii.compare c1 c2) eqn:H12; try discriminate;
    destruct (Ascii.compare c2 c3) eqn:H23; try discriminate; intros Ha Hb.
  - apply Ascii.compare_eq_iff in H12, H23. subst. rewrite ascii_compare_refl.
    now apply (IH s2 s3).
  - apply Ascii.compare_eq_iff in H12. subst. now rewrite H23.
  - apply Ascii.compare_eq_iff in H23. subst. now rewrite H12.
  - now rewrite (ascii_compare_lt_trans _ _ _ H12 H23).
Qed.

(** Two different strings are in order one way or the other. *)
Lemma string_lt_total (s1 s2 : string) :
  s1 <> s2 -> String.ltb s2 s1 = false -> String.ltb s1 s2 = true.
Proof.
  unfold String.ltb. intros Hne. rewrite (String.compare_antisym s2 s1).
  destruct (String.compare s1 s2) eqn:Hc; simpl; try discriminate; [|reflexivity].
  apply String.compare_eq_iff in Hc. contradiction.
Qed.

Lemma insert_str_perm (x : string) (l : list string) :
  Permutation (insert_str x l) (x :: l).
Proof.
  induction l as [|y l IH]; simpl; [reflexivity|].
  destruct (String.ltb y x); [|reflexivity].
  rewrite IH. apply perm_swap.
Qed.

Lemma sorted_str_perm (l : list string) : Permutation (sorted_str l) l.
Proof.
  induction l as [|x l IH]; simpl; [reflexivity|].
  rewrite insert_str_perm. now apply perm_skip.
Qed.

Lemma insert_str_sorted (x : string) (l : list string) :
  ~ In x l ->
  StronglySorted (fun a b => String.ltb a b = true) l ->
  StronglySorted (fun a b => String.ltb a b = true) (insert_str x l).
Proof.
  intros Hx Hs. induction Hs as [|y l Hl IH Hy]; simpl.
  - repeat constructor.
  - destruct (String.ltb y x) eqn:Hyx.
    + constructor; [apply IH; intros Hin; apply Hx; now right|].
      apply (Permutation_Forall (x := x :: l)); [symmetry; apply insert_str_perm|].
      constructor; [exact Hyx | exact Hy].
    + assert (Hxy : String.ltb x y = true).
      { apply string_lt_total; [|exact Hyx]. intros ->. apply Hx. now left. }
      constructor; [now constructor|].
      constructor; [exact Hxy|].
      eapply List.Forall_impl; [|exact Hy]. simpl. intros z Hz.
      now apply (string_lt_trans x y z).
Qed.

Lemma sorted_str_sorted (l : list string) :
  List.NoDup l -> StronglySorted (fun a b => String.ltb a b = true) (sorted_str l).
Proof.
  induction 1 as [|x l Hx Hnd IH]; simpl; [constructor|].
  apply insert_str_sorted; [|exact IH].
  intros Hin. apply Hx. eapply Permutation_in; [apply sorted_str_perm | exact Hin].
Qed.

Lemma str_truthy_spec (s : string) : str_truthy s = true <-> s <> "".
Proof. destruct s; simpl; split; congruence. Qed.

Lemma fold_add_category (events : list EventJson.t) :
  forall (S : gset string) (c : string),
    c ∈ fold_left add_category events S <->
    c ∈ S \/ (c <> "" /\ exists event, In event events /\ EventJson.category event = Some c).
Proof.
  induction events as [|ev events IH]; simpl; intros S c.
  - split; [auto | intros [H|(_ & ? & [] & _)]; exact H].
  - rewrite IH. unfold add_category at 1.
    destruct (EventJson.category ev) as [cat|] eqn:Hcat; simpl.
    + destruct (str_truthy cat) eqn:Ht.
      * apply str_truthy_spec in Ht. rewrite elem_of_union, elem_of_singleton. split.
        -- intros [[->|H]|(Hne & e & Hin & He)]; auto.
           ++ right. split; [exact Ht|]. exists ev. auto.
           ++ right. split; [exact Hne|]. exists e. auto.
        -- intros [H|(Hne & e & [<-|Hin] & He)]; auto.
           ++ left. left. congruence.
           ++ right. split; [exact Hne|]. exists e. auto.
      * assert (cat = "") as -> by (destruct cat; [reflexivity | discriminate]).
        split.
        -- intros [H|(Hne & e & Hin & He)]; auto.
           right. split; [exact Hne|]. exists e. auto.
        -- intros [H|(Hne & e & [<-|Hin] & He)]; auto; [congruence|].
           right. split; [exact Hne|]. exists e. auto.
    + split.
      * intros [H|(Hne & e & Hin & He)]; auto.
        right. split; [exact Hne|]. exists e. auto.
      * intros [H|(Hne & e & [<-|Hin] & He)]; auto; [congruence|].
        right. split; [exact Hne|]. exists e. auto.
Qed.

(** X9. [get_all_categories] gives the categories of the events in strictly
    ascending order, so each of them once: a string is in the list exactly
    when it is not empty and is the category of some event. An event
    without category, or with an empty one, adds nothing. *)
Theorem get_all_categories_sorted_and_exact (events : list EventJson.t) :
  let categories := get_all_categories events in
  StronglySorted (fun a b => String.ltb a b = true) categories /\
  List.NoDup categories /\
  (forall c, In c categories <->
             c <> "" /\ exists event, In event events /\ EventJson.category event = Some c) /\
  (forall event,
     EventJson.category event = None \/ EventJson.category event = Some "" ->
     get_all_categories (event :: events) = get_all_categories events).
Proof.
  intros categories. subst categories. unfold get_all_categories.
  set (S := fold_left add_category events ∅).
  assert (Hnd : List.NoDup (elements S)).
  { apply NoDup_ListNoDup, NoDup_elements. }
  assert (Hmem : forall c, In c (sorted_str (elements S)) <->
            c <> "" /\ exists event, In event events /\ EventJson.category event = Some c).
  { intros c. split.
    - intros Hin. apply (Permutation_in _ (sorted_str_perm _)) in Hin.
      apply list_elem_of_In, elem_of_elements in Hin.
      apply fold_add_category in Hin as [Hin|Hin]; [|exact Hin].
      now apply not_elem_of_empty in Hin.
    - intros H. apply (Permutation_in _ (Permutation_sym (sorted_str_perm _))).
      apply list_elem_of_In, elem_of_elements, fold_add_category. now right. }
  split; [now apply sorted_str_sorted|].
  split; [|split; [exact Hmem|]].
  - eapply Permutation_NoDup; [symmetry; apply sorted_str_perm | exact Hnd].
  - intros event Hcat. simpl. unfold add_category at 2.
    destruct Hcat as [-> | ->]; reflexivity.
Qed.

Lemma get_all_categories_sorted_and_exact_witness :
  In "Financials" (get_all_categories [Sample.uncategorised; Sample.bitcoin; Sample.fed]) /\
  get_all_categories [Sample.uncategorised; Sample.bitcoin; Sample.fed]
  = get_all_categories [Sample.bitcoin; Sample.fed].
Proof.
  split.
  - destruct (get_all_categories_sorted_and_exact
                [Sample.uncategorised; Sample.bitcoin; Sample.fed]) as (_ & _ & Hmem & _).
    apply Hmem. split; [discriminate|].
    exists Sample.fed. split; [right; right; left|]; reflexivity.
  - destruct (get_all_categories_sorted_and_exact [Sample.bitcoin; Sample.fed])
      as (_ & _ & _ & Hskip).
    apply Hskip. left. reflexivity.
Defined.

(** ** [_parse_market] *)

Lemma safe_float_spec (v : option pyval) :
  safe_float (get_or_none v) =
  if overflows v then Raise OverflowError else Ok (price_or_zero v).
Proof.
  destruct v as [[|b|z|f|s| |]|]; simpl; try reflexivity.
  - destruct (float_of_Z z); reflexivity.
  - destruct (float_of_str s); reflexivity.
Qed.

Lemma safe_int_spec (v : option pyval) :
  safe_int (get_or_none v) =
  if infinite v then Raise OverflowError else Ok (count_or_zero v).
Proof.
  destruct v as [[|b|z|f|s| |]|]; simpl; try reflexivity.
  - destruct f; reflexivity.
  - destruct (int_of_str s); reflexivity.
Qed.

Lemma parse_market_spec (c : market_ctx) :
  _parse_market (ctx_market c) (ctx_event_title c) (ctx_category c) =
  if price_overflows (ctx_market c) || count_overflows (ctx_market c)
  then Raise OverflowError else Ok (parsed c).
Proof.
  unfold _parse_market, price_overflows, count_overflows, parsed.
  rewrite !safe_float_spec, !safe_int_spec.
  destruct (overflows (MarketDict.yes_bid_dollars (ctx_market c))); [reflexivity|].
  destruct (overflows (MarketDict.yes_ask_dollars (ctx_market c))); [reflexivity|].
  destruct (overflows (MarketDict.last_price_dollars (ctx_market c))); [reflexivity|].
  destruct (overflows (MarketDict.previous_price_dollars (ctx_market c))); [reflexivity|].
  destruct (infinite (MarketDict.volume_24h (ctx_market c))); [reflexivity|].
  destruct (infinite (MarketDict.open_interest (ctx_market c))); reflexivity.
Qed.

Lemma py_int_no_type_error (f : spec_float) : py_int f <> Raise TypeError.
Proof. destruct f; discriminate. Qed.

(** X10. [_parse_market] turns a market dictionary into a [MarketData]: a
    missing or null price, or one on which [float] raises [ValueError] or
    [TypeError], becomes [0.0]; a missing or null count, or one on which
    [int] raises [ValueError] or [TypeError], becomes [0]; an integer
    count is kept. It fails in two cases, both with the [OverflowError]
    that [safe_float] and [safe_int] do not catch: a price given as an
    integer beyond the range of a float, and a count given as an infinite
    float. *)
Theorem parse_market_fails_only_on_overflow (m : MarketDict.t) (title category : string) :
  (forall e, _parse_market m title category = Raise e <->
             e = OverflowError /\ (price_overflows m = true \/ count_overflows m = true)) /\
  (price_overflows m = false -> count_overflows m = false ->
   exists md,
     _parse_market m title category = Ok md /\
     md = parsed (mk_ctx m title category) /\
     (MarketDict.volume_24h m = None \/
      MarketDict.volume_24h m = Some PyNone \/
      (exists v, MarketDict.volume_24h m = Some v /\
                 (py_int_of v = Raise ValueError \/ py_int_of v = Raise TypeError)) ->
      MarketData.volume_24h md = 0) /\
     (forall z, MarketDict.volume_24h m = Some (PyInt z) -> MarketData.volume_24h md = z) /\
     (integer_volume m ->
      MarketData.volume_24h md = or0 (MarketJson.volume_24h (MarketDict.to_json m))) /\
     (MarketDict.yes_bid_dollars m = None \/
      MarketDict.yes_bid_dollars m = Some PyNone \/
      (exists v, MarketDict.yes_bid_dollars m = Some v /\
                 (py_float v = Raise ValueError \/ py_float v = Raise TypeError)) ->
      MarketData.yes_price md = fzero)).
Proof.
  pose proof (parse_market_spec (mk_ctx m title category)) as H. simpl in H.
  split.
  - intros e. rewrite H. split.
    + destruct (price_overflows m); [intros He; inversion He; auto|].
      destruct (count_overflows m); [intros He; inversion He; auto|]. discriminate.
    + intros [-> [-> | ->]]; [reflexivity | now rewrite orb_true_r].
  - intros Hp Hc. rewrite Hp, Hc in H. eexists. split; [exact H|].
    split; [reflexivity|]. split; [|split; [|split]].
    + simpl. intros [->| [->| (v & -> & [Hv|Hv])]]; simpl; try reflexivity;
        now rewrite Hv.
    + simpl. intros z ->. reflexivity.
    + unfold integer_volume. simpl.
      destruct (MarketDict.volume_24h m) as [[|b|z|f|s| |]|]; simpl;
        try contradiction; reflexivity.
    + simpl. intros [->| [->| (v & -> & [Hv|Hv])]]; simpl; try reflexivity;
        now rewrite Hv.
Qed.

Lemma parse_market_fails_only_on_overflow_witness :
  exists md,
    _parse_market (SampleMarkets.market "B" (Some (PyStr "n/a")) (Some (PyStr "many")) "active")
                  "T" "C" = Ok md /\
    MarketData.yes_price md = fzero /\ MarketData.volume_24h md = 0.
Proof.
  destruct (proj2 (parse_market_fails_only_on_overflow
                     (SampleMarkets.market "B" (Some (PyStr "n/a")) (Some (PyStr "many"))
                                           "active") "T" "C")
                  eq_refl eq_refl)
    as (md & Hmd & _ & Hvol & _ & _ & Hprice).
  exists md. split; [exact Hmd|]. split.
  - apply Hprice. right. right. exists (PyStr "n/a"). split; [reflexivity|].
    left. reflexivity.
  - apply Hvol. right. right. exists (PyStr "many"). split; [reflexivity|].
    left. reflexivity.
Defined.

(** ** [MarketData.probability_pct] and [MarketData.sentiment] *)

Lemma probability_of_float (f : spec_float) :
  match py_int (fmul f hundred) with
  | Raise ValueError | Raise TypeError => Ok 0
  | r => r
  end =
  match py_int (fmul f hundred) with
  | Raise ValueError => Ok 0
  | r => r
  end.
Proof.
  destruct (py_int (fmul f hundred)) as [p|[]] eqn:Hp; try reflexivity.
  now apply py_int_no_type_error in Hp.
Qed.

Lemma probability_of_price (v : option pyval) :
  overflows v = false ->
  probability_of (default (PyStr "0") v) =
  match py_int (fmul (price_or_zero v) hundred) with
  | Raise ValueError => Ok 0
  | r => r
  end.
Proof.
  intros Hov. destruct v as [[|b|z|f|s| |]|]; try reflexivity;
    unfold probability_of, price_or_zero, default; cbn [id py_float].
  - apply (probability_of_float (if b then fone else fzero)).
  - cbn [overflows] in Hov.
    destruct (float_of_Z z) eqn:Hz; try discriminate; cbn [bind];
      rewrite <- Hz; apply probability_of_float.
  - apply probability_of_float.
  - destruct (float_of_str s) as [f|]; cbn [bind]; [apply probability_of_float|reflexivity].
Qed.

(** X11. For a parsed market, [probability_pct] is the probability that
    [get_top_events_by_category] gives the option of the same market,
    except where it raises [ValueError] (a bid that reads as [nan]), which
    the events pipeline turns into 0. An infinite bid raises
    [OverflowError] in both. *)
Theorem parsed_probability_agrees_with_option
    (m : MarketDict.t) (title category : string) (md : MarketData.t) :
  _parse_market m title category = Ok md ->
  probability_of (yes_price_of (MarketDict.to_json m)) =
  match MarketData.probability_pct md with
  | Raise ValueError => Ok 0
  | r => r
  end.
Proof.
  pose proof (parse_market_spec (mk_ctx m title category)) as H. simpl in H.
  rewrite H. destruct (price_overflows m) eqn:Hov; [discriminate|].
  destruct (count_overflows m); [discriminate|]. simpl.
  intros Hmd. inversion Hmd; subst md. clear Hmd H.
  unfold MarketData.probability_pct, parsed, yes_price_of. simpl.
  apply probability_of_price. unfold price_overflows in Hov.
  now destruct (overflows (MarketDict.yes_bid_dollars m)).
Qed.

Lemma parsed_probability_agrees_with_option_witness :
  probability_of (yes_price_of (MarketDict.to_json
    (SampleMarkets.market "A" (Some (PyStr "nan")) None "active"))) = Ok 0 /\
  MarketData.probability_pct
    (parsed (mk_ctx (SampleMarkets.market "A" (Some (PyStr "nan")) None "active") "T" "C"))
  = Raise ValueError.
Proof.
  split; [|reflexivity].
  rewrite (parsed_probability_agrees_with_option
             (SampleMarkets.market "A" (Some (PyStr "nan")) None "active") "T" "C" _ eq_refl).
  reflexivity.
Defined.

Lemma sentiment_of_probability (md : MarketData.t) (p : Z) :
  MarketData.probability_pct md = Ok p ->
  exists label, MarketData.sentiment md = Ok label /\ in_band label p.
Proof.
  intros Hp. unfold MarketData.sentiment, in_band. rewrite Hp. simpl.
  destruct (Z.leb_spec 80 p); [eexists; split; [reflexivity|]; left; split; [reflexivity|lia]|].
  destruct (Z.leb_spec 60 p);
    [eexists; split; [reflexivity|]; right; left; split; [reflexivity|lia]|].
  destruct (Z.leb_spec 40 p);
    [eexists; split; [reflexivity|]; do 2 right; left; split; [reflexivity|lia]|].
  destruct (Z.leb_spec 20 p);
    [eexists; split; [reflexivity|]; do 3 right; left; split; [reflexivity|lia]|].
  eexists; split; [reflexivity|]. do 4 right. split; [reflexivity|lia].
Qed.

Lemma in_band_unique (l1 l2 : string) (p : Z) : in_band l1 p -> in_band l2 p -> l1 = l2.
Proof.
  unfold in_band.
  intros [[-> H1]|[[-> H1]|[[-> H1]|[[-> H1]|[-> H1]]]]]
         [[-> H2]|[[-> H2]|[[-> H2]|[[-> H2]|[-> H2]]]]]; try reflexivity; lia.
Qed.

(** X12. [sentiment] is the band of [probability_pct]: it gives a label
    exactly when [probability_pct] gives a percentage, and the label is the
    one of the band the percentage lies in; where [probability_pct] raises
    (a price that is [nan] or infinite), [sentiment] raises the same. For a
    price between 0 and 1 neither raises and the percentage lies between 0
    and 100, at most one above the floor of the exact product. *)
Theorem sentiment_is_the_band_of_the_percentage (md : MarketData.t) :
  (forall label,
     MarketData.sentiment md = Ok label <->
     exists p, MarketData.probability_pct md = Ok p /\ in_band label p) /\
  (forall e, MarketData.probability_pct md = Raise e <-> MarketData.sentiment md = Raise e) /\
  (is_valid (MarketData.yes_price md) = true ->
   fleb fzero (MarketData.yes_price md) = true ->
   fleb (MarketData.yes_price md) fone = true ->
   exists p label,
     MarketData.probability_pct md = Ok p /\
     0 <= p <= 100 /\
     floor_percent (MarketData.yes_price md) <= p <= floor_percent (MarketData.yes_price md) + 1 /\
     MarketData.sentiment md = Ok label /\ in_band label p).
Proof.
  split; [|split].
  - intros label. split.
    + intros Hs. destruct (MarketData.probability_pct md) as [p|e] eqn:Hp.
      * exists p. split; [reflexivity|].
        destruct (sentiment_of_probability md p Hp) as (l' & Hl' & Hb).
        rewrite Hs in Hl'. inversion Hl'; subst. exact Hb.
      * unfold MarketData.sentiment in Hs. rewrite Hp in Hs. discriminate.
    + intros (p & Hp & Hb).
      destruct (sentiment_of_probability md p Hp) as (l' & Hl' & Hb').
      rewrite Hl'. f_equal. exact (in_band_unique _ _ _ Hb' Hb).
  - intros e. split.
    + intros Hp. unfold MarketData.sentiment. now rewrite Hp.
    + intros Hs. destruct (MarketData.probability_pct md) as [p|e'] eqn:Hp.
      * destruct (sentiment_of_probability md p Hp) as (l' & Hl' & _).
        rewrite Hs in Hl'. discriminate.
      * unfold MarketData.sentiment in Hs. rewrite Hp in Hs. simpl in Hs.
        now inversion Hs.
  - intros Hv H0 H1.
    destruct (fmul_hundred_between _ Hv H0 H1) as (p & Hp & Hr & Hf).
    destruct (sentiment_of_probability md p Hp) as (label & Hl & Hb).
    exists p, label. auto.
Qed.

Lemma sentiment_is_the_band_of_the_percentage_witness :
  MarketData.sentiment
    (parsed (mk_ctx (SampleMarkets.market "A" (Some (PyStr "0.85")) None "active") "T" "C"))
  = Ok "Very Likely".
Proof.
  destruct (proj2 (proj2 (sentiment_is_the_band_of_the_percentage
              (parsed (mk_ctx (SampleMarkets.market "A" (Some (PyStr "0.85")) None "active")
                              "T" "C"))))
              eq_refl eq_refl eq_refl)
    as (p & label & Hp & _ & _ & Hl & _).
  rewrite Hl. vm_compute in Hl. exact (eq_sym Hl).
Defined.

(** ** [get_top_markets_by_category] *)

Lemma collect_markets_spec (category : string) (events : list EventDict.t)
    (c : market_ctx) :
  In c (collect_markets category events) <->
  from_category category events c /\ is_active (ctx_market c) = true.
Proof.
  unfold collect_markets, from_category. rewrite in_flat_map. split.
  - intros (event & Hev & Hc).
    destruct (matches category (EventDict.to_json event)) eqn:Hm; [|contradiction].
    apply in_map_iff in Hc as (m & <- & Hin). apply filter_In in Hin as [Hin Hact].
    simpl. split; [|exact Hact]. exists event. auto.
  - intros ((event & Hev & Hm & Hin & Ht & Hc) & Hact).
    exists event. split; [exact Hev|]. rewrite Hm.
    apply in_map_iff. exists (ctx_market c). split.
    + destruct c as [m t k]. simpl in *. now subst.
    + apply filter_In. auto.
Qed.

Lemma is_active_status (m : MarketDict.t) :
  is_active m = true -> MarketDict.status m = Some "active".
Proof.
  unfold is_active. destruct (MarketDict.status m) as [st|]; [|discriminate].
  intros H. apply String.eqb_eq in H. now subst.
Qed.

Lemma int_key_class (v : pyval) : int_key v <> None -> class_of v = NumberKey.
Proof. destruct v; simpl; congruence. Qed.

Lemma sort_desc_keys_spec {A : Type} (key : A -> pyval) (l : list A) :
  Forall (fun a => int_key (key a) <> None) l ->
  sort_desc_keys key l = Some (Ok (sort_desc (fun a => default 0 (int_key (key a))) l)).
Proof.
  intros HF. unfold sort_desc_keys.
  destruct l as [|a [|b l]]; try reflexivity.
  set (l0 := a :: b :: l) in *.
  assert (Hclass : forall x, In x l0 -> class_of (key x) = NumberKey).
  { rewrite List.Forall_forall in HF. intros x Hx. apply int_key_class. now apply HF. }
  replace (existsb _ l0) with false.
  2:{ symmetry. apply not_true_is_false. intros Hex.
      apply existsb_exists in Hex as (x & Hx & Hc). now rewrite (Hclass x Hx) in Hc. }
  replace (forallb (fun x => same_class (class_of (key x)) (class_of (key a))) l0) with true.
  2:{ symmetry. apply forallb_forall. intros x Hx.
      rewrite (Hclass x Hx), (Hclass a); [reflexivity | now left]. }
  replace (forallb _ l0) with true; [reflexivity|].
  symmetry. apply forallb_forall. rewrite List.Forall_forall in HF.
  intros x Hx. specialize (HF x Hx). now destruct (int_key (key x)).
Qed.

Lemma sort_desc_keys_null {A : Type} (key : A -> pyval) (l : list A) :
  (2 <= length l)%nat -> Exists (fun a => key a = PyNone) l ->
  sort_desc_keys key l = Some (Raise TypeError).
Proof.
  intros Hlen HE. unfold sort_desc_keys.
  destruct l as [|a [|b l]]; simpl in Hlen; try lia.
  replace (existsb _ _) with true; [reflexivity|].
  symmetry. apply existsb_exists. apply List.Exists_exists in HE as (x & Hx & Hk).
  exists x. split; [exact Hx|]. now rewrite Hk.
Qed.

Lemma parse_all_spec (l : list market_ctx) :
  Forall (fun c => price_overflows (ctx_market c) || count_overflows (ctx_market c) = false) l ->
  parse_all l = Ok (List.map parsed l).
Proof.
  induction 1 as [|c l Hc _ IH]; simpl; [reflexivity|].
  rewrite parse_market_spec, Hc, IH. reflexivity.
Qed.

Lemma slice_to_firstn {A : Type} (n : Z) (l : list A) :
  exists k, slice_to n l = firstn k l.
Proof. unfold slice_to. destruct (0 <=? n); eauto. Qed.

Lemma descending_firstn_dominates {A : Type} (key : A -> Z) (k : nat) (l : list A)
    (x y : A) :
  descending key l -> In x (firstn k l) -> In y l -> ~ In y (firstn k l) ->
  key y <= key x.
Proof.
  intros Hd Hx Hy Hn. rewrite <- (firstn_skipn k l) in Hy, Hd.
  apply in_app_or in Hy as [Hy|Hy]; [contradiction|].
  clear Hn. unfold descending in Hd.
  induction (firstn k l) as [|z f IH]; [contradiction|].
  simpl in Hd. inversion Hd as [|? ? Hl Hz]; subst.
  destruct Hx as [->|Hx]; [|now apply IH].
  rewrite List.Forall_forall in Hz. apply Hz, in_or_app. now right.
Qed.

Lemma descending_ext {A : Type} (f g : A -> Z) (l : list A) :
  (forall a, f a = g a) -> descending f l -> descending g l.
Proof.
  intros Hfg. unfold descending. induction 1 as [|x l Hl IH Hx]; constructor.
  - exact IH.
  - eapply List.Forall_impl; [|exact Hx]. simpl. intros a Ha. now rewrite <- !Hfg.
Qed.

Lemma sort_desc_ext {A : Type} (f g : A -> Z) (l : list A) :
  (forall a, In a l -> f a = g a) -> sort_desc f l = sort_desc g l.
Proof.
  induction l as [|x l IH]; intros Hfg; simpl; [reflexivity|].
  rewrite IH by (intros a Ha; apply Hfg; now right).
  assert (Hs : forall a, In a (sort_desc g l) -> f a = g a).
  { intros a Ha. apply Hfg. right. exact (Permutation_in _ (sort_desc_perm g l) Ha). }
  assert (Hx : f x = g x) by (apply Hfg; now left).
  revert Hs. generalize (sort_desc g l). intros s Hs.
  induction s as [|y s IHs]; simpl; [reflexivity|].
  rewrite Hx, (Hs y) by now left.
  rewrite IHs by (intros a Ha; apply Hs; now right). reflexivity.
Qed.

Lemma descending_map_key {A B : Type} (f : A -> B) (key : B -> Z) (l : list A) :
  descending (fun a => key (f a)) l -> descending key (List.map f l).
Proof.
  intros H. apply (proj2 (descending_map key (List.map f l))).
  rewrite List.map_map. exact (proj1 (descending_map (fun a => key (f a)) l) H).
Qed.

(** X13. Ranked by volume, [get_top_markets_by_category] returns the active
    markets of the events of the category with the largest 24h volumes, in
    descending order, ties in upstream order: a stable sort of the
    candidates cut to [top_n]. Every market returned is active and carries
    the title and the category of its event; no market left out has a
    larger volume than one returned. This holds when the volume of every
    candidate is an integer or missing, and no price or count of a
    candidate overflows. *)
Theorem top_markets_are_the_most_traded
    (events : list EventDict.t) (category : string) (top_n : Z) :
  let candidates := collect_markets category events in
  Forall (fun c => int_key (sort_key (MarketDict.volume_24h (ctx_market c))) <> None)
         candidates ->
  Forall (fun c => price_overflows (ctx_market c) || count_overflows (ctx_market c) = false)
         candidates ->
  exists top,
    get_top_markets_by_category (Ok (Some events)) category top_n "volume"
      = Some (Ok (List.map parsed top)) /\
    top = slice_to top_n
            (sort_desc (fun c => MarketData.volume_24h (parsed c)) candidates) /\
    (0 <= top_n -> length top = Nat.min (Z.to_nat top_n) (length candidates)) /\
    descending MarketData.volume_24h (List.map parsed top) /\
    (forall c, In c top ->
       from_category category events c /\ MarketData.status (parsed c) = "active") /\
    (forall c c', In c top -> In c' candidates -> ~ In c' top ->
       MarketData.volume_24h (parsed c') <= MarketData.volume_24h (parsed c)) /\
    (forall c c', In c top -> In c' top ->
       MarketData.volume_24h (parsed c) = MarketData.volume_24h (parsed c') ->
       precedes c c' top -> precedes c c' candidates).
Proof.
  intros candidates Hvol Hov.
  set (key := fun c : market_ctx => MarketData.volume_24h (parsed c)).
  set (sorted := sort_desc key candidates).
  assert (Hperm : Permutation sorted candidates) by apply sort_desc_perm.
  assert (Hdesc : descending key sorted) by apply sort_desc_sorted.
  assert (Hsort : sort_desc_keys
                    (fun m => sort_key (MarketDict.volume_24h (ctx_market m))) candidates
                  = Some (Ok sorted)).
  { rewrite sort_desc_keys_spec by exact Hvol.
    f_equal. f_equal. unfold sorted. apply sort_desc_ext. intros c Hc.
    rewrite List.Forall_forall in Hvol. specialize (Hvol c Hc).
    unfold key, parsed. simpl.
    destruct (MarketDict.volume_24h (ctx_market c)) as [[|b|z|f|s| |]|]; simpl in *;
      congruence. }
  exists (slice_to top_n sorted).
  destruct (slice_to_firstn top_n sorted) as (k & Hk).
  split; [|split; [reflexivity|split; [|split; [|split; [|split]]]]].
  - unfold get_top_markets_by_category.
    change (String.eqb "volume" "volume") with true. cbv iota. cbv zeta.
    change (default [] (Some events)) with events. fold candidates.
    rewrite Hsort. simpl. f_equal. apply parse_all_spec.
    rewrite List.Forall_forall in *. intros c Hc. apply Hov.
    apply (Permutation_in _ Hperm). exact (slice_to_incl _ _ _ Hc).
  - intros Hn. rewrite slice_to_pos by exact Hn.
    now rewrite length_firstn, (Permutation_length Hperm).
  - apply descending_map_key. rewrite Hk. now apply descending_firstn.
  - intros c Hc. apply slice_to_incl in Hc. apply (Permutation_in _ Hperm) in Hc.
    apply collect_markets_spec in Hc as [Hfrom Hact]. split; [exact Hfrom|].
    unfold parsed. simpl. now rewrite (is_active_status _ Hact).
  - intros c c' Hc Hc' Hnot. rewrite Hk in Hc, Hnot.
    apply (Permutation_in _ (Permutation_sym Hperm)) in Hc'.
    exact (descending_firstn_dominates key k sorted c c' Hdesc Hc Hc' Hnot).
  - intros c c' _ _ Heq (l1 & l2 & l3 & Hsplit).
    apply (sort_desc_reflects_order key c c' candidates Heq).
    rewrite Hk in Hsplit.
    exists l1, l2, (l3 ++ skipn k sorted)%list.
    pose proof (firstn_skipn k sorted) as Hfs. rewrite Hsplit in Hfs.
    etransitivity; [symmetry; exact Hfs|].
    rewrite <- app_assoc. simpl. now rewrite <- app_assoc.
Qed.

Lemma top_markets_are_the_most_traded_witness :
  List.map MarketData.ticker
    (match get_top_markets_by_category (Ok (Some SampleMarkets.politics)) "Politics" 2 "volume" with
     | Some (Ok mds) => mds
     | _ => []
     end) = ["E"; "A"].
Proof.
  destruct (top_markets_are_the_most_traded SampleMarkets.politics "Politics" 2)
    as (top & -> & -> & _).
  - repeat constructor; discriminate.
  - repeat constructor.
  - reflexivity.
Defined.

(** X14. A null [volume_24h] on one candidate makes the ranking by volume
    fail with [TypeError] as soon as there are two candidates, whatever
    [top_n]: the sort key is [None] and cannot be compared. A missing key
    counts as 0 and does no harm. *)
Theorem null_volume_fails_the_market_ranking
    (events : list EventDict.t) (category : string) (top_n : Z) :
  let candidates := collect_markets category events in
  (2 <= length candidates)%nat ->
  Exists (fun c => MarketDict.volume_24h (ctx_market c) = Some PyNone) candidates ->
  get_top_markets_by_category (Ok (Some events)) category top_n "volume"
  = Some (Raise TypeError).
Proof.
  intros candidates Hlen HE.
  unfold get_top_markets_by_category.
  change (String.eqb "volume" "volume") with true. cbv iota. cbv zeta.
  change (default [] (Some events)) with events. fold candidates.
  rewrite sort_desc_keys_null; [reflexivity | exact Hlen |].
  eapply List.Exists_impl; [|exact HE]. simpl. intros c ->. reflexivity.
Qed.

Lemma null_volume_fails_the_market_ranking_witness :
  get_top_markets_by_category (Ok (Some SampleMarkets.null_volume)) "politics" 0 "volume"
  = Some (Raise TypeError).
Proof.
  apply (null_volume_fails_the_market_ranking SampleMarkets.null_volume "politics" 0).
  - vm_compute. lia.
  - vm_compute. apply Exists_cons_tl, Exists_cons_hd. reflexivity.
Defined.

(** ** The two entry points on one response *)

Lemma active_markets_of_to_json (event : EventDict.t) :
  active_markets_of (EventDict.to_json event) =
  List.map MarketDict.to_json (List.filter is_active (default [] (EventDict.markets event))).
Proof.
  unfold active_markets_of. simpl.
  destruct (EventDict.markets event) as [ms|]; simpl; [|reflexivity].
  induction ms as [|m ms IH]; simpl; [reflexivity|].
  unfold is_active at 1. simpl.
  destruct (MarketDict.status m) as [st|]; [|exact IH].
  destruct (String.eqb st "active"); simpl; now rewrite IH.
Qed.

Lemma build_event_none (category : string) (event : EventJson.t) :
  build_event category event = Ok None ->
  matches category event = false \/ active_markets_of event = [].
Proof.
  unfold build_event. destruct (matches category event); simpl; [|now left].
  destruct (active_markets_of event) as [|m ms]; [now right|].
  destruct (options_loop _ _ _ _) as [[opts total]|e]; simpl; discriminate.
Qed.

Lemma Forall2_map_eq {A B C : Type} (R : A -> B -> Prop) (f : B -> C) (g : A -> C)
    (l : list A) (l' : list B) :
  (forall a b, R a b -> f b = g a) -> Forall2 R l l' -> List.map f l' = List.map g l.
Proof.
  intros HR. induction 1 as [|a b l l' Hab _ IH]; simpl; [reflexivity|].
  now rewrite IH, (HR _ _ Hab).
Qed.

Lemma aggregate_loop_markets (category : string) (events : list EventDict.t) :
  forall acc out,
    aggregate_loop category (List.map EventDict.to_json events) acc = Ok out ->
    Permutation
      (flat_map (fun ed => List.map MarketOption.ticker (EventData.options ed)) out)
      (flat_map (fun ed => List.map MarketOption.ticker (EventData.options ed)) acc
       ++ List.map (fun c => MarketData.ticker (parsed c)) (collect_markets category events)) /\
    (Forall (fun c => integer_volume (ctx_market c)) (collect_markets category events) ->
     sum_Z (List.map EventData.total_volume out) =
     sum_Z (List.map EventData.total_volume acc)
     + sum_Z (List.map (fun c => MarketData.volume_24h (parsed c))
                       (collect_markets category events))).
Proof.
  induction events as [|event events IH]; intros acc out H.
  - simpl in H. inversion H; subst. simpl. rewrite app_nil_r.
    split; [reflexivity | intros _; lia].
  - simpl in H. apply bind_Ok_inv in H as (r & Hr & H).
    change (collect_markets category (event :: events))
      with ((if matches category (EventDict.to_json event) then
               List.map (fun m => mk_ctx m (default "" (EventDict.title event))
                                           (default "" (EventDict.category event)))
                        (List.filter is_active (default [] (EventDict.markets event)))
             else []) ++ collect_markets category events)%list.
    destruct r as [ed|].
    + apply IH in H as [Hperm Hsum].
      apply build_event_spec in Hr as (Hm & _ & built & HF & ->).
      rewrite Hm. rewrite active_markets_of_to_json in HF.
      set (active := List.filter is_active (default [] (EventDict.markets event))) in *.
      assert (Htick : List.map MarketOption.ticker built =
                      List.map (fun m => default "" (MarketDict.ticker m)) active).
      { rewrite <- (List.map_map MarketDict.to_json
                      (fun m => default "" (MarketJson.ticker m))).
        apply (Forall2_map_eq _ _ _ _ _ (fun a b Hab => proj1 (proj2 (proj2 (proj2 Hab)))) HF). }
      split.
      * rewrite Hperm, flat_map_app. simpl. rewrite app_nil_r, <- app_assoc.
        apply Permutation_app_head. rewrite List.map_app. apply Permutation_app_tail.
        rewrite List.map_map. simpl. rewrite <- Htick.
        apply Permutation_map, sort_desc_perm.
      * intros Hint. apply List.Forall_app in Hint as [Hhere Hrest].
        assert (Hvols : volumes built =
                        List.map (fun m => count_or_zero (MarketDict.volume_24h m)) active).
        { unfold volumes.
          rewrite (Forall2_map_eq _ _ (fun m => or0 (MarketJson.volume_24h m)) _ _
                     (fun a b Hab => proj1 (proj2 (proj2 Hab))) HF).
          rewrite List.map_map. apply List.map_ext_in. intros m Hm'.
          rewrite List.Forall_forall in Hhere.
          specialize (Hhere _ (in_map _ _ _ Hm')). unfold integer_volume in Hhere.
          simpl in *.
          destruct (MarketDict.volume_24h m) as [[|b|z|f|s0| |]|]; simpl in *;
            try contradiction; reflexivity. }
        rewrite (Hsum Hrest), !List.map_app, !sum_Z_app. simpl. rewrite Hvols.
        rewrite List.map_map. simpl. lia.
    + apply IH in H as [Hperm Hsum].
      assert (Hnil : (if matches category (EventDict.to_json event) then
                        List.map (fun m => mk_ctx m (default "" (EventDict.title event))
                                                    (default "" (EventDict.category event)))
                                 (List.filter is_active (default [] (EventDict.markets event)))
                      else []) = []).
      { apply build_event_none in Hr as [-> | Hr]; [reflexivity|].
        rewrite active_markets_of_to_json in Hr. apply map_eq_nil in Hr.
        rewrite Hr. now destruct (matches _ _). }
      rewrite Hnil. simpl. split; assumption.
Qed.

(** X15. On one response the two entry points draw on the same markets:
    the candidates of [get_top_markets_by_category] are, up to order, the
    markets that [get_top_events_by_category] groups as options of its
    events, ticker for ticker, and every candidate is active. Where the
    volumes of the candidates are integers, null or missing, as the events
    pipeline takes them, they add up to the total volumes of the events. *)
Theorem both_rankings_draw_on_the_same_markets
    (events : list EventDict.t) (category : string) (all_events : list EventData.t) :
  aggregate category (List.map EventDict.to_json events) = Ok all_events ->
  let candidates := List.map parsed (collect_markets category events) in
  Permutation
    (List.map MarketData.ticker candidates)
    (flat_map (fun ed => List.map MarketOption.ticker (EventData.options ed)) all_events) /\
  (Forall (fun c => integer_volume (ctx_market c)) (collect_markets category events) ->
   sum_Z (List.map MarketData.volume_24h candidates) =
   sum_Z (List.map EventData.total_volume all_events)) /\
  Forall (fun md => MarketData.status md = "active") candidates.
Proof.
  intros H candidates. subst candidates.
  apply aggregate_loop_markets in H as [Hperm Hsum].
  rewrite !List.map_map. split; [symmetry; exact Hperm|].
  split; [intros Hint; exact (eq_sym (Hsum Hint))|].
  apply List.Forall_forall. intros md Hmd.
  apply in_map_iff in Hmd as (c & <- & Hc).
  apply collect_markets_spec in Hc as [_ Hact].
  unfold parsed. simpl. now rewrite (is_active_status _ Hact).
Qed.

Lemma both_rankings_draw_on_the_same_markets_witness :
  exists all_events,
    aggregate "Politics" (List.map EventDict.to_json SampleMarkets.politics) = Ok all_events /\
    sum_Z (List.map MarketData.volume_24h
             (List.map parsed (collect_markets "Politics" SampleMarkets.politics)))
    = sum_Z (List.map EventData.total_volume all_events).
Proof.
  assert (H : { l | aggregate "Politics" (List.map EventDict.to_json SampleMarkets.politics)
                    = Ok l }).
  { eexists. vm_compute. reflexivity. }
  destruct H as [l H]. exists l. split; [exact H|].
  apply (proj1 (proj2 (both_rankings_draw_on_the_same_markets
                         SampleMarkets.politics "Politics" l H))).
  repeat constructor.
Defined.

(* ===================================================================== *)
(** * The messages of the bot and the hourly job                          *)
(* ===================================================================== *)

Section Messages.
Import Bot BotMessages.

Lemma event_lines_length (sort_type : string) (i : Z) (event : EventData.t) :
  length (event_lines sort_type i event) = lines_of_event event.
Proof.
  unfold event_lines, lines_of_event, MAX_OPTIONS_PER_EVENT.
  rewrite slice_to_pos by lia. simpl length.
  rewrite !length_app, length_map, length_firstn. change (Z.to_nat 4) with 4%nat.
  set (n := length (EventData.options event)).
  destruct (Z.ltb_spec 0 (Z.of_nat n - 4)); destruct (Nat.ltb_spec 4 n); simpl; lia.
Qed.

Lemma events_loop_length (sort_type : string) (events : list EventData.t) :
  forall i lines,
    length (events_loop sort_type i events lines) =
    (length lines + list_sum (List.map lines_of_event events))%nat.
Proof.
  induction events as [|event events IH]; intros i lines.
  - simpl. lia.
  - change (list_sum (List.map lines_of_event (event :: events)))
      with (lines_of_event event + list_sum (List.map lines_of_event events))%nat.
    cbn [events_loop]. rewrite IH, length_app, event_lines_length. lia.
Qed.

Lemma lines_of_event_bound (event : EventData.t) : (2 <= lines_of_event event <= 7)%nat.
Proof.
  unfold lines_of_event. cbv zeta.
  destruct (Nat.ltb_spec 4 (length (EventData.options event))); lia.
Qed.

Lemma option_line_volume (o o' : MarketOption.t) :
  option_frame o o' -> option_line "volume" o' = option_line "volume" o.
Proof.
  intros (Hname & Hprob & _). unfold option_line. simpl.
  now rewrite Hname, Hprob.
Qed.

Lemma option_lines_volume (os os' : list MarketOption.t) (n : nat) :
  Forall2 option_frame os os' ->
  List.map (option_line "volume") (firstn n os')
  = List.map (option_line "volume") (firstn n os).
Proof.
  intros HF. revert n. induction HF as [|o o' os os' Ho _ IH]; intros [|n]; simpl;
    try reflexivity.
  now rewrite IH, (option_line_volume _ _ Ho).
Qed.

Lemma event_lines_volume (i : Z) (e e' : EventData.t) :
  event_frame e e' -> event_lines "volume" i e' = event_lines "volume" i e.
Proof.
  intros (_ & Htitle & _ & Hvol & _ & _ & HF). unfold event_lines.
  rewrite Htitle, Hvol, <- (Forall2_length _ _ _ HF).
  unfold MAX_OPTIONS_PER_EVENT. rewrite !slice_to_pos by lia.
  now rewrite (option_lines_volume _ _ _ HF).
Qed.

Lemma events_loop_volume (events events' : list EventData.t) :
  Forall2 event_frame events events' ->
  forall i lines,
    events_loop "volume" i events' lines = events_loop "volume" i events lines.
Proof.
  induction 1 as [|e e' events events' He _ IH]; intros i lines; simpl; [reflexivity|].
  now rewrite IH, (event_lines_volume _ _ _ He).
Qed.

Lemma not_comma_digit (d : Z) : 0 <= d <= 9 -> Ascii.eqb (digit_char d) "," = false.
Proof.
  intros H. destruct (digit_cases d H) as [->|[->|[->|[->|[->|[->|[->|[->|[->| ->]]]]]]]]];
    reflexivity.
Qed.

Lemma filter_commas_rev (digits : list ascii) :
  Forall (fun c => Ascii.eqb c "," = false) digits ->
  forall k,
    List.filter (fun c => negb (Ascii.eqb c ","%char)) (commas_rev digits k) = digits.
Proof.
  induction 1 as [|c digits Hc _ IH]; intros k; simpl; [reflexivity|].
  destruct k as [|[|[|[|k]]]]; simpl; rewrite Hc; simpl; now rewrite IH.
Qed.

Lemma filter_rev {A : Type} (p : A -> bool) (l : list A) :
  List.filter p (rev l) = rev (List.filter p l).
Proof.
  induction l as [|x l IH]; simpl; [reflexivity|].
  rewrite List.filter_app, IH. simpl. destruct (p x); simpl; [reflexivity|].
  now rewrite app_nil_r.
Qed.

Lemma without_commas_thousands (n : Z) : without_commas (format_thousands n) = str_of_Z n.
Proof.
  unfold without_commas, format_thousands, str_of_Z.
  rewrite list_ascii_of_string_of_list_ascii. f_equal.
  assert (Hd : forall m, List.filter (fun c => negb (Ascii.eqb c ","%char))
                           (rev (commas_rev (rev (decimal m)) 0)) = decimal m).
  { intros m. rewrite filter_rev, filter_commas_rev, rev_involutive; [reflexivity|].
    apply List.Forall_rev. unfold decimal.
    apply (digits_of_chars (fun c => Ascii.eqb c "," = false)); [|constructor].
    exact not_comma_digit. }
  destruct (Z.ltb_spec n 0).
  - simpl. rewrite Hd. f_equal. f_equal. lia.
  - rewrite Hd. f_equal. lia.
Qed.

Lemma newlines_app (s1 s2 : string) :
  newlines (s1 +:+ s2) = (newlines s1 + newlines s2)%nat.
Proof.
  unfold newlines. induction s1 as [|c s1 IH]; simpl; [reflexivity|].
  rewrite IH. lia.
Qed.

Lemma newlines_none (s : string) :
  Forall (fun c => Ascii.eqb c (ascii_of_nat 10) = false) (list_ascii_of_string s) ->
  newlines s = 0%nat.
Proof.
  unfold newlines. induction s as [|c s IH]; simpl; [reflexivity|].
  intros H. inversion H as [|? ? Hc Hs]; subst. rewrite Hc. now rewrite IH.
Qed.

Lemma not_newline_digit (d : Z) :
  0 <= d <= 9 -> Ascii.eqb (digit_char d) (ascii_of_nat 10) = false.
Proof.
  intros H. destruct (digit_cases d H) as [->|[->|[->|[->|[->|[->|[->|[->|[->| ->]]]]]]]]];
    reflexivity.
Qed.

Lemma newlines_str_of_Z (z : Z) : newlines (str_of_Z z) = 0%nat.
Proof.
  apply newlines_none.
  apply (str_of_Z_chars (fun c => Ascii.eqb c (ascii_of_nat 10) = false));
    [exact not_newline_digit | reflexivity].
Qed.

Lemma commas_rev_chars (P : ascii -> Prop) (digits : list ascii) :
  P ","%char -> Forall P digits -> forall k, Forall P (commas_rev digits k).
Proof.
  intros Hc. induction 1 as [|c digits Hd _ IH]; intros k; simpl; [constructor|].
  destruct k as [|[|[|[|k]]]]; repeat constructor; auto.
Qed.

Lemma newlines_thousands (n : Z) : newlines (format_thousands n) = 0%nat.
Proof.
  apply newlines_none. unfold format_thousands.
  rewrite list_ascii_of_string_of_list_ascii.
  assert (H : Forall (fun c => Ascii.eqb c (ascii_of_nat 10) = false)
                     (rev (commas_rev (rev (decimal (Z.abs n))) 0))).
  { apply List.Forall_rev, commas_rev_chars; [reflexivity|].
    apply List.Forall_rev. unfold decimal.
    apply (digits_of_chars (fun c => Ascii.eqb c (ascii_of_nat 10) = false));
      [exact not_newline_digit | constructor]. }
  destruct (n <? 0); [constructor; [reflexivity | exact H] | exact H].
Qed.

Lemma newlines_escape_with (p : ascii -> bool) (s : string) :
  newlines (escape_with p s) = newlines s.
Proof.
  unfold newlines. induction s as [|c s IH]; simpl; [reflexivity|].
  destruct (p c); simpl; now rewrite IH.
Qed.

Lemma newlines_escape_markdown (s : string) : newlines (escape_markdown s) = newlines s.
Proof. rewrite escape_markdown_one_pass. apply newlines_escape_with. Qed.

Lemma newlines_option_line (sort_type : string) (o : MarketOption.t) :
  newlines (option_line sort_type o) = newlines (MarketOption.name o).
Proof.
  unfold option_line.
  destruct (String.eqb sort_type "price_change"
            && negb (MarketOption.price_change_24h o =? 0));
    [destruct (0 <? MarketOption.price_change_24h o)|];
    rewrite !newlines_app, newlines_escape_markdown, !newlines_str_of_Z;
    change (newlines "  ") with 0%nat; change (newlines bullet) with 0%nat;
    change (newlines " ") with 0%nat; change (newlines ": ") with 0%nat;
    change (newlines "% \(") with 0%nat; change (newlines "\)") with 0%nat;
    change (newlines "\+") with 0%nat; change (newlines "\-") with 0%nat;
    change (newlines "%") with 0%nat; lia.
Qed.

Lemma newlines_option_lines (sort_type : string) (options : list MarketOption.t) (n : nat) :
  Forall (fun o => newlines (MarketOption.name o) = 0%nat) options ->
  list_sum (List.map newlines (List.map (option_line sort_type) (firstn n options))) = 0%nat.
Proof.
  intros H. revert n. induction H as [|o options Ho _ IH]; intros [|n]; try reflexivity.
  cbn [firstn List.map].
  change (list_sum (?x :: ?l)) with (x + list_sum l)%nat.
  now rewrite IH, newlines_option_line, Ho.
Qed.

Lemma list_sum_cons (x : nat) (l : list nat) : list_sum (x :: l) = (x + list_sum l)%nat.
Proof. reflexivity. Qed.

Lemma newlines_event_lines (sort_type : string) (i : Z) (event : EventData.t) :
  one_line_texts event ->
  list_sum (List.map newlines (event_lines sort_type i event)) = 1%nat.
Proof.
  intros [Htitle Hnames]. unfold event_lines, MAX_OPTIONS_PER_EVENT.
  rewrite slice_to_pos by lia.
  rewrite !List.map_app, !list_sum_app, (newlines_option_lines _ _ _ Hnames).
  cbn [List.map]. rewrite !list_sum_cons. cbn [list_sum fold_right].
  rewrite !newlines_app, newlines_escape_markdown, Htitle, newlines_str_of_Z,
    newlines_thousands.
  change (newlines "*") with 0%nat. change (newlines "\. ") with 0%nat.
  change (newlines "  ") with 0%nat. change (newlines chart) with 0%nat.
  change (newlines " Vol: ") with 0%nat. change (newlines nl) with 1%nat.
  destruct (0 <? _); cbn [List.map list_sum fold_right];
    rewrite ?newlines_app, ?newlines_str_of_Z;
    change (newlines "  _\.\.\.and ") with 0%nat;
    change (newlines " more options_") with 0%nat; lia.
Qed.

Lemma events_loop_newlines (sort_type : string) (events : list EventData.t) :
  Forall one_line_texts events ->
  forall i lines,
    list_sum (List.map newlines (events_loop sort_type i events lines)) =
    (list_sum (List.map newlines lines) + length events)%nat.
Proof.
  induction 1 as [|event events He _ IH]; intros i lines; simpl; [lia|].
  rewrite IH, List.map_app, list_sum_app, (newlines_event_lines _ _ _ He). lia.
Qed.

Lemma newlines_join_lines (lines : list string) :
  lines <> [] ->
  (newlines (join_lines lines) + 1 = list_sum (List.map newlines lines) + length lines)%nat.
Proof.
  induction lines as [|line lines IH]; [contradiction|]. intros _.
  destruct lines as [|line' lines].
  - simpl. lia.
  - change (join_lines (line :: line' :: lines))
      with (line +:+ nl +:+ join_lines (line' :: lines)).
    rewrite !newlines_app. change (newlines nl) with 1%nat.
    specialize (IH ltac:(discriminate)).
    cbn [List.map length] in *. rewrite !list_sum_cons in *. lia.
Qed.

Lemma rows_of_event_bound (event : EventData.t) : (rows_of_event event <= 8)%nat.
Proof.
  unfold rows_of_event. cbv zeta.
  destruct (Nat.ltb_spec 4 (length (EventData.options event))); lia.
Qed.

Lemma sum_rows (events : list EventData.t) :
  list_sum (List.map rows_of_event events)
  = (list_sum (List.map lines_of_event events) + length events)%nat /\
  (list_sum (List.map rows_of_event events) <= 8 * length events)%nat.
Proof.
  induction events as [|e events [IH1 IH2]]; [simpl; lia|].
  cbn [List.map length]. rewrite !list_sum_cons.
  pose proof (rows_of_event_bound e) as Hb.
  assert (Hr : rows_of_event e = S (lines_of_event e)).
  { unfold rows_of_event, lines_of_event. cbv zeta. lia. }
  lia.
Qed.

(** X16. The text [format_event_message] returns, counted in line ends.
    When the category, the titles and the names of the options hold no line
    end, the message is the header line and then, for each event, an empty
    line, its title, one line for each of its first four options at most, a
    line that counts the options left out exactly when there are more than
    four, and its volume: eight lines at most for an event, each ended by
    a line end. Without events the message holds two line ends: the
    header, an empty line and the line that says so. Sorted by volume, the
    message shows no price change: events that differ in their price
    changes only give the same message. The volume shown is the total
    volume of the event, with commas added. *)
Theorem message_shows_four_options_per_event :
  (forall category sort_type,
     newlines category = 0%nat ->
     newlines (format_event_message [] category sort_type) = 2%nat) /\
  (forall events category sort_type,
     events <> [] ->
     newlines category = 0%nat ->
     Forall one_line_texts events ->
     newlines (format_event_message events category sort_type)
       = (1 + list_sum (List.map rows_of_event events))%nat /\
     (newlines (format_event_message events category sort_type)
        <= 1 + 8 * length events)%nat) /\
  (forall sort_type i event,
     exists title more volume,
       event_lines sort_type i event =
         title :: List.map (option_line sort_type) (firstn 4 (EventData.options event))
               ++ more ++ [volume] /\
       (more = [] <-> (length (EventData.options event) <= 4)%nat) /\
       (length more <= 1)%nat /\
       exists prefix,
         volume = prefix +:+ format_thousands (EventData.total_volume event) +:+ nl /\
         without_commas (format_thousands (EventData.total_volume event))
         = str_of_Z (EventData.total_volume event)) /\
  (forall events events' category,
     Forall2 event_frame events events' ->
     format_event_message events' category "volume"
     = format_event_message events category "volume").
Proof.
  assert (Hhead : forall n category sort_type,
            newlines category = 0%nat ->
            newlines ((if String.eqb category "Politics" then emoji_politics
                       else emoji_economics)
                      +:+ " *Top " +:+ str_of_Z n +:+ " " +:+ category +:+ "* \(by "
                      +:+ (if String.eqb sort_type "volume" then "24h Volume"
                           else "24h Movers") +:+ "\)" +:+ nl) = 1%nat).
  { intros n category sort_type Hcat.
    rewrite !newlines_app, newlines_str_of_Z, Hcat.
    change (newlines nl) with 1%nat. change (newlines " *Top ") with 0%nat.
    change (newlines " ") with 0%nat. change (newlines "* \(by ") with 0%nat.
    change (newlines "\)") with 0%nat.
    destruct (String.eqb category "Politics"); destruct (String.eqb sort_type "volume");
      reflexivity. }
  split; [|split; [|split]].
  - intros category sort_type Hcat. unfold format_event_message, format_event_lines.
    cbn [app join_lines length]. rewrite newlines_app, (Hhead _ _ _ Hcat). reflexivity.
  - intros events category sort_type Hne Hcat Htexts.
    assert (Hlen : (newlines (format_event_message events category sort_type)
                    = 1 + list_sum (List.map rows_of_event events))%nat).
    { unfold format_event_message, format_event_lines.
      destruct events as [|e events]; [contradiction|].
      set (head := _ +:+ _).
      assert (Hh : newlines head = 1%nat) by (apply Hhead; exact Hcat).
      assert (Hnonempty : events_loop sort_type 1 (e :: events) [head] <> []).
      { intros Heq. apply (f_equal (@length _)) in Heq.
        rewrite events_loop_length in Heq. simpl in Heq. lia. }
      pose proof (newlines_join_lines _ Hnonempty) as Hj.
      rewrite events_loop_newlines, events_loop_length in Hj by exact Htexts.
      change (list_sum (List.map newlines [head])) with (newlines head + 0)%nat in Hj.
      change (length [head]) with 1%nat in Hj. rewrite Hh in Hj.
      destruct (sum_rows (e :: events)) as [Hrows _]. rewrite Hrows. lia. }
    split; [exact Hlen|]. rewrite Hlen.
    destruct (sum_rows events) as [_ Hb]. lia.
  - intros sort_type i event. unfold event_lines, MAX_OPTIONS_PER_EVENT.
    rewrite slice_to_pos by lia. change (Z.to_nat 4) with 4%nat.
    eexists _, _, _. split; [reflexivity|]. split; [|split].
    + destruct (Z.ltb_spec 0 (Z.of_nat (length (EventData.options event)) - 4)); split;
        try discriminate; try reflexivity; lia.
    + destruct (0 <? _); simpl; lia.
    + exists ("  " +:+ chart +:+ " Vol: "). split; [reflexivity|].
      apply without_commas_thousands.
  - intros events events' category HF. unfold format_event_message, format_event_lines.
    rewrite <- (Forall2_length _ _ _ HF).
    pose proof (events_loop_volume _ _ HF) as Hloop.
    destruct HF as [|e e' events events' He HF]; [reflexivity|].
    now rewrite Hloop.
Qed.

Lemma message_shows_four_options_per_event_witness :
  newlines (format_event_message Sample.four_events "Politics" "volume") = 17%nat.
Proof.
  rewrite (proj1 (proj1 (proj2 message_shows_four_options_per_event)
                    Sample.four_events "Politics" "volume" ltac:(discriminate) eq_refl
                    ltac:(repeat constructor))).
  reflexivity.
Defined.

End Messages.

Section HourlyJob.
Import Bot BotMessages.

Lemma send_loop_spec (send : list Z -> Z -> string -> result unit) (msg : string)
    (chats : list Z) :
  forall tried failed,
    fst (send_loop send msg chats tried failed) = tried ++ chats /\
    forall id,
      In id (snd (send_loop send msg chats tried failed)) <->
      In id failed \/
      exists pre post e, chats = pre ++ id :: post /\ send (tried ++ pre) id msg = Raise e.
Proof.
  induction chats as [|c chats IH]; intros tried failed.
  - simpl. rewrite app_nil_r. split; [reflexivity|]. intros id. split; [auto|].
    intros [H|(pre & post & e & Heq & _)]; [exact H|]. now destruct pre.
  - assert (Hfst : forall f, fst (send_loop send msg chats (tried ++ [c]) f)
                             = tried ++ c :: chats).
    { intros f. rewrite (proj1 (IH _ _)), <- app_assoc. reflexivity. }
    assert (Hrest : forall id,
              (exists pre post e, chats = pre ++ id :: post /\
                                  send ((tried ++ [c]) ++ pre) id msg = Raise e) <->
              (exists pre post e, c :: chats = (c :: pre) ++ id :: post /\
                                  send (tried ++ c :: pre) id msg = Raise e)).
    { intros id. split; intros (pre & post & e & Heq & Hs); exists pre, post, e.
      - rewrite <- app_assoc in Hs. simpl in *. split; [now f_equal | exact Hs].
      - rewrite <- app_assoc. simpl in *. split; [now inversion Heq | exact Hs]. }
    simpl. destruct (send tried c msg) as [u|e] eqn:Hsend.
    + split; [apply Hfst|]. intros id. rewrite (proj2 (IH _ _)), Hrest. split.
      * intros [H|(pre & post & e & Heq & Hs)]; [now left|].
        right. exists (c :: pre), post, e. auto.
      * intros [H|(pre & post & e & Heq & Hs)]; [now left|].
        destruct pre as [|c' pre]; simpl in Heq; inversion Heq; subst.
        -- rewrite app_nil_r in Hs. congruence.
        -- right. exists pre, post, e. auto.
    + split; [apply Hfst|]. intros id. rewrite (proj2 (IH _ _)), Hrest, in_app_iff. split.
      * intros [[H|[<-|[]]]|(pre & post & e' & Heq & Hs)]; [now left| |].
        -- right. exists (@nil Z), chats, e. rewrite app_nil_r. auto.
        -- right. exists (c :: pre), post, e'. auto.
      * intros [H|(pre & post & e' & Heq & Hs)]; [now left; left|].
        destruct pre as [|c' pre]; simpl in Heq; inversion Heq; subst.
        -- left. right. now left.
        -- right. exists pre, post, e'. auto.
Qed.

Lemma top_by_volume_spec (w : world) (category : string) (events : list EventData.t) :
  top_by_volume w category = Ok events ->
  (length events <= 5)%nat /\ descending EventData.total_volume events.
Proof.
  unfold top_by_volume, get_top_events_by_category, rank.
  destruct (events_response w category) as [response|e]; [|discriminate].
  destruct (aggregate category (default [] response)) as [all_events|e]; [|discriminate].
  rewrite sort_events_volume. simpl. intros H. inversion H; subst. clear H.
  unfold TOP_N. rewrite slice_to_pos by lia. split.
  - rewrite length_firstn. change (Z.to_nat 5) with 5%nat. lia.
  - apply descending_firstn, sort_desc_sorted.
Qed.

(** X17. The hourly job. With the keys of the subscriptions distinct and
    numeric, [send_hourly_update] never raises. With no chat at the
    current hour it fetches and sends nothing. Otherwise, if one of the two
    fetches fails, no chat is sent anything; if both succeed, every chat of
    the current hour, and no other chat, is tried once, in order, with the
    same message, built from at most five events of each category in
    descending order of volume, and a chat is in [failed_chats] exactly
    when its own send raised: a failed send stops nothing. *)
Theorem hourly_update_tries_every_chat_of_the_hour (w : world) (d : store) :
  NoDup (keys d) -> numeric_keys d ->
  exists chats out,
    get_chats_for_hour d (current_hour w) = Ok chats /\
    send_hourly_update w d = Ok out /\
    NoDup chats /\
    (forall id, In id chats <->
       exists data, dict_get (str_of_Z id) d = Some data /\
                    hour data = Some (current_hour w)) /\
    (chats = [] -> out = NoChats) /\
    (forall e, chats <> [] ->
       top_by_volume w "Politics" = Raise e \/
       ((exists politics, top_by_volume w "Politics" = Ok politics) /\
        top_by_volume w "Economics" = Raise e) ->
       out = Failed e) /\
    (forall politics economics,
       chats <> [] ->
       top_by_volume w "Politics" = Ok politics ->
       top_by_volume w "Economics" = Ok economics ->
       let full_message :=
         (chart +:+ " *Daily Market Update*" +:+ nl +:+ nl)
           +:+ format_full_update (timestamp w) politics economics "volume" in
       exists failed_chats,
         out = Completed full_message chats failed_chats /\
         (forall id,
            In id failed_chats <->
            exists pre post e,
              chats = pre ++ id :: post /\ send_message w pre id full_message = Raise e) /\
         (length politics <= 5)%nat /\ (length economics <= 5)%nat /\
         descending EventData.total_volume politics /\
         descending EventData.total_volume economics).
Proof.
  intros Hnd Hnum.
  destruct (get_chats_for_hour_dict d (current_hour w) Hnd Hnum)
    as (chats & Hchats & Hnd' & Hmem).
  unfold send_hourly_update. rewrite Hchats. simpl bind.
  destruct chats as [|c chats].
  { exists (@nil Z), NoChats.
    split; [reflexivity|]. split; [reflexivity|]. split; [exact Hnd'|].
    split; [exact Hmem|]. split; [reflexivity|]. split.
    - intros e H. contradiction.
    - intros p q H. contradiction. }
  destruct (top_by_volume w "Politics") as [politics|e1] eqn:Hp.
  - destruct (top_by_volume w "Economics") as [economics|e2] eqn:He.
    + set (msg := (chart +:+ " *Daily Market Update*" +:+ nl +:+ nl)
                        +:+ format_full_update (timestamp w) politics economics "volume").
      pose proof (send_loop_spec (send_message w) msg (c :: chats) [] []) as [Htried Hfailed].
      destruct (send_loop (send_message w) msg (c :: chats) [] []) as [tried failed] eqn:Hloop.
      simpl in Htried, Hfailed. subst tried.
      exists (c :: chats), (Completed msg (c :: chats) failed).
      split; [reflexivity|]. split; [reflexivity|]. split; [exact Hnd'|].
      split; [exact Hmem|]. split; [discriminate|]. split.
      * intros e _ [H|(_ & H)]; discriminate.
      * intros p q _ Hp' Hq'. inversion Hp'; inversion Hq'; subst p q. cbv zeta. fold msg.
        exists failed. split; [reflexivity|]. split.
        -- intros id. rewrite Hfailed. split.
           ++ intros [[]|H]. exact H.
           ++ intros H. now right.
        -- destruct (top_by_volume_spec w _ _ Hp) as [? ?].
           destruct (top_by_volume_spec w _ _ He) as [? ?]. auto.
    + exists (c :: chats), (Failed e2).
      split; [reflexivity|]. split; [reflexivity|]. split; [exact Hnd'|].
      split; [exact Hmem|]. split; [discriminate|]. split.
      * intros e _ [H|(_ & H)]; [discriminate | now inversion H].
      * intros p q _ _ Hq. discriminate.
  - exists (c :: chats), (Failed e1).
    split; [reflexivity|]. split; [reflexivity|]. split; [exact Hnd'|].
    split; [exact Hmem|]. split; [discriminate|]. split.
    + intros e _ [H|((p & H) & _)]; [now inversion H | discriminate].
    + intros p q _ Hp'. discriminate.
Qed.

Lemma hourly_update_tries_every_chat_of_the_hour_witness :
  exists full_message failed_chats,
    send_hourly_update SampleJob.at_eight SampleJob.chats
      = Ok (Completed full_message [123; -456] failed_chats) /\
    In 123 failed_chats /\ ~ In (-456) failed_chats.
Proof.
  destruct (hourly_update_tries_every_chat_of_the_hour SampleJob.at_eight SampleJob.chats)
    as (chats & out & Hchats & Hout & _ & _ & _ & _ & Hdone).
  - apply (bool_decide_unpack _). vm_compute. reflexivity.
  - repeat constructor; [exists 123 | exists (-456) | exists 789]; reflexivity.
  - vm_compute in Hchats. inversion Hchats; subst chats. clear Hchats.
    destruct (Hdone [] [] ltac:(discriminate) eq_refl eq_refl)
      as (failed & -> & Hfailed & _).
    eexists _, failed. split; [exact Hout|]. split.
    + apply Hfailed. exists [], [-456], RequestException. split; reflexivity.
    + intros H. apply Hfailed in H as (pre & post & e & _ & Hs). discriminate.
Defined.

End HourlyJob.
